(** * The attitude-rate PID controller of src/main/flight/pid.c

    A shallow embedding of the controller and the properties of its
    specification.  The file-scope and function-scope statics of pid.c
    are gathered in one explicit state record, the values read from the
    other firmware modules in the course of a tick are an input record,
    and a C expression whose behaviour is undefined (an array access
    outside the declared bounds, a float to integer conversion outside
    the target range, a filter applied to a handle of another type)
    makes the embedded function return [None].

    The C type [float] is kept abstract behind the interface [Arith];
    the controller is written once over that interface.  The model of
    the program is [binary32], IEEE 754 single precision as the
    hardware computes it (rounding to nearest even, signed zeros,
    infinities and NaN); what is proved of the program is proved for
    every arithmetic or for [binary32].  A second instance, [Q], reads
    the same formulas over the rationals; it serves to say what a
    formula means without rounding, beside the statement about the
    program, never in its place. *)

From Stdlib Require Import ZArith QArith Qabs Qminmax Lqa Lia Bool.
From Stdlib Require Import Floats.SpecFloat.
From stdpp Require Import base option list.

Set Default Proof Using "Type".

(** ** Arithmetic of the C type [float] *)

Class Arith (F : Type) := {
  fadd : F -> F -> F;
  fsub : F -> F -> F;
  fmul : F -> F -> F;
  fdiv : F -> F -> F;
  fneg : F -> F;
  (** [flt a b] is the C comparison [a < b]. *)
  flt : F -> F -> bool;
  (** [fnonzero a] is the truth value of [a] in a C condition, [a != 0]. *)
  fnonzero : F -> bool;
  (** [of_int z] is the conversion of the C integer [z] to [float]. *)
  of_int : Z -> F;
  (** [to_uint32 a] is the conversion of [a] to [uint32_t]; it is
      undefined when the truncated value is not representable. *)
  to_uint32 : F -> option Z
}.

Section Maths.
Context {F : Type} {arith : Arith F}.

(** [a > b] in C. *)
Definition fgt (a b : F) : bool := flt b a.

Definition f0 : F := of_int 0.
Definition f1 : F := of_int 1.

(** The literal [0.000001f]: the single nearest to 10^-6, which is
    what the correctly rounded quotient of 1 by 10^6 is. *)
Definition f_micro : F := fdiv (of_int 1) (of_int 1000000).

(** Modelled from the spec: common/maths.h is not among the sources.
    [MIN], [MAX] and [ABS] are its macros ([min], [larger of],
    [absolute value] in the specification) and [constrainf] its clamp
    ([clamped to]), each with the comparison the firmware writes. *)
Definition MIN (a b : F) : F := if flt a b then a else b.
Definition MAX (a b : F) : F := if fgt a b then a else b.
Definition ABS (x : F) : F := if fgt x f0 then x else fneg x.
Definition constrainf (amt low high : F) : F :=
  if flt amt low then low else if fgt amt high then high else amt.
End Maths.


(** *** IEEE 754 single precision *)

Module Binary32.
Definition prec : Z := 24.
Definition emax : Z := 128.

(** A single is a float of the specification with these parameters. *)
Abbreviation binary32 := spec_float (only parsing).

Definition of_Z (z : Z) : binary32 := binary_normalize prec emax z 0 false.

(** Truncation toward zero of a finite single. *)
Definition trunc (x : binary32) : option Z :=
  match x with
  | S754_zero _ => Some 0%Z
  | S754_finite s m e =>
      let a := match e with
               | Zneg p => Z.shiftr (Zpos m) (Zpos p)
               | _ => Z.shiftl (Zpos m) e
               end in
      Some (if s then (- a)%Z else a)
  | _ => None
  end.

Definition to_u32 (x : binary32) : option Z :=
  match trunc x with
  | Some z => if ((0 <=? z) && (z <? 2 ^ 32))%Z then Some z else None
  | None => None
  end.

Definition is_nan (x : binary32) : bool :=
  match x with S754_nan => true | _ => false end.

Definition is_finite (x : binary32) : bool :=
  match x with S754_zero _ | S754_finite _ _ _ => true | _ => false end.

Definition pinf : binary32 := S754_infinity false.

Definition is_pinf (x : binary32) : bool :=
  match x with S754_infinity false => true | _ => false end.
End Binary32.

#[export] Instance binary32_arith : Arith Binary32.binary32 := {
  fadd := SFadd Binary32.prec Binary32.emax;
  fsub := SFsub Binary32.prec Binary32.emax;
  fmul := SFmul Binary32.prec Binary32.emax;
  fdiv := SFdiv Binary32.prec Binary32.emax;
  fneg := SFopp;
  flt := SFltb;
  fnonzero := fun x => negb (SFeqb x (S754_zero false));
  of_int := Binary32.of_Z;
  to_uint32 := Binary32.to_u32
}.

(** *** Exact rational arithmetic

    The formulas read over the rationals: no rounding, no overflow, no
    infinity and no NaN.  This is not the arithmetic of the program,
    and a statement over [Q] is not a statement about the program: it
    accompanies one made for every arithmetic or for [binary32].  The
    division of [Q] gives 0 for a zero divisor; no statement below that
    is made over [Q] divides by zero. *)

Module Exact.
Definition lt (a b : Q) : bool := negb (Qle_bool b a).

Definition to_u32 (a : Q) : option Z :=
  let z := Z.quot (Qnum a) (Zpos (Qden a)) in
  if ((0 <=? z) && (z <? 2 ^ 32))%Z then Some z else None.
End Exact.

#[export] Instance exact_arith : Arith Q := {
  fadd := Qplus;
  fsub := Qminus;
  fmul := Qmult;
  fdiv := Qdiv;
  fneg := Qopp;
  flt := Exact.lt;
  fnonzero := fun x => negb (Qeq_bool x 0);
  of_int := inject_Z;
  to_uint32 := Exact.to_u32
}.

(** ** Declarations of the headers pid.c includes *)

(** common/axis.h and fc/rc_controls.h; [BUILD_BUG_ON(FD_YAW != 2)] in
    [pidInitFilters] fixes the numbering. *)
Definition FD_ROLL : nat := 0.
Definition FD_PITCH : nat := 1.
Definition FD_YAW : nat := 2.
Definition YAW : nat := 2.

(** The axes of the loop [for (axis = FD_ROLL; axis <= FD_YAW; axis++)]. *)
Definition axes : list nat := [FD_ROLL; FD_PITCH; FD_YAW].

(** common/filter.h: the low-pass selector of the profile and the kind
    of a biquad.  [FILTER_OTHER] stands for every value of the selector
    that the [switch] of [pidInitFilters] sends to [default]. *)
Inductive filterType_e := FILTER_PT1 | FILTER_BIQUAD | FILTER_FIR | FILTER_OTHER.
Inductive biquadFilterType_e := FILTER_LPF | FILTER_NOTCH.

(** The values of a [filterApplyFnPtr]: the null pointer of a
    zero-initialised static, or one of the functions of
    common/filter.c. *)
Inductive filterApplyFnPtr :=
  | NullFn
  | nullFilterApply
  | biquadFilterApply
  | pt1FilterApply
  | firFilterDenoiseUpdate.

#[export] Instance filterApplyFnPtr_eq_dec : EqDecision filterApplyFnPtr.
Proof. solve_decision. Defined.

(** The values a filter handle ([void *]) takes in pid.c: the null
    pointer of a zero-initialised static, or the address of one of the
    filter structures that are static in [pidInitFilters]. *)
Inductive filterPtr :=
  | NullPtr
  | BiquadNotchPtr (i : nat)   (* &biquadFilterNotch[i] *)
  | Pt1Ptr (i : nat)           (* &pt1Filter[i] *)
  | BiquadPtr (i : nat)        (* &biquadFilter[i] *)
  | DenoisePtr (i : nat)       (* &denoisingFilter[i] *)
  | Pt1YawPtr.                 (* &pt1FilterYaw *)

#[export] Instance filterPtr_eq_dec : EqDecision filterPtr.
Proof. solve_decision. Defined.

(** flight/pid.h: the scale constants and the index of the level
    entry in the gain tables.  The header is not among the sources;
    the constants are taken as they come. *)
Class PidHeader (F : Type) := {
  PTERM_SCALE : F;
  ITERM_SCALE : F;
  DTERM_SCALE : F;
  PIDLEVEL : nat
}.

(** common/filter.c: the filter structures and the functions on them.
    The library is not among the sources; its types and functions are
    taken as they come.  An initialiser receives the structure it
    overwrites, an apply function returns the updated structure and the
    output sample.  The [_zero] values are the structures as the C
    start-up code clears them. *)
Class FilterLib (F : Type) := {
  biquadFilter_t : Type;
  pt1Filter_t : Type;
  firFilterDenoise_t : Type;
  biquadFilter_zero : biquadFilter_t;
  pt1Filter_zero : pt1Filter_t;
  firFilterDenoise_zero : firFilterDenoise_t;
  filterGetNotchQ : Z -> Z -> F;
  biquadFilterInit : biquadFilter_t -> Z -> Z -> F -> biquadFilterType_e -> biquadFilter_t;
  biquadFilterInitLPF : biquadFilter_t -> Z -> Z -> biquadFilter_t;
  pt1FilterInit : pt1Filter_t -> Z -> F -> pt1Filter_t;
  firFilterDenoiseInit : firFilterDenoise_t -> Z -> Z -> firFilterDenoise_t;
  biquadFilterApplyFn : biquadFilter_t -> F -> biquadFilter_t * F;
  pt1FilterApplyFn : pt1Filter_t -> F -> pt1Filter_t * F;
  firFilterDenoiseUpdateFn : firFilterDenoise_t -> F -> firFilterDenoise_t * F
}.

(** [pidProfile_t], the fields pid.c reads.  The integer fields are
    unsigned ([uint8_t], and [uint16_t] for the acceleration limits and
    the filter frequencies); the gain tables are indexed by the entries
    of the PID item enumeration. *)
Record pidProfile_t (F : Type) := {
  P8 : nat -> Z;
  I8 : nat -> Z;
  D8 : nat -> Z;
  profile_dtermSetpointWeight : Z;
  setpointRelaxRatio : Z;
  itermWindupPointPercent : Z;
  rateAccelLimit : Z;
  yawRateAccelLimit : Z;
  dterm_notch_hz : Z;
  dterm_notch_cutoff : Z;
  dterm_lpf_hz : Z;
  dterm_filter_type : filterType_e;
  yaw_lpf_hz : Z;
  levelSensitivity : F;
  levelAngleLimit : Z
}.
Arguments P8 {F}. Arguments I8 {F}. Arguments D8 {F}.
Arguments profile_dtermSetpointWeight {F}. Arguments setpointRelaxRatio {F}.
Arguments itermWindupPointPercent {F}. Arguments rateAccelLimit {F}.
Arguments yawRateAccelLimit {F}. Arguments dterm_notch_hz {F}.
Arguments dterm_notch_cutoff {F}. Arguments dterm_lpf_hz {F}.
Arguments dterm_filter_type {F}. Arguments yaw_lpf_hz {F}.
Arguments levelSensitivity {F}. Arguments levelAngleLimit {F}.

(** What a tick reads from the other modules of the firmware: the
    mixer, the receiver, the gyroscope, the attitude estimate, the
    flight mode flags and, in a build with [GPS], the navigation angles
    ([GPS_angle] is [None] in a build without). *)
Record tickEnv (F : Type) := {
  getThrottlePIDAttenuation : F;
  getMotorMixRange : F;
  mixerIsOutputSaturated : nat -> F -> bool;
  triMixerInUse : bool;
  getSetpointRate : nat -> F;
  getRcDeflection : nat -> F;
  getRcDeflectionAbs : nat -> F;
  gyroADCf : nat -> F;
  attitude_raw : nat -> Z;
  ANGLE_MODE : bool;
  HORIZON_MODE : bool;
  GPS_angle : option (nat -> Z)
}.
Arguments getThrottlePIDAttenuation {F}. Arguments getMotorMixRange {F}.
Arguments mixerIsOutputSaturated {F}. Arguments triMixerInUse {F}.
Arguments getSetpointRate {F}. Arguments getRcDeflection {F}.
Arguments getRcDeflectionAbs {F}. Arguments gyroADCf {F}.
Arguments attitude_raw {F}. Arguments ANGLE_MODE {F}.
Arguments HORIZON_MODE {F}. Arguments GPS_angle {F}.

(** [rollAndPitchTrims_t], through its [raw] view. *)
Definition rollAndPitchTrims_t : Type := nat -> Z.

(** ** The state of pid.c *)

Section Controller.
Context {F : Type} {arith : Arith F} {header : PidHeader F} {filters : FilterLib F}.

(** The selection made by [pidInitFilters]: the apply function and
    the handles of each signal path.  The two handle arrays are
    declared with two elements. *)
Record filterBank := {
  dtermNotchFilterApplyFn : filterApplyFnPtr;
  dtermFilterNotch : list filterPtr;
  dtermLpfApplyFn : filterApplyFnPtr;
  dtermFilterLpf : list filterPtr;
  ptermYawFilterApplyFn : filterApplyFnPtr;
  ptermYawFilter : filterPtr
}.

(** The filter structures that are static in [pidInitFilters]; the
    arrays have two elements. *)
Record filterStore := {
  biquadFilterNotch : list biquadFilter_t;
  pt1Filter : list pt1Filter_t;
  biquadFilter : list biquadFilter_t;
  denoisingFilter : list firFilterDenoise_t;
  pt1FilterYaw : pt1Filter_t
}.

(** The statics written by [pidInitConfig]. *)
Record pidGains := {
  Kp : list F;
  Ki : list F;
  Kd : list F;
  maxVelocity : list F;
  relaxFactor : F;
  dtermSetpointWeight : F;
  levelGain : F;
  horizonGain : F;
  horizonTransition : F;
  ITermWindupPoint : F;
  ITermWindupPointInv : F
}.

(** All of it.  [previousSetpoint] is the static of
    [accelerationLimit] (three elements) and [previousRateError] the
    static of [pidController] (two elements). *)
Record pidState := {
  targetPidLooptime : Z;
  pidStabilisationEnabled : bool;
  disableTPAForYaw : bool;
  axisPID_P : list F;
  axisPID_I : list F;
  axisPID_D : list F;
  expectedGyroError : list F;
  dT : F;
  itermAccelerator : F;
  bank : filterBank;
  store : filterStore;
  gains : pidGains;
  previousSetpoint : list F;
  previousRateError : list F
}.

(** The state as the C start-up code leaves it: every static is zero
    (the three function pointers and the handles are null pointers)
    but [itermAccelerator], which is initialised to [1.0f]. *)
Definition power_on : pidState := {|
  targetPidLooptime := 0;
  pidStabilisationEnabled := false;
  disableTPAForYaw := false;
  axisPID_P := [f0; f0; f0];
  axisPID_I := [f0; f0; f0];
  axisPID_D := [f0; f0; f0];
  expectedGyroError := [f0; f0; f0];
  dT := f0;
  itermAccelerator := f1;
  bank := {| dtermNotchFilterApplyFn := NullFn;
             dtermFilterNotch := [NullPtr; NullPtr];
             dtermLpfApplyFn := NullFn;
             dtermFilterLpf := [NullPtr; NullPtr];
             ptermYawFilterApplyFn := NullFn;
             ptermYawFilter := NullPtr |};
  store := {| biquadFilterNotch := [biquadFilter_zero; biquadFilter_zero];
              pt1Filter := [pt1Filter_zero; pt1Filter_zero];
              biquadFilter := [biquadFilter_zero; biquadFilter_zero];
              denoisingFilter := [firFilterDenoise_zero; firFilterDenoise_zero];
              pt1FilterYaw := pt1Filter_zero |};
  gains := {| Kp := [f0; f0; f0]; Ki := [f0; f0; f0]; Kd := [f0; f0; f0];
              maxVelocity := [f0; f0; f0];
              relaxFactor := f0; dtermSetpointWeight := f0;
              levelGain := f0; horizonGain := f0; horizonTransition := f0;
              ITermWindupPoint := f0; ITermWindupPointInv := f0 |};
  previousSetpoint := [f0; f0; f0];
  previousRateError := [f0; f0]
|}.

(** *** Assignments *)

(** [l[i] = v]; undefined outside the bounds of [l]. *)
Definition aset {A : Type} (l : list A) (i : nat) (v : A) : option (list A) :=
  if decide (i < length l) then Some (<[i:=v]> l) else None.

Definition set_axisPID_P (v : list F) (st : pidState) : pidState :=
  {| targetPidLooptime := targetPidLooptime st;
     pidStabilisationEnabled := pidStabilisationEnabled st;
     disableTPAForYaw := disableTPAForYaw st;
     axisPID_P := v; axisPID_I := axisPID_I st; axisPID_D := axisPID_D st;
     expectedGyroError := expectedGyroError st; dT := dT st;
     itermAccelerator := itermAccelerator st; bank := bank st;
     store := store st; gains := gains st;
     previousSetpoint := previousSetpoint st;
     previousRateError := previousRateError st |}.

Definition set_axisPID_I (v : list F) (st : pidState) : pidState :=
  {| targetPidLooptime := targetPidLooptime st;
     pidStabilisationEnabled := pidStabilisationEnabled st;
     disableTPAForYaw := disableTPAForYaw st;
     axisPID_P := axisPID_P st; axisPID_I := v; axisPID_D := axisPID_D st;
     expectedGyroError := expectedGyroError st; dT := dT st;
     itermAccelerator := itermAccelerator st; bank := bank st;
     store := store st; gains := gains st;
     previousSetpoint := previousSetpoint st;
     previousRateError := previousRateError st |}.

Definition set_axisPID_D (v : list F) (st : pidState) : pidState :=
  {| targetPidLooptime := targetPidLooptime st;
     pidStabilisationEnabled := pidStabilisationEnabled st;
     disableTPAForYaw := disableTPAForYaw st;
     axisPID_P := axisPID_P st; axisPID_I := axisPID_I st; axisPID_D := v;
     expectedGyroError := expectedGyroError st; dT := dT st;
     itermAccelerator := itermAccelerator st; bank := bank st;
     store := store st; gains := gains st;
     previousSetpoint := previousSetpoint st;
     previousRateError := previousRateError st |}.

Definition set_store (v : filterStore) (st : pidState) : pidState :=
  {| targetPidLooptime := targetPidLooptime st;
     pidStabilisationEnabled := pidStabilisationEnabled st;
     disableTPAForYaw := disableTPAForYaw st;
     axisPID_P := axisPID_P st; axisPID_I := axisPID_I st;
     axisPID_D := axisPID_D st;
     expectedGyroError := expectedGyroError st; dT := dT st;
     itermAccelerator := itermAccelerator st; bank := bank st;
     store := v; gains := gains st;
     previousSetpoint := previousSetpoint st;
     previousRateError := previousRateError st |}.

Definition set_previousSetpoint (v : list F) (st : pidState) : pidState :=
  {| targetPidLooptime := targetPidLooptime st;
     pidStabilisationEnabled := pidStabilisationEnabled st;
     disableTPAForYaw := disableTPAForYaw st;
     axisPID_P := axisPID_P st; axisPID_I := axisPID_I st;
     axisPID_D := axisPID_D st;
     expectedGyroError := expectedGyroError st; dT := dT st;
     itermAccelerator := itermAccelerator st; bank := bank st;
     store := store st; gains := gains st;
     previousSetpoint := v;
     previousRateError := previousRateError st |}.

Definition set_previousRateError (v : list F) (st : pidState) : pidState :=
  {| targetPidLooptime := targetPidLooptime st;
     pidStabilisationEnabled := pidStabilisationEnabled st;
     disableTPAForYaw := disableTPAForYaw st;
     axisPID_P := axisPID_P st; axisPID_I := axisPID_I st;
     axisPID_D := axisPID_D st;
     expectedGyroError := expectedGyroError st; dT := dT st;
     itermAccelerator := itermAccelerator st; bank := bank st;
     store := store st; gains := gains st;
     previousSetpoint := previousSetpoint st;
     previousRateError := v |}.

(** *** The setters of the module *)

Definition pidSetTargetLooptime (pidLooptime : Z) (st : pidState) : pidState :=
  {| targetPidLooptime := pidLooptime;
     pidStabilisationEnabled := pidStabilisationEnabled st;
     disableTPAForYaw := disableTPAForYaw st;
     axisPID_P := axisPID_P st; axisPID_I := axisPID_I st;
     axisPID_D := axisPID_D st;
     expectedGyroError := expectedGyroError st;
     dT := fmul (of_int pidLooptime) f_micro;
     itermAccelerator := itermAccelerator st; bank := bank st;
     store := store st; gains := gains st;
     previousSetpoint := previousSetpoint st;
     previousRateError := previousRateError st |}.

Definition pidResetErrorGyroState (st : pidState) : pidState :=
  set_axisPID_I (<[2:=f0]> (<[1:=f0]> (<[0:=f0]> (axisPID_I st)))) st.

Definition pidSetItermAccelerator (newItermAccelerator : F) (st : pidState) : pidState :=
  {| targetPidLooptime := targetPidLooptime st;
     pidStabilisationEnabled := pidStabilisationEnabled st;
     disableTPAForYaw := disableTPAForYaw st;
     axisPID_P := axisPID_P st; axisPID_I := axisPID_I st;
     axisPID_D := axisPID_D st;
     expectedGyroError := expectedGyroError st; dT := dT st;
     itermAccelerator := newItermAccelerator; bank := bank st;
     store := store st; gains := gains st;
     previousSetpoint := previousSetpoint st;
     previousRateError := previousRateError st |}.

Definition pidResetErrorGyroAxis (axis : nat) (st : pidState) : option pidState :=
  l ← aset (axisPID_I st) axis f0; Some (set_axisPID_I l st).

(** [pidStabilisationState]; the argument is [true] for
    [PID_STABILISATION_ON]. *)
Definition pidStabilisationState (on : bool) (st : pidState) : pidState :=
  {| targetPidLooptime := targetPidLooptime st;
     pidStabilisationEnabled := on;
     disableTPAForYaw := disableTPAForYaw st;
     axisPID_P := axisPID_P st; axisPID_I := axisPID_I st;
     axisPID_D := axisPID_D st;
     expectedGyroError := expectedGyroError st; dT := dT st;
     itermAccelerator := itermAccelerator st; bank := bank st;
     store := store st; gains := gains st;
     previousSetpoint := previousSetpoint st;
     previousRateError := previousRateError st |}.

Definition getdT (st : pidState) : F := dT st.

Definition pidSetExpectedGyroError (axis : nat) (error : F) (st : pidState) : option pidState :=
  l ← aset (expectedGyroError st) axis error;
  Some {| targetPidLooptime := targetPidLooptime st;
          pidStabilisationEnabled := pidStabilisationEnabled st;
          disableTPAForYaw := disableTPAForYaw st;
          axisPID_P := axisPID_P st; axisPID_I := axisPID_I st;
          axisPID_D := axisPID_D st;
          expectedGyroError := l; dT := dT st;
          itermAccelerator := itermAccelerator st; bank := bank st;
          store := store st; gains := gains st;
          previousSetpoint := previousSetpoint st;
          previousRateError := previousRateError st |}.

(** A [for] loop over axes whose body can be undefined. *)
Fixpoint forAxes {S : Type} (body : nat -> S -> option S) (l : list nat) (s : S) : option S :=
  match l with
  | [] => Some s
  | axis :: l' => s' ← body axis s; forAxes body l' s'
  end.

(** *** [pidInitFilters] *)

(** A path is switched off when its frequency is zero or lies above
    the Nyquist frequency of the loop. *)
Definition filterDisabled (hz pidFrequencyNyquist : Z) : bool :=
  (hz =? 0)%Z || (pidFrequencyNyquist <? hz)%Z.

(** The body of the loops [for (axis = FD_ROLL; axis <= FD_PITCH; axis++)]:
    point the handle at the structure of the axis and initialise it. *)
Definition initAxisFilter {S : Type} (ptr : nat -> filterPtr) (init : S -> S)
    (axis : nat) (hs : list filterPtr * list S) : option (list filterPtr * list S) :=
  handles ← aset hs.1 axis (ptr axis);
  s ← hs.2 !! axis;
  structs ← aset hs.2 axis (init s);
  Some (handles, structs).

Definition initAxisFilters {S : Type} (ptr : nat -> filterPtr) (init : S -> S)
    (handles : list filterPtr) (structs : list S) : option (list filterPtr * list S) :=
  forAxes (initAxisFilter ptr init) [FD_ROLL; FD_PITCH] (handles, structs).

Definition pidFrequencyNyquist (st : pidState) : option Z :=
  to_uint32 (fdiv (fdiv f1 (dT st)) (of_int 2)).

Definition initNotch (pidProfile : pidProfile_t F) (nyquist : Z) (st : pidState)
    : option (filterApplyFnPtr * list filterPtr * list biquadFilter_t) :=
  let hz := dterm_notch_hz pidProfile in
  if filterDisabled hz nyquist then
    Some (nullFilterApply, dtermFilterNotch (bank st), biquadFilterNotch (store st))
  else
    let notchQ := filterGetNotchQ hz (dterm_notch_cutoff pidProfile) in
    r ← initAxisFilters BiquadNotchPtr
           (fun s => biquadFilterInit s hz (targetPidLooptime st) notchQ FILTER_NOTCH)
           (dtermFilterNotch (bank st)) (biquadFilterNotch (store st));
    Some (biquadFilterApply, r.1, r.2).

Definition initLpf (pidProfile : pidProfile_t F) (nyquist : Z) (st : pidState)
    (notchStore : list biquadFilter_t)
    : option (filterApplyFnPtr * list filterPtr * filterStore) :=
  let hz := dterm_lpf_hz pidProfile in
  let handles := dtermFilterLpf (bank st) in
  let unchanged :=
    {| biquadFilterNotch := notchStore; pt1Filter := pt1Filter (store st);
       biquadFilter := biquadFilter (store st);
       denoisingFilter := denoisingFilter (store st);
       pt1FilterYaw := pt1FilterYaw (store st) |} in
  if filterDisabled hz nyquist then Some (nullFilterApply, handles, unchanged)
  else
    match dterm_filter_type pidProfile with
    | FILTER_OTHER => Some (nullFilterApply, handles, unchanged)
    | FILTER_PT1 =>
        r ← initAxisFilters Pt1Ptr (fun s => pt1FilterInit s hz (dT st))
               handles (pt1Filter (store st));
        Some (pt1FilterApply, r.1,
              {| biquadFilterNotch := notchStore; pt1Filter := r.2;
                 biquadFilter := biquadFilter (store st);
                 denoisingFilter := denoisingFilter (store st);
                 pt1FilterYaw := pt1FilterYaw (store st) |})
    | FILTER_BIQUAD =>
        r ← initAxisFilters BiquadPtr
               (fun s => biquadFilterInitLPF s hz (targetPidLooptime st))
               handles (biquadFilter (store st));
        Some (biquadFilterApply, r.1,
              {| biquadFilterNotch := notchStore; pt1Filter := pt1Filter (store st);
                 biquadFilter := r.2;
                 denoisingFilter := denoisingFilter (store st);
                 pt1FilterYaw := pt1FilterYaw (store st) |})
    | FILTER_FIR =>
        r ← initAxisFilters DenoisePtr
               (fun s => firFilterDenoiseInit s hz (targetPidLooptime st))
               handles (denoisingFilter (store st));
        Some (firFilterDenoiseUpdate, r.1,
              {| biquadFilterNotch := notchStore; pt1Filter := pt1Filter (store st);
                 biquadFilter := biquadFilter (store st);
                 denoisingFilter := r.2;
                 pt1FilterYaw := pt1FilterYaw (store st) |})
    end.

Definition initYawLpf (pidProfile : pidProfile_t F) (nyquist : Z) (st : pidState)
    : filterApplyFnPtr * filterPtr * pt1Filter_t :=
  let hz := yaw_lpf_hz pidProfile in
  if filterDisabled hz nyquist then
    (nullFilterApply, ptermYawFilter (bank st), pt1FilterYaw (store st))
  else
    (pt1FilterApply, Pt1YawPtr, pt1FilterInit (pt1FilterYaw (store st)) hz (dT st)).

Definition pidInitFilters (pidProfile : pidProfile_t F) (st : pidState) : option pidState :=
  nyquist ← pidFrequencyNyquist st;
  '(notchFn, notchHandles, notchStore) ← initNotch pidProfile nyquist st;
  '(lpfFn, lpfHandles, lpfStore) ← initLpf pidProfile nyquist st notchStore;
  let '(yawFn, yawHandle, yawStruct) := initYawLpf pidProfile nyquist st in
  Some {| targetPidLooptime := targetPidLooptime st;
          pidStabilisationEnabled := pidStabilisationEnabled st;
          disableTPAForYaw := disableTPAForYaw st;
          axisPID_P := axisPID_P st; axisPID_I := axisPID_I st;
          axisPID_D := axisPID_D st;
          expectedGyroError := expectedGyroError st; dT := dT st;
          itermAccelerator := itermAccelerator st;
          bank := {| dtermNotchFilterApplyFn := notchFn;
                     dtermFilterNotch := notchHandles;
                     dtermLpfApplyFn := lpfFn;
                     dtermFilterLpf := lpfHandles;
                     ptermYawFilterApplyFn := yawFn;
                     ptermYawFilter := yawHandle |};
          store := {| biquadFilterNotch := biquadFilterNotch lpfStore;
                      pt1Filter := pt1Filter lpfStore;
                      biquadFilter := biquadFilter lpfStore;
                      denoisingFilter := denoisingFilter lpfStore;
                      pt1FilterYaw := yawStruct |};
          gains := gains st;
          previousSetpoint := previousSetpoint st;
          previousRateError := previousRateError st |}.

(** *** [pidInitConfig] *)

(** The gain arrays have three elements; the loop fills them all. *)
Definition scaledGains (scale : F) (table : nat -> Z) : list F :=
  (fun axis => fmul scale (of_int (table axis))) <$> axes.

Definition pidInitConfig (pidProfile : pidProfile_t F) (triMixer : bool)
    (st : pidState) : pidState :=
  let windupPoint := fdiv (of_int (itermWindupPointPercent pidProfile)) (of_int 100) in
  let rollPitchVelocity := fmul (of_int (rateAccelLimit pidProfile * 1000)) (dT st) in
  {| targetPidLooptime := targetPidLooptime st;
     pidStabilisationEnabled := pidStabilisationEnabled st;
     disableTPAForYaw := triMixer;
     axisPID_P := axisPID_P st; axisPID_I := axisPID_I st;
     axisPID_D := axisPID_D st;
     expectedGyroError := expectedGyroError st; dT := dT st;
     itermAccelerator := itermAccelerator st; bank := bank st;
     store := store st;
     gains :=
       {| Kp := scaledGains PTERM_SCALE (P8 pidProfile);
          Ki := scaledGains ITERM_SCALE (I8 pidProfile);
          Kd := scaledGains DTERM_SCALE (D8 pidProfile);
          maxVelocity :=
            [rollPitchVelocity; rollPitchVelocity;
             fmul (of_int (yawRateAccelLimit pidProfile * 1000)) (dT st)];
          relaxFactor :=
            fdiv f1 (fdiv (of_int (setpointRelaxRatio pidProfile)) (of_int 100));
          dtermSetpointWeight :=
            fdiv (of_int (profile_dtermSetpointWeight pidProfile)) (of_int 127);
          levelGain := fdiv (of_int (P8 pidProfile PIDLEVEL)) (of_int 10);
          horizonGain := fdiv (of_int (I8 pidProfile PIDLEVEL)) (of_int 10);
          horizonTransition := fdiv (of_int 100) (of_int (D8 pidProfile PIDLEVEL));
          ITermWindupPoint := windupPoint;
          ITermWindupPointInv := fdiv f1 (fsub f1 windupPoint) |};
     previousSetpoint := previousSetpoint st;
     previousRateError := previousRateError st |}.

(** *** The setpoint stage *)

Definition calcHorizonLevelStrength (env : tickEnv F) (st : pidState) : F :=
  if fgt (horizonTransition (gains st)) f0 then
    let mostDeflectedPos :=
      MAX (getRcDeflectionAbs env FD_ROLL) (getRcDeflectionAbs env FD_PITCH) in
    constrainf (fsub (of_int 1) (fmul mostDeflectedPos (horizonTransition (gains st))))
               (of_int 0) (of_int 1)
  else f0.

Definition pidLevel (axis : nat) (pidProfile : pidProfile_t F)
    (angleTrim : rollAndPitchTrims_t) (env : tickEnv F) (st : pidState)
    (currentPidSetpoint : F) : F :=
  let errorAngle := fmul (levelSensitivity pidProfile) (getRcDeflection env axis) in
  let errorAngle :=
    match GPS_angle env with
    | Some angle => fadd errorAngle (of_int (angle axis))
    | None => errorAngle
    end in
  let errorAngle :=
    constrainf errorAngle (of_int (- levelAngleLimit pidProfile))
               (of_int (levelAngleLimit pidProfile)) in
  let errorAngle :=
    fsub errorAngle
         (fdiv (of_int (attitude_raw env axis - angleTrim axis)) (of_int 10)) in
  if ANGLE_MODE env then fmul errorAngle (levelGain (gains st))
  else
    let horizonLevelStrength := calcHorizonLevelStrength env st in
    fadd currentPidSetpoint
         (fmul (fmul errorAngle (horizonGain (gains st))) horizonLevelStrength).

(** The setpoint [accelerationLimit] returns for the previous
    setpoint [prev] and the limit [maxV]. *)
Definition limitedSetpoint (prev maxV currentPidSetpoint : F) : F :=
  let currentVelocity := fsub currentPidSetpoint prev in
  if fgt (ABS currentVelocity) maxV then
    if fgt currentVelocity f0 then fadd prev maxV else fsub prev maxV
  else currentPidSetpoint.

Definition accelerationLimit (axis : nat) (currentPidSetpoint : F) (st : pidState)
    : option (F * pidState) :=
  prev ← previousSetpoint st !! axis;
  maxV ← maxVelocity (gains st) !! axis;
  let currentPidSetpoint := limitedSetpoint prev maxV currentPidSetpoint in
  previous ← aset (previousSetpoint st) axis currentPidSetpoint;
  Some (currentPidSetpoint, set_previousSetpoint previous st).

(** Lines 245-246 of [pidController]: the limiter runs when
    [maxVelocity[axis]] is not zero. *)
Definition limitStage (axis : nat) (currentPidSetpoint : F) (st : pidState)
    : option (F * pidState) :=
  maxV ← maxVelocity (gains st) !! axis;
  if fnonzero maxV then accelerationLimit axis currentPidSetpoint st
  else Some (currentPidSetpoint, st).

(** Lines 243-251: the shaped setpoint of the axis. *)
Definition setpointStage (pidProfile : pidProfile_t F) (angleTrim : rollAndPitchTrims_t)
    (env : tickEnv F) (axis : nat) (st : pidState) : option (F * pidState) :=
  '(currentPidSetpoint, st) ← limitStage axis (getSetpointRate env axis) st;
  if (ANGLE_MODE env || HORIZON_MODE env) && negb (axis =? YAW) then
    Some (pidLevel axis pidProfile angleTrim env st currentPidSetpoint, st)
  else Some (currentPidSetpoint, st).

(** *** Filters *)

(** Modelled from the spec: [nullFilterApply] of common/filter.c, which
    is not among the sources, is the passthrough filter of the
    specification: it returns its input unchanged. *)
Definition nullFilterApplyFn (input : F) : F := input.

(** A call through a [filterApplyFnPtr].  A call through the null
    pointer is undefined.  [nullFilterApply] does not look at the
    handle; the other functions update the structure the handle points
    to, which has to be of their type. *)
Definition filterApply (fn : filterApplyFnPtr) (handle : filterPtr) (input : F)
    (m : filterStore) : option (F * filterStore) :=
  match fn, handle with
  | nullFilterApply, _ => Some (nullFilterApplyFn input, m)
  | biquadFilterApply, BiquadNotchPtr i =>
      s ← biquadFilterNotch m !! i;
      let r := biquadFilterApplyFn s input in
      Some (r.2, {| biquadFilterNotch := <[i:=r.1]> (biquadFilterNotch m);
                    pt1Filter := pt1Filter m; biquadFilter := biquadFilter m;
                    denoisingFilter := denoisingFilter m;
                    pt1FilterYaw := pt1FilterYaw m |})
  | biquadFilterApply, BiquadPtr i =>
      s ← biquadFilter m !! i;
      let r := biquadFilterApplyFn s input in
      Some (r.2, {| biquadFilterNotch := biquadFilterNotch m;
                    pt1Filter := pt1Filter m;
                    biquadFilter := <[i:=r.1]> (biquadFilter m);
                    denoisingFilter := denoisingFilter m;
                    pt1FilterYaw := pt1FilterYaw m |})
  | pt1FilterApply, Pt1Ptr i =>
      s ← pt1Filter m !! i;
      let r := pt1FilterApplyFn s input in
      Some (r.2, {| biquadFilterNotch := biquadFilterNotch m;
                    pt1Filter := <[i:=r.1]> (pt1Filter m);
                    biquadFilter := biquadFilter m;
                    denoisingFilter := denoisingFilter m;
                    pt1FilterYaw := pt1FilterYaw m |})
  | pt1FilterApply, Pt1YawPtr =>
      let r := pt1FilterApplyFn (pt1FilterYaw m) input in
      Some (r.2, {| biquadFilterNotch := biquadFilterNotch m;
                    pt1Filter := pt1Filter m; biquadFilter := biquadFilter m;
                    denoisingFilter := denoisingFilter m;
                    pt1FilterYaw := r.1 |})
  | firFilterDenoiseUpdate, DenoisePtr i =>
      s ← denoisingFilter m !! i;
      let r := firFilterDenoiseUpdateFn s input in
      Some (r.2, {| biquadFilterNotch := biquadFilterNotch m;
                    pt1Filter := pt1Filter m; biquadFilter := biquadFilter m;
                    denoisingFilter := <[i:=r.1]> (denoisingFilter m);
                    pt1FilterYaw := pt1FilterYaw m |})
  | _, _ => None
  end.

(** *** The terms of one axis *)

(** Line 239: the dynamic Ki component. *)
Definition dynKiOf (motorMixRange windupPointInv : F) : F :=
  MIN (fmul (fsub f1 motorMixRange) windupPointInv) f1.

(** Lines 262-273: the P term. *)
Definition ptermStage (tpaFactor : F) (axis : nat) (errorRate : F) (st : pidState)
    : option pidState :=
  kp ← Kp (gains st) !! axis;
  let p := fmul kp errorRate in
  '(p, m) ←
    (if axis =? FD_YAW then
       let p := if negb (disableTPAForYaw st) then fmul p tpaFactor else p in
       filterApply (ptermYawFilterApplyFn (bank st)) (ptermYawFilter (bank st)) p (store st)
     else Some (fmul p tpaFactor, store st));
  l ← aset (axisPID_P st) axis p;
  Some (set_store m (set_axisPID_P l st)).

(** The candidate of the integrator and the rule that commits it. *)
Definition ITermCandidate (ki errorRate dt dynKi accelerator ITerm : F) : F :=
  fadd ITerm (fmul (fmul (fmul (fmul ki errorRate) dt) dynKi) accelerator).

Definition ITermCommitted (outputSaturated : bool) (ITerm ITermNew : F) : F :=
  if negb outputSaturated || flt (ABS ITermNew) (ABS ITerm) then ITermNew else ITerm.

(** Lines 275-282: the I term. *)
Definition itermStage (env : tickEnv F) (dynKi : F) (axis : nat) (errorRate : F)
    (st : pidState) : option pidState :=
  ITerm ← axisPID_I st !! axis;
  ki ← Ki (gains st) !! axis;
  let ITermNew :=
    ITermCandidate ki errorRate (dT st) dynKi (itermAccelerator st) ITerm in
  let outputSaturated := mixerIsOutputSaturated env axis errorRate in
  l ← aset (axisPID_I st) axis (ITermCommitted outputSaturated ITerm ITermNew);
  Some (set_axisPID_I l st).

(** Lines 286-290: the weighted error of the derivative. *)
Definition dtermError (pidProfile : pidProfile_t F) (env : tickEnv F) (axis : nat)
    (currentPidSetpoint gyroRate : F) (st : pidState) : F :=
  let dynC := dtermSetpointWeight (gains st) in
  let dynC :=
    if (setpointRelaxRatio pidProfile <? 100)%Z then
      fmul dynC (MIN (fmul (getRcDeflectionAbs env axis) (relaxFactor (gains st))) f1)
    else dynC in
  fsub (fmul dynC currentPidSetpoint) gyroRate.

(** Lines 286-300: the D term, for an axis that computes one. *)
Definition dtermStage (pidProfile : pidProfile_t F) (env : tickEnv F) (tpaFactor : F)
    (axis : nat) (currentPidSetpoint gyroRate : F) (st : pidState) : option pidState :=
  let rD := dtermError pidProfile env axis currentPidSetpoint gyroRate st in
  previous ← previousRateError st !! axis;
  let delta := fdiv (fsub rD previous) (dT st) in
  errors ← aset (previousRateError st) axis rD;
  kd ← Kd (gains st) !! axis;
  let d := fmul (fmul kd delta) tpaFactor in
  notch ← dtermFilterNotch (bank st) !! axis;
  '(d, m) ← filterApply (dtermNotchFilterApplyFn (bank st)) notch d (store st);
  lpf ← dtermFilterLpf (bank st) !! axis;
  '(d, m) ← filterApply (dtermLpfApplyFn (bank st)) lpf d m;
  l ← aset (axisPID_D st) axis d;
  Some (set_store m (set_axisPID_D l (set_previousRateError errors st))).

(** Lines 303-308: the stabilisation gate. *)
Definition stabilisationGate (axis : nat) (st : pidState) : option pidState :=
  if negb (pidStabilisationEnabled st) then
    p ← aset (axisPID_P st) axis (of_int 0);
    i ← aset (axisPID_I st) axis (of_int 0);
    d ← aset (axisPID_D st) axis (of_int 0);
    Some (set_axisPID_D d (set_axisPID_I i (set_axisPID_P p st)))
  else Some st.

(** *** [pidController] *)

(** The body of the loop over the axes. *)
Definition pidAxis (pidProfile : pidProfile_t F) (angleTrim : rollAndPitchTrims_t)
    (env : tickEnv F) (tpaFactor dynKi : F) (axis : nat) (st : pidState)
    : option pidState :=
  '(currentPidSetpoint, st) ← setpointStage pidProfile angleTrim env axis st;
  let gyroRate := gyroADCf env axis in
  expected ← expectedGyroError st !! axis;
  let errorRate := fadd (fsub currentPidSetpoint gyroRate) expected in
  st ← ptermStage tpaFactor axis errorRate st;
  st ← itermStage env dynKi axis errorRate st;
  st ← (if negb (axis =? FD_YAW) || triMixerInUse env then
          dtermStage pidProfile env tpaFactor axis currentPidSetpoint gyroRate st
        else Some st);
  stabilisationGate axis st.

Definition pidController (pidProfile : pidProfile_t F) (angleTrim : rollAndPitchTrims_t)
    (env : tickEnv F) (st : pidState) : option pidState :=
  let tpaFactor := getThrottlePIDAttenuation env in
  let motorMixRange := getMotorMixRange env in
  let dynKi := dynKiOf motorMixRange (ITermWindupPointInv (gains st)) in
  forAxes (pidAxis pidProfile angleTrim env tpaFactor dynKi) axes st.

(** *** Ticks *)

(** One tick as the scheduler runs it: the stabilisation flag is
    evaluated afresh, then the controller is called. *)
Definition tick (pidProfile : pidProfile_t F) (angleTrim : rollAndPitchTrims_t)
    (t : bool * tickEnv F) (st : pidState) : option pidState :=
  pidController pidProfile angleTrim t.2 (pidStabilisationState t.1 st).

Fixpoint run (pidProfile : pidProfile_t F) (angleTrim : rollAndPitchTrims_t)
    (ticks : list (bool * tickEnv F)) (st : pidState) : option pidState :=
  match ticks with
  | [] => Some st
  | t :: ticks' =>
      st' ← tick pidProfile angleTrim t st; run pidProfile angleTrim ticks' st'
  end.

(** The acceleration limiter of one axis over a sequence of raw
    setpoints: the shaped setpoints, in order. *)
Fixpoint limitRun (axis : nat) (raws : list F) (st : pidState) : option (list F) :=
  match raws with
  | [] => Some []
  | raw :: raws' =>
      '(shaped, st') ← limitStage axis raw st;
      rest ← limitRun axis raws' st';
      Some (shaped :: rest)
  end.

(** *** Layout of the state *)

(** The arrays have their declared numbers of elements, and each
    path of the filter bank is either switched off or applies the
    function that fits the structures its handles point to, which is
    how [pidInitFilters] leaves it. *)
Definition notchSelected (b : filterBank) : bool :=
  bool_decide (dtermNotchFilterApplyFn b = nullFilterApply)
  || bool_decide (dtermNotchFilterApplyFn b = biquadFilterApply
                  ∧ dtermFilterNotch b = [BiquadNotchPtr 0; BiquadNotchPtr 1]).

Definition lpfSelected (b : filterBank) : bool :=
  bool_decide (dtermLpfApplyFn b = nullFilterApply)
  || bool_decide (dtermLpfApplyFn b = pt1FilterApply
                  ∧ dtermFilterLpf b = [Pt1Ptr 0; Pt1Ptr 1])
  || bool_decide (dtermLpfApplyFn b = biquadFilterApply
                  ∧ dtermFilterLpf b = [BiquadPtr 0; BiquadPtr 1])
  || bool_decide (dtermLpfApplyFn b = firFilterDenoiseUpdate
                  ∧ dtermFilterLpf b = [DenoisePtr 0; DenoisePtr 1]).

Definition yawSelected (b : filterBank) : bool :=
  bool_decide (ptermYawFilterApplyFn b = nullFilterApply)
  || bool_decide (ptermYawFilterApplyFn b = pt1FilterApply
                  ∧ ptermYawFilter b = Pt1YawPtr).

Definition bankLayout (b : filterBank) : bool :=
  (length (dtermFilterNotch b) =? 2) && (length (dtermFilterLpf b) =? 2)
  && notchSelected b && lpfSelected b && yawSelected b.

Definition storeLayout (m : filterStore) : bool :=
  (length (biquadFilterNotch m) =? 2) && (length (pt1Filter m) =? 2)
  && (length (biquadFilter m) =? 2) && (length (denoisingFilter m) =? 2).

Definition gainsLayout (g : pidGains) : bool :=
  (length (Kp g) =? 3) && (length (Ki g) =? 3) && (length (Kd g) =? 3)
  && (length (maxVelocity g) =? 3).

Definition layout (st : pidState) : bool :=
  (length (axisPID_P st) =? 3) && (length (axisPID_I st) =? 3)
  && (length (axisPID_D st) =? 3) && (length (expectedGyroError st) =? 3)
  && (length (previousSetpoint st) =? 3) && (length (previousRateError st) =? 2)
  && gainsLayout (gains st) && bankLayout (bank st) && storeLayout (store st).

(** The arrays alone have their declared numbers of elements, which
    holds from start-up on, before [pidInitFilters] has assigned the
    function pointers. *)
Definition sizes (st : pidState) : bool :=
  (length (axisPID_P st) =? 3) && (length (axisPID_I st) =? 3)
  && (length (axisPID_D st) =? 3) && (length (expectedGyroError st) =? 3)
  && (length (previousSetpoint st) =? 3) && (length (previousRateError st) =? 2)
  && gainsLayout (gains st)
  && (length (dtermFilterNotch (bank st)) =? 2)
  && (length (dtermFilterLpf (bank st)) =? 2)
  && storeLayout (store st).

(** What a tick carries over besides the three output arrays and
    the stabilisation flag. *)
Definition carried (st : pidState) :=
  (targetPidLooptime st, disableTPAForYaw st, expectedGyroError st, dT st,
   itermAccelerator st, bank st, store st, gains st,
   previousSetpoint st, previousRateError st).

(** The three output arrays and the stabilisation flag. *)
Definition outputs (st : pidState) :=
  (axisPID_P st, axisPID_I st, axisPID_D st, pidStabilisationEnabled st).

(** The entries of axis [j] in the arrays a tick writes. *)
Definition entriesAt (j : nat) (st : pidState) :=
  (axisPID_P st !! j, axisPID_I st !! j, axisPID_D st !! j,
   previousSetpoint st !! j, previousRateError st !! j).

(** The setpoint the axis is controlled to on this tick. *)
Definition shapedSetpoint (pidProfile : pidProfile_t F) (angleTrim : rollAndPitchTrims_t)
    (env : tickEnv F) (axis : nat) (st : pidState) : option F :=
  fst <$> setpointStage pidProfile angleTrim env axis st.

End Controller.

Arguments pidState F {_}.
Arguments pidGains F : clear implicits.
Arguments filterBank : clear implicits.
Arguments filterStore F {_}.

(** ** Concrete surroundings

    Values for what pid.c takes from elsewhere, to run the controller
    on concrete inputs.  The general statements below quantify over
    every header and every filter library. *)

(** The scale constants and the item index of the upstream pid.h. *)
Definition upstreamHeader {F : Type} `{Arith F} : PidHeader F := {|
  PTERM_SCALE := fdiv (of_int 32029) (of_int 1000000);
  ITERM_SCALE := fdiv (of_int 244381) (of_int 1000000);
  DTERM_SCALE := fdiv (of_int 529) (of_int 1000000);
  PIDLEVEL := 7
|}.

(** A filter library whose structures are empty and whose filters
    return their input. *)
Definition identityFilters {F : Type} `{Arith F} : FilterLib F := {|
  biquadFilter_t := unit;
  pt1Filter_t := unit;
  firFilterDenoise_t := unit;
  biquadFilter_zero := tt;
  pt1Filter_zero := tt;
  firFilterDenoise_zero := tt;
  filterGetNotchQ := fun _ _ => f0;
  biquadFilterInit := fun s _ _ _ _ => s;
  biquadFilterInitLPF := fun s _ _ => s;
  pt1FilterInit := fun s _ _ => s;
  firFilterDenoiseInit := fun s _ _ => s;
  biquadFilterApplyFn := fun s x => (s, x);
  pt1FilterApplyFn := fun s x => (s, x);
  firFilterDenoiseUpdateFn := fun s x => (s, x)
|}.

(** What a stage of the tick leaves as it was: the configuration, and
    the number of elements of every array. *)
Definition storeFrame {F : Type} `{FilterLib F} (m m' : filterStore F) : Prop :=
  length (biquadFilterNotch m') = length (biquadFilterNotch m)
  /\ length (pt1Filter m') = length (pt1Filter m)
  /\ length (biquadFilter m') = length (biquadFilter m)
  /\ length (denoisingFilter m') = length (denoisingFilter m).

Definition frame {F : Type} `{FilterLib F} (st st' : pidState F) : Prop :=
  targetPidLooptime st' = targetPidLooptime st
  /\ pidStabilisationEnabled st' = pidStabilisationEnabled st
  /\ disableTPAForYaw st' = disableTPAForYaw st
  /\ expectedGyroError st' = expectedGyroError st
  /\ dT st' = dT st
  /\ itermAccelerator st' = itermAccelerator st
  /\ bank st' = bank st
  /\ gains st' = gains st
  /\ length (axisPID_P st') = length (axisPID_P st)
  /\ length (axisPID_I st') = length (axisPID_I st)
  /\ length (axisPID_D st') = length (axisPID_D st)
  /\ length (previousSetpoint st') = length (previousSetpoint st)
  /\ length (previousRateError st') = length (previousRateError st)
  /\ storeFrame (store st) (store st').

(** The values of an unsigned byte. *)
Definition bytes : list Z := Z.of_nat <$> seq 0 256.

(** What [pidInitConfig] makes of the windup point and of the
    setpoint weight of the profile. *)
Definition windupPointInvOf {F : Type} `{Arith F} (percent : Z) : F :=
  fdiv f1 (fsub f1 (fdiv (of_int percent) (of_int 100))).

Definition setpointWeightOf {F : Type} `{Arith F} (weight : Z) : F :=
  fdiv (of_int weight) (of_int 127).

Section Examples.
Context {F : Type} {arith : Arith F}.
#[local] Existing Instance upstreamHeader.
#[local] Existing Instance identityFilters.

(** A profile with the upstream default gains, parametrised by the
    settings the examples vary: the windup point, the derivative
    setpoint weight and the frequency of the three filter paths. *)
Definition exampleProfile
    (windupPercent setpointWeight filterHz : Z) : pidProfile_t F := {|
  P8 := fun i => if i =? 7 then 50%Z else 40%Z;
  I8 := fun i => if i =? 7 then 50%Z else 40%Z;
  D8 := fun i => if i =? 7 then 50%Z else 20%Z;
  profile_dtermSetpointWeight := setpointWeight;
  setpointRelaxRatio := 100;
  itermWindupPointPercent := windupPercent;
  rateAccelLimit := 0;
  yawRateAccelLimit := 10;
  dterm_notch_hz := filterHz;
  dterm_notch_cutoff := 160;
  dterm_lpf_hz := filterHz;
  dterm_filter_type := FILTER_BIQUAD;
  yaw_lpf_hz := filterHz;
  levelSensitivity := of_int 55;
  levelAngleLimit := 55
|}.

(** The profile of the example with another relax ratio, another D
    gain of the level entry and another acceleration limit of Roll and
    Pitch. *)
Definition variedProfile (relaxRatio levelD rollPitchLimit : Z) : pidProfile_t F := {|
  P8 := fun i => if i =? 7 then 50%Z else 40%Z;
  I8 := fun i => if i =? 7 then 50%Z else 40%Z;
  D8 := fun i => if i =? 7 then levelD else 20%Z;
  profile_dtermSetpointWeight := 60;
  setpointRelaxRatio := relaxRatio;
  itermWindupPointPercent := 50;
  rateAccelLimit := rollPitchLimit;
  yawRateAccelLimit := 10;
  dterm_notch_hz := 0;
  dterm_notch_cutoff := 160;
  dterm_lpf_hz := 0;
  dterm_filter_type := FILTER_BIQUAD;
  yaw_lpf_hz := 0;
  levelSensitivity := of_int 55;
  levelAngleLimit := 55
|}.

(** A tick in rate mode with the same setpoint and the same gyro rate
    on every axis, centred sticks, no throttle attenuation and an
    unsaturated mixer. *)
Definition exampleEnv (triMixer : bool) (setpoint gyroRate : Z)
    : tickEnv F := {|
  getThrottlePIDAttenuation := of_int 1;
  getMotorMixRange := of_int 0;
  mixerIsOutputSaturated := fun _ _ => false;
  triMixerInUse := triMixer;
  getSetpointRate := fun _ => of_int setpoint;
  getRcDeflection := fun _ => of_int 0;
  getRcDeflectionAbs := fun _ => of_int 0;
  gyroADCf := fun _ => of_int gyroRate;
  attitude_raw := fun _ => 0%Z;
  ANGLE_MODE := false;
  HORIZON_MODE := false;
  GPS_angle := None
|}.

(** A tick in a level mode: the sticks deflected by a half on every
    axis, the craft banked by 10 degrees on Roll and on Pitch. *)
Definition levelTick (angle horizon : bool) : tickEnv F := {|
  getThrottlePIDAttenuation := of_int 1;
  getMotorMixRange := of_int 0;
  mixerIsOutputSaturated := fun _ _ => false;
  triMixerInUse := false;
  getSetpointRate := fun _ => of_int 100;
  getRcDeflection := fun _ => fdiv (of_int 1) (of_int 2);
  getRcDeflectionAbs := fun _ => fdiv (of_int 1) (of_int 2);
  gyroADCf := fun _ => of_int 0;
  attitude_raw := fun _ => 100%Z;
  ANGLE_MODE := angle;
  HORIZON_MODE := horizon;
  GPS_angle := None
|}.

Definition levelTrims : rollAndPitchTrims_t := fun _ => 0%Z.

(** The state after start-up and configuration with a loop time in
    microseconds. *)
Definition configured (looptime : Z) (pidProfile : pidProfile_t F)
    (triMixer : bool) : option (pidState F) :=
  pidInitFilters pidProfile
    (pidInitConfig pidProfile triMixer (pidSetTargetLooptime looptime power_on)).

(** The same with a configuration that is known to be defined. *)
Definition configuredOr (looptime : Z) (pidProfile : pidProfile_t F)
    (triMixer : bool) : pidState F :=
  default power_on (configured looptime pidProfile triMixer).

(** The example the concrete statements run: a 1 kHz loop, the windup
    point at 50 percent, the setpoint weight 60, no filters, the yaw
    limit 10 and no roll/pitch limit; every tick asks for 100 degrees
    per second on each axis while the gyroscope reads 0. *)
Definition exampleState : pidState F := configuredOr 1000 (exampleProfile 50 60 0) false.
Definition exampleTick : tickEnv F := exampleEnv false 100 0.
Definition exampleTriTick : tickEnv F := exampleEnv true 100 0.

End Examples.

(** ** Ranges of the profile and derived values of single fields *)

(** The [n] integers from [z] on. *)
Fixpoint zrange (n : nat) (z : Z) : list Z :=
  match n with
  | 0 => []
  | S n' => z :: zrange n' (z + 1)
  end.

(** The values of a [uint16_t]. *)
Definition words : list Z := zrange (256 * 256) 0.

(** What [pidInitConfig] makes of the relax ratio, of the D gain of
    the level entry and of an acceleration limit, and what
    [pidInitFilters] takes for the Nyquist frequency after
    [pidSetTargetLooptime]. *)
Definition relaxFactorOf {F : Type} `{Arith F} (ratio : Z) : F :=
  fdiv f1 (fdiv (of_int ratio) (of_int 100)).

Definition horizonTransitionOf {F : Type} `{Arith F} (levelD : Z) : F :=
  fdiv (of_int 100) (of_int levelD).

Definition maxVelocityOf {F : Type} `{Arith F} (limit : Z) (dT : F) : F :=
  fmul (of_int (limit * 1000)) dT.

Definition nyquistOf {F : Type} `{Arith F} (looptime : Z) : option Z :=
  to_uint32 (fdiv (fdiv f1 (fmul (of_int looptime) f_micro)) (of_int 2)).

(** The loop times at which the Nyquist frequency of single precision
    falls short of the exact one, and the frequency expected for a
    loop time. *)
Definition shortLooptimes : list Z := [125; 250; 500; 1000; 2000; 4000]%Z.

Definition nyquistExpected (looptime : Z) : Z :=
  if bool_decide (looptime ∈ shortLooptimes) then (500000 / looptime - 1)%Z
  else (500000 / looptime)%Z.

#[export] Instance spec_float_eq_dec : EqDecision spec_float.
Proof. solve_decision. Defined.


(** The inputs of a tick that the iteration of axis [j] reads: those
    common to the axes (the throttle attenuation, the motor mix range,
    the mixer topology, the flight modes, and the stick deflections of
    Roll and of Pitch, which the level strength reads) and those of
    the axis itself. *)
Definition agreeOn {F : Type} (j : nat) (e1 e2 : tickEnv F) : Prop :=
  getThrottlePIDAttenuation e1 = getThrottlePIDAttenuation e2
  /\ getMotorMixRange e1 = getMotorMixRange e2
  /\ triMixerInUse e1 = triMixerInUse e2
  /\ ANGLE_MODE e1 = ANGLE_MODE e2
  /\ HORIZON_MODE e1 = HORIZON_MODE e2
  /\ getRcDeflectionAbs e1 FD_ROLL = getRcDeflectionAbs e2 FD_ROLL
  /\ getRcDeflectionAbs e1 FD_PITCH = getRcDeflectionAbs e2 FD_PITCH
  /\ getSetpointRate e1 j = getSetpointRate e2 j
  /\ getRcDeflection e1 j = getRcDeflection e2 j
  /\ getRcDeflectionAbs e1 j = getRcDeflectionAbs e2 j
  /\ gyroADCf e1 j = gyroADCf e2 j
  /\ attitude_raw e1 j = attitude_raw e2 j
  /\ ((fun angle : nat -> Z => angle j) <$> GPS_angle e1)
     = ((fun angle : nat -> Z => angle j) <$> GPS_angle e2)
  /\ (forall errorRate : F,
        mixerIsOutputSaturated e1 j errorRate = mixerIsOutputSaturated e2 j errorRate).

(** The filter structures of axis [j]. *)
Definition structsAt {F : Type} `{FilterLib F} (j : nat) (m : filterStore F) :=
  (biquadFilterNotch m !! j, pt1Filter m !! j, biquadFilter m !! j,
   denoisingFilter m !! j).


(** The tick of the example with other inputs on the yaw axis: its
    setpoint, its stick deflection, its gyro rate and a mixer that
    reports saturation on yaw. *)
Definition yawDisturbedTick {F : Type} `{Arith F} : tickEnv F := {|
  getThrottlePIDAttenuation := of_int 1;
  getMotorMixRange := of_int 0;
  mixerIsOutputSaturated := fun axis _ => axis =? FD_YAW;
  triMixerInUse := false;
  getSetpointRate := fun axis => if axis =? FD_YAW then of_int (-300) else of_int 100;
  getRcDeflection := fun axis => if axis =? FD_YAW then of_int (-1) else of_int 0;
  getRcDeflectionAbs := fun axis => if axis =? FD_YAW then of_int 1 else of_int 0;
  gyroADCf := fun axis => if axis =? FD_YAW then of_int 50 else of_int 0;
  attitude_raw := fun _ => 0%Z;
  ANGLE_MODE := false;
  HORIZON_MODE := false;
  GPS_angle := None
|}.

(** A single that is a number of sign [s]: a zero, a finite number
    or an infinity with that sign. *)
Definition signedNumber (s : bool) (x : Binary32.binary32) : Prop :=
  x = S754_zero s \/ (exists m e, x = S754_finite s m e) \/ x = S754_infinity s.

(** ** Arithmetic facts *)

Lemma exact_lt_true (a b : Q) : Exact.lt a b = true <-> (a < b)%Q.
Proof.
  unfold Exact.lt. rewrite negb_true_iff, <- not_true_iff_false, Qle_bool_iff.
  split; [apply Qnot_le_lt | apply Qlt_not_le].
Qed.

Lemma exact_lt_false (a b : Q) : Exact.lt a b = false <-> (b <= a)%Q.
Proof.
  unfold Exact.lt. rewrite negb_false_iff. apply Qle_bool_iff.
Qed.

(** ** The tick, for every arithmetic, header and filter library *)

Section Facts.
Context {F : Type} {arith : Arith F} {header : PidHeader F} {filters : FilterLib F}.


Lemma aset_Some {A : Type} (l l' : list A) i v :
  aset l i v = Some l' <-> i < length l /\ l' = <[i:=v]> l.
Proof.
  unfold aset. case_decide; split; intros Hs; try (destruct Hs; lia); try done.
  - split; congruence.
  - destruct Hs as [_ ->]. done.
Qed.

Lemma aset_lt {A : Type} (l : list A) i v :
  i < length l -> aset l i v = Some (<[i:=v]> l).
Proof. intros. unfold aset. by rewrite decide_True. Qed.

Lemma aset_length {A : Type} (l l' : list A) i v :
  aset l i v = Some l' -> length l' = length l.
Proof. intros [_ ->]%aset_Some. apply length_insert. Qed.

Lemma dtermStage_yaw_undefined pidProfile env tpaFactor sp gyroRate (st : pidState F) :
  length (previousRateError st) = 2 ->
  dtermStage pidProfile env tpaFactor FD_YAW sp gyroRate st = None.
Proof.
  intros Hlen. unfold dtermStage.
  rewrite (lookup_ge_None_2 (previousRateError st) FD_YAW); [done|].
  rewrite Hlen. unfold FD_YAW. lia.
Qed.

Lemma frame_refl (st : pidState F) : frame st st.
Proof. unfold frame, storeFrame. tauto. Qed.

Lemma frame_trans (a b c : pidState F) : frame a b -> frame b c -> frame a c.
Proof.
  unfold frame, storeFrame. intros Hab Hbc.
  destruct_and!. repeat split; congruence.
Qed.

Lemma filterApply_frame fn p x (m m' : filterStore F) y :
  filterApply fn p x m = Some (y, m') -> storeFrame m m'.
Proof.
  unfold filterApply, storeFrame. intros Hf.
  destruct fn, p; simplify_option_eq; simpl; rewrite ?length_insert; tauto.
Qed.

Ltac unbind H :=
  repeat match type of H with
  | (_ ≫= _) = Some _ =>
      let x := fresh "x" in let E := fresh "E" in
      apply bind_Some in H as (x & E & H)
  | (match ?p with (_, _) => _ end) = Some _ => destruct p; simpl in H
  end.

Ltac aset_lengths :=
  repeat match goal with
  | E : aset _ _ _ = Some _ |- _ => apply aset_length in E
  end.

Lemma limitStage_frame axis raw (st st' : pidState F) sp :
  limitStage axis raw st = Some (sp, st') -> frame st st'.
Proof.
  unfold limitStage, accelerationLimit. intros Hs. unbind Hs.
  case_match; [unbind Hs|]; simplify_eq; [|apply frame_refl].
  aset_lengths. unfold frame, storeFrame; simpl. tauto.
Qed.

Lemma setpointStage_frame pidProfile angleTrim env axis (st st' : pidState F) sp :
  setpointStage pidProfile angleTrim env axis st = Some (sp, st') -> frame st st'.
Proof.
  unfold setpointStage. intros Hs. unbind Hs.
  match goal with E : limitStage _ _ _ = Some _ |- _ => apply limitStage_frame in E end.
  case_match; simplify_eq; done.
Qed.

Lemma ptermStage_frame tpa axis e (st st' : pidState F) :
  ptermStage tpa axis e st = Some st' -> frame st st'.
Proof.
  unfold ptermStage. intros Hs. unbind Hs. simplify_eq.
  match goal with E : (if _ then _ else _) = Some (_, ?m) |- _ =>
    assert (storeFrame (store st) m) as Hf
      by (case_match; [by eapply filterApply_frame|];
          simplify_eq; unfold storeFrame; tauto) end.
  aset_lengths. unfold frame; simpl. tauto.
Qed.

Lemma itermStage_frame env dynKi axis e (st st' : pidState F) :
  itermStage env dynKi axis e st = Some st' -> frame st st'.
Proof.
  unfold itermStage. intros Hs. unbind Hs. simplify_eq.
  aset_lengths. unfold frame, storeFrame; simpl. tauto.
Qed.

Lemma dtermStage_frame pidProfile env tpa axis sp g (st st' : pidState F) :
  dtermStage pidProfile env tpa axis sp g st = Some st' -> frame st st'.
Proof.
  unfold dtermStage. intros Hs. unbind Hs. simplify_eq.
  repeat match goal with
  | E : filterApply _ _ _ _ = Some _ |- _ => apply filterApply_frame in E
  end.
  aset_lengths.
  unfold frame, storeFrame in *; simpl. destruct_and!. repeat split; congruence.
Qed.

Lemma stabilisationGate_frame axis (st st' : pidState F) :
  stabilisationGate axis st = Some st' -> frame st st'.
Proof.
  unfold stabilisationGate. intros Hs.
  case_match; [unbind Hs|]; simplify_eq; [|apply frame_refl].
  aset_lengths. unfold frame, storeFrame; simpl. tauto.
Qed.

Lemma pidAxis_frame pidProfile angleTrim env tpa dynKi axis (st st' : pidState F) :
  pidAxis pidProfile angleTrim env tpa dynKi axis st = Some st' -> frame st st'.
Proof.
  unfold pidAxis. intros Hs. unbind Hs.
  repeat match goal with
  | E : setpointStage _ _ _ _ _ = Some _ |- _ => apply setpointStage_frame in E
  | E : ptermStage _ _ _ _ = Some _ |- _ => apply ptermStage_frame in E
  | E : itermStage _ _ _ _ _ = Some _ |- _ => apply itermStage_frame in E
  | E : stabilisationGate _ _ = Some _ |- _ => apply stabilisationGate_frame in E
  end.
  match goal with E : (if _ then _ else _) = Some _ |- _ =>
    destruct (_ || _) in E; [apply dtermStage_frame in E|simplify_eq] end;
  repeat (eapply frame_trans; [eassumption|]); try apply frame_refl; eauto using frame_trans.
Qed.


Lemma layout_spec (st : pidState F) :
  layout st = true <->
  (length (axisPID_P st) = 3 /\ length (axisPID_I st) = 3
   /\ length (axisPID_D st) = 3 /\ length (expectedGyroError st) = 3
   /\ length (previousSetpoint st) = 3 /\ length (previousRateError st) = 2)
  /\ gainsLayout (gains st) = true
  /\ bankLayout (bank st) = true
  /\ storeLayout (store st) = true.
Proof.
  unfold layout. rewrite !andb_true_iff, !Nat.eqb_eq. tauto.
Qed.

Lemma gainsLayout_spec (g : pidGains F) :
  gainsLayout g = true <->
  length (Kp g) = 3 /\ length (Ki g) = 3 /\ length (Kd g) = 3
  /\ length (maxVelocity g) = 3.
Proof.
  unfold gainsLayout. rewrite !andb_true_iff, !Nat.eqb_eq. tauto.
Qed.

Lemma storeLayout_spec (m : filterStore F) :
  storeLayout m = true <->
  length (biquadFilterNotch m) = 2 /\ length (pt1Filter m) = 2
  /\ length (biquadFilter m) = 2 /\ length (denoisingFilter m) = 2.
Proof.
  unfold storeLayout. rewrite !andb_true_iff, !Nat.eqb_eq. tauto.
Qed.

Lemma storeFrame_layout (m m' : filterStore F) :
  storeFrame m m' -> storeLayout m = true -> storeLayout m' = true.
Proof.
  rewrite !storeLayout_spec. unfold storeFrame. intros; destruct_and!.
  repeat split; congruence.
Qed.

Lemma frame_layout (st st' : pidState F) :
  frame st st' -> layout st = true -> layout st' = true.
Proof.
  rewrite !layout_spec. unfold frame. intros Hf Hl. destruct_and!.
  repeat split; try congruence.
  eapply storeFrame_layout; eauto.
Qed.

Lemma two_elements {A : Type} (l : list A) :
  length l = 2 -> exists a b, l = [a; b].
Proof. destruct l as [|a [|b [|]]]; simpl; intros; try lia. eauto. Qed.

Lemma three_elements {A : Type} (l : list A) :
  length l = 3 -> exists a b c, l = [a; b; c].
Proof. destruct l as [|a [|b [|c [|]]]]; simpl; intros; try lia. eauto. Qed.

Lemma filterApply_notch_defined (b : filterBank) (m : filterStore F) axis x :
  bankLayout b = true -> storeLayout m = true -> axis < 2 ->
  exists h r, dtermFilterNotch b !! axis = Some h
    /\ filterApply (dtermNotchFilterApplyFn b) h x m = Some r.
Proof.
  unfold bankLayout, notchSelected.
  rewrite !andb_true_iff, !orb_true_iff, !bool_decide_eq_true, !Nat.eqb_eq.
  rewrite storeLayout_spec.
  intros ((((Hn & _) & Hsel) & _) & _) (Hm & _) Hax.
  destruct (two_elements _ Hn) as (h0 & h1 & Hh).
  destruct (two_elements _ Hm) as (s0 & s1 & Hs).
  destruct Hsel as [Hfn | [Hfn Hhs]]; rewrite Hfn.
  - destruct (lookup_lt_is_Some_2 (dtermFilterNotch b) axis) as [h Hh']; [lia|].
    exists h. eexists. split; [done|]. reflexivity.
  - rewrite Hhs. destruct axis as [|[|]]; [| |lia]; eexists; eexists;
      (split; [reflexivity|]); simpl; rewrite Hs; reflexivity.
Qed.

Lemma filterApply_lpf_defined (b : filterBank) (m : filterStore F) axis x :
  bankLayout b = true -> storeLayout m = true -> axis < 2 ->
  exists h r, dtermFilterLpf b !! axis = Some h
    /\ filterApply (dtermLpfApplyFn b) h x m = Some r.
Proof.
  unfold bankLayout, lpfSelected.
  rewrite !andb_true_iff, !orb_true_iff, !bool_decide_eq_true, !Nat.eqb_eq.
  rewrite storeLayout_spec.
  intros ((((_ & Hn) & _) & Hsel) & _) (_ & Hp & Hb & Hd) Hax.
  destruct (two_elements _ Hp) as (p0 & p1 & Hps).
  destruct (two_elements _ Hb) as (b0 & b1 & Hbs).
  destruct (two_elements _ Hd) as (d0 & d1 & Hds).
  destruct Hsel as [[[Hfn | [Hfn Hhs]] | [Hfn Hhs]] | [Hfn Hhs]]; rewrite Hfn.
  - destruct (lookup_lt_is_Some_2 (dtermFilterLpf b) axis) as [h Hh']; [lia|].
    exists h. eexists. split; [done|]. reflexivity.
  - rewrite Hhs. destruct axis as [|[|]]; [| |lia]; eexists; eexists;
      (split; [reflexivity|]); simpl; rewrite Hps; reflexivity.
  - rewrite Hhs. destruct axis as [|[|]]; [| |lia]; eexists; eexists;
      (split; [reflexivity|]); simpl; rewrite Hbs; reflexivity.
  - rewrite Hhs. destruct axis as [|[|]]; [| |lia]; eexists; eexists;
      (split; [reflexivity|]); simpl; rewrite Hds; reflexivity.
Qed.

Lemma filterApply_yaw_defined (b : filterBank) (m : filterStore F) x :
  bankLayout b = true ->
  exists r, filterApply (ptermYawFilterApplyFn b) (ptermYawFilter b) x m = Some r.
Proof.
  unfold bankLayout, yawSelected.
  rewrite !andb_true_iff, !orb_true_iff, !bool_decide_eq_true.
  intros (_ & [Hfn | [Hfn Hh]]); rewrite Hfn; [|rewrite Hh]; eexists; reflexivity.
Qed.


Ltac layout_facts Hl :=
  apply layout_spec in Hl;
  destruct Hl as ((?HlP & ?HlI & ?HlD & ?HlE & ?HlS & ?HlR) & ?HlG & ?HlB & ?HlM);
  match goal with Hg : gainsLayout _ = true |- _ =>
    pose proof (proj1 (gainsLayout_spec _) Hg) as (?HlKp & ?HlKi & ?HlKd & ?HlV) end.

Ltac have_lookup l i :=
  let x := fresh "x" in let E := fresh "E" in
  destruct (lookup_lt_is_Some_2 l i) as [x E]; [lia|]; rewrite E; simpl.

Lemma limitStage_defined axis raw (st : pidState F) :
  layout st = true -> axis < 3 -> exists r, limitStage axis raw st = Some r.
Proof.
  intros Hl Hax. layout_facts Hl. unfold limitStage, accelerationLimit.
  have_lookup (maxVelocity (gains st)) axis.
  case_match; [|eauto].
  have_lookup (previousSetpoint st) axis.
  rewrite aset_lt by lia. simpl. eauto.
Qed.

Lemma setpointStage_defined pidProfile angleTrim env axis (st : pidState F) :
  layout st = true -> axis < 3 ->
  exists r, setpointStage pidProfile angleTrim env axis st = Some r.
Proof.
  intros Hl Hax. unfold setpointStage.
  destruct (limitStage_defined axis (getSetpointRate env axis) st Hl Hax)
    as [[sp st1] ->]. simpl.
  case_match; eauto.
Qed.

Lemma ptermStage_defined tpa axis e (st : pidState F) :
  layout st = true -> axis < 3 -> exists st', ptermStage tpa axis e st = Some st'.
Proof.
  intros Hl Hax. layout_facts Hl. unfold ptermStage.
  have_lookup (Kp (gains st)) axis.
  case_match.
  - match goal with |- context [filterApply ?fn ?h ?v ?m] =>
      destruct (filterApply_yaw_defined (bank st) m v) as [[p m'] ->]; [done|] end.
    simpl. rewrite aset_lt by lia. simpl. eauto.
  - simpl. rewrite aset_lt by lia. simpl. eauto.
Qed.

Lemma itermStage_defined env dynKi axis e (st : pidState F) :
  layout st = true -> axis < 3 -> exists st', itermStage env dynKi axis e st = Some st'.
Proof.
  intros Hl Hax. layout_facts Hl. unfold itermStage.
  have_lookup (axisPID_I st) axis.
  have_lookup (Ki (gains st)) axis.
  rewrite aset_lt by lia. simpl. eauto.
Qed.

Lemma dtermStage_defined pidProfile env tpa axis sp g (st : pidState F) :
  layout st = true -> axis < 2 ->
  exists st', dtermStage pidProfile env tpa axis sp g st = Some st'.
Proof.
  intros Hl Hax. layout_facts Hl. unfold dtermStage.
  have_lookup (previousRateError st) axis.
  rewrite aset_lt by lia. simpl.
  have_lookup (Kd (gains st)) axis.
  match goal with |- context [filterApply (dtermNotchFilterApplyFn _) _ ?v ?m] =>
    destruct (filterApply_notch_defined (bank st) m axis v) as (h & [d1 m1] & -> & Hn);
      [done..|] end.
  simpl. rewrite Hn. simpl.
  apply filterApply_frame in Hn.
  match goal with |- context [filterApply (dtermLpfApplyFn _) _ ?v ?m] =>
    destruct (filterApply_lpf_defined (bank st) m axis v) as (h' & [d2 m2] & Hh & Hf);
      [done| |done|] end.
  { eapply storeFrame_layout; eauto. }
  rewrite Hh. simpl. rewrite Hf. simpl. rewrite aset_lt by lia. simpl. eauto.
Qed.

Lemma stabilisationGate_defined axis (st : pidState F) :
  layout st = true -> axis < 3 -> exists st', stabilisationGate axis st = Some st'.
Proof.
  intros Hl Hax. layout_facts Hl. unfold stabilisationGate.
  case_match; [|eauto].
  rewrite !aset_lt by lia. simpl. eauto.
Qed.

Lemma pidAxis_defined pidProfile angleTrim env tpa dynKi axis (st : pidState F) :
  layout st = true -> axis < 3 -> (axis = FD_YAW -> triMixerInUse env = false) ->
  exists st', pidAxis pidProfile angleTrim env tpa dynKi axis st = Some st'.
Proof.
  intros Hl Hax Htri. unfold pidAxis.
  destruct (setpointStage_defined pidProfile angleTrim env axis st Hl Hax)
    as [[sp st1] Hs]. rewrite Hs. simpl.
  apply setpointStage_frame in Hs. pose proof (frame_layout _ _ Hs Hl) as Hl1.
  pose proof Hl1 as Hl1'. layout_facts Hl1'.
  have_lookup (expectedGyroError st1) axis.
  match goal with |- context [ptermStage ?t ?a ?e ?s] =>
    destruct (ptermStage_defined t a e s Hl1 Hax) as [st2 Hp] end.
  rewrite Hp. simpl.
  apply ptermStage_frame in Hp. pose proof (frame_layout _ _ Hp Hl1) as Hl2.
  match goal with |- context [itermStage ?v ?k ?a ?e ?s] =>
    destruct (itermStage_defined v k a e s Hl2 Hax) as [st3 Hi] end.
  rewrite Hi. simpl.
  apply itermStage_frame in Hi. pose proof (frame_layout _ _ Hi Hl2) as Hl3.
  destruct (decide (axis = FD_YAW)) as [->|Hny].
  - rewrite Htri by done. simpl. apply stabilisationGate_defined; done.
  - assert (axis < 2) as Hax2 by (unfold FD_YAW in Hny; lia).
    replace (axis =? FD_YAW) with false
      by (symmetry; apply Nat.eqb_neq; done).
    simpl.
    match goal with |- context [dtermStage ?p ?v ?t ?a ?c ?g ?s] =>
      destruct (dtermStage_defined p v t a c g s Hl3 Hax2) as [st4 Hd] end.
    rewrite Hd. simpl.
    apply dtermStage_frame in Hd. pose proof (frame_layout _ _ Hd Hl3) as Hl4.
    apply stabilisationGate_defined; done.
Qed.

Lemma pidController_defined pidProfile angleTrim env (st : pidState F) :
  layout st = true -> triMixerInUse env = false ->
  exists st', pidController pidProfile angleTrim env st = Some st'
    /\ frame st st' /\ layout st' = true.
Proof.
  intros Hl Htri. unfold pidController, axes. simpl.
  set (body := pidAxis pidProfile angleTrim env _ _).
  destruct (pidAxis_defined pidProfile angleTrim env (getThrottlePIDAttenuation env)
    (dynKiOf (getMotorMixRange env) (ITermWindupPointInv (gains st))) FD_ROLL st)
    as [s1 H1]; [done|unfold FD_ROLL; lia|done|].
  fold body in H1. rewrite H1. simpl.
  pose proof (pidAxis_frame _ _ _ _ _ _ _ _ H1) as F1.
  pose proof (frame_layout _ _ F1 Hl) as L1.
  destruct (pidAxis_defined pidProfile angleTrim env (getThrottlePIDAttenuation env)
    (dynKiOf (getMotorMixRange env) (ITermWindupPointInv (gains st))) FD_PITCH s1)
    as [s2 H2]; [done|unfold FD_PITCH; lia|done|].
  fold body in H2. rewrite H2. simpl.
  pose proof (pidAxis_frame _ _ _ _ _ _ _ _ H2) as F2.
  pose proof (frame_layout _ _ F2 L1) as L2.
  destruct (pidAxis_defined pidProfile angleTrim env (getThrottlePIDAttenuation env)
    (dynKiOf (getMotorMixRange env) (ITermWindupPointInv (gains st))) FD_YAW s2)
    as [s3 H3]; [done|unfold FD_YAW; lia|done|].
  fold body in H3. rewrite H3. simpl.
  pose proof (pidAxis_frame _ _ _ _ _ _ _ _ H3) as F3.
  pose proof (frame_layout _ _ F3 L2) as L3.
  exists s3. split; [done|]. split; [|done].
  eauto using frame_trans.
Qed.

Lemma pidAxis_yaw_undefined pidProfile angleTrim env tpa dynKi (st : pidState F) :
  length (previousRateError st) = 2 -> triMixerInUse env = true ->
  pidAxis pidProfile angleTrim env tpa dynKi FD_YAW st = None.
Proof.
  intros Hlen Htri.
  destruct (pidAxis pidProfile angleTrim env tpa dynKi FD_YAW st) as [st'|] eqn:Hs;
    [exfalso|done].
  unfold pidAxis in Hs. unbind Hs. rewrite Htri in *. simpl in *.
  repeat match goal with
  | E : setpointStage _ _ _ _ _ = Some _ |- _ => apply setpointStage_frame in E
  | E : ptermStage _ _ _ _ = Some _ |- _ => apply ptermStage_frame in E
  | E : itermStage _ _ _ _ _ = Some _ |- _ => apply itermStage_frame in E
  end.
  match goal with E : dtermStage _ _ _ _ _ _ ?s = Some _ |- _ =>
    rewrite dtermStage_yaw_undefined in E; [done|] end.
  unfold frame in *. destruct_and!. congruence.
Qed.

Lemma pidController_undefined pidProfile angleTrim env (st : pidState F) :
  length (previousRateError st) = 2 -> triMixerInUse env = true ->
  pidController pidProfile angleTrim env st = None.
Proof.
  intros Hlen Htri. unfold pidController, axes. simpl.
  set (body := pidAxis pidProfile angleTrim env _ _).
  destruct (body FD_ROLL st) as [s1|] eqn:H1; [simpl|done].
  destruct (body FD_PITCH s1) as [s2|] eqn:H2; [simpl|done].
  apply pidAxis_frame in H1, H2.
  unfold body. rewrite pidAxis_yaw_undefined; [done| |done].
  unfold frame in *. destruct_and!. congruence.
Qed.


Ltac split_state st :=
  destruct st as [?looptime ?enabled ?noTpa ?P ?I ?D ?expected ?dt ?accel
                  ?bnk ?mem ?gns ?prevSp ?prevErr].

Ltac setters :=
  unfold set_axisPID_P, set_axisPID_I, set_axisPID_D, set_store,
    set_previousSetpoint, set_previousRateError, carried; simpl.

Ltac same_carried :=
  match goal with Hc : carried ?a = carried ?b |- _ =>
    split_state a; split_state b; unfold carried in Hc; simpl in *;
    injection Hc as -> -> -> -> -> -> -> -> -> -> end.

Lemma limitStage_carried axis raw (s1 s2 t1 t2 : pidState F) sp1 sp2 :
  carried s1 = carried s2 ->
  limitStage axis raw s1 = Some (sp1, t1) ->
  limitStage axis raw s2 = Some (sp2, t2) ->
  sp1 = sp2 /\ carried t1 = carried t2
  /\ outputs t1 = outputs s1 /\ outputs t2 = outputs s2.
Proof.
  intros Hc H1 H2. same_carried.
  unfold limitStage, accelerationLimit in *. simpl in *.
  unbind H1. unbind H2. simplify_eq.
  case_match; [unbind H1; unbind H2|]; simplify_eq; done.
Qed.

Lemma setpointStage_carried pidProfile angleTrim env axis
    (s1 s2 t1 t2 : pidState F) sp1 sp2 :
  carried s1 = carried s2 ->
  setpointStage pidProfile angleTrim env axis s1 = Some (sp1, t1) ->
  setpointStage pidProfile angleTrim env axis s2 = Some (sp2, t2) ->
  sp1 = sp2 /\ carried t1 = carried t2
  /\ outputs t1 = outputs s1 /\ outputs t2 = outputs s2.
Proof.
  intros Hc H1 H2. unfold setpointStage in *. unbind H1. unbind H2.
  match goal with
  | E1 : limitStage _ _ s1 = Some _, E2 : limitStage _ _ s2 = Some _ |- _ =>
      destruct (limitStage_carried _ _ _ _ _ _ _ _ Hc E1 E2) as (-> & Hc' & Ho1 & Ho2)
  end.
  assert (forall a b : pidState F, carried a = carried b ->
            forall sp, pidLevel axis pidProfile angleTrim env a sp
                       = pidLevel axis pidProfile angleTrim env b sp) as Hlevel.
  { intros a b Hab sp.
    assert (gains a = gains b) as Hg by (unfold carried in Hab; congruence).
    unfold pidLevel, calcHorizonLevelStrength. by rewrite Hg. }
  destruct (_ && _) in H1, H2; injection H1 as <- <-; injection H2 as <- <-;
    repeat split; auto.
Qed.



Lemma ptermStage_carried tpa axis e (s1 s2 t1 t2 : pidState F) :
  carried s1 = carried s2 ->
  ptermStage tpa axis e s1 = Some t1 ->
  ptermStage tpa axis e s2 = Some t2 ->
  carried t1 = carried t2
  /\ axisPID_P t1 !! axis = axisPID_P t2 !! axis
  /\ (axisPID_I t1, axisPID_D t1, pidStabilisationEnabled t1)
     = (axisPID_I s1, axisPID_D s1, pidStabilisationEnabled s1)
  /\ (axisPID_I t2, axisPID_D t2, pidStabilisationEnabled t2)
     = (axisPID_I s2, axisPID_D s2, pidStabilisationEnabled s2).
Proof.
  intros Hc H1 H2. same_carried.
  unfold ptermStage in *. simpl in *. unbind H1. unbind H2. simplify_eq.
  repeat match goal with E : aset _ _ _ = Some _ |- _ =>
    apply aset_Some in E as [? ->] end.
  setters. rewrite !list_lookup_insert_eq by done. done.
Qed.

Lemma itermStage_carried env dynKi axis e (s1 s2 t1 t2 : pidState F) :
  carried s1 = carried s2 ->
  itermStage env dynKi axis e s1 = Some t1 ->
  itermStage env dynKi axis e s2 = Some t2 ->
  carried t1 = carried t2
  /\ (axisPID_I s1 !! axis = axisPID_I s2 !! axis ->
      axisPID_I t1 !! axis = axisPID_I t2 !! axis)
  /\ (axisPID_P t1, axisPID_D t1, pidStabilisationEnabled t1)
     = (axisPID_P s1, axisPID_D s1, pidStabilisationEnabled s1)
  /\ (axisPID_P t2, axisPID_D t2, pidStabilisationEnabled t2)
     = (axisPID_P s2, axisPID_D s2, pidStabilisationEnabled s2).
Proof.
  intros Hc H1 H2. same_carried.
  unfold itermStage in *. simpl in *. unbind H1. unbind H2. simplify_eq.
  repeat match goal with E : aset _ _ _ = Some _ |- _ =>
    apply aset_Some in E as [? ->] end.
  setters. rewrite !list_lookup_insert_eq by done.
  split; [done|]. split; [|done]. intros Heq. congruence.
Qed.

Lemma dtermStage_carried pidProfile env tpa axis sp g (s1 s2 t1 t2 : pidState F) :
  carried s1 = carried s2 ->
  dtermStage pidProfile env tpa axis sp g s1 = Some t1 ->
  dtermStage pidProfile env tpa axis sp g s2 = Some t2 ->
  carried t1 = carried t2
  /\ axisPID_D t1 !! axis = axisPID_D t2 !! axis
  /\ (axisPID_P t1, axisPID_I t1, pidStabilisationEnabled t1)
     = (axisPID_P s1, axisPID_I s1, pidStabilisationEnabled s1)
  /\ (axisPID_P t2, axisPID_I t2, pidStabilisationEnabled t2)
     = (axisPID_P s2, axisPID_I s2, pidStabilisationEnabled s2).
Proof.
  intros Hc H1 H2. same_carried.
  unfold dtermStage, dtermError in *. simpl in *. unbind H1. unbind H2. simplify_eq.
  repeat match goal with E : aset _ _ _ = Some _ |- _ =>
    apply aset_Some in E as [? ->] end.
  setters. rewrite !list_lookup_insert_eq by done. done.
Qed.


Lemma filterApply_fun fn h x (m : filterStore F) r1 r2 :
  filterApply fn h x m = Some r1 -> filterApply fn h x m = Some r2 -> r1 = r2.
Proof. congruence. Qed.



Ltac other_axis :=
  repeat match goal with E : aset _ _ _ = Some _ |- _ =>
    apply aset_Some in E as [? ->] end;
  unfold entriesAt; setters; rewrite ?list_lookup_insert_ne by done; done.

Lemma limitStage_other axis raw (st st' : pidState F) sp j :
  limitStage axis raw st = Some (sp, st') -> j <> axis ->
  entriesAt j st' = entriesAt j st.
Proof.
  unfold limitStage, accelerationLimit. intros Hs Hj. unbind Hs.
  case_match; [unbind Hs|]; simplify_eq; other_axis.
Qed.

Lemma setpointStage_other pidProfile angleTrim env axis (st st' : pidState F) sp j :
  setpointStage pidProfile angleTrim env axis st = Some (sp, st') -> j <> axis ->
  entriesAt j st' = entriesAt j st.
Proof.
  unfold setpointStage. intros Hs Hj. unbind Hs.
  match goal with E : limitStage _ _ _ = Some _ |- _ =>
    apply (limitStage_other _ _ _ _ _ j) in E; [|done] end.
  destruct (_ && _) in Hs; injection Hs as <- <-; done.
Qed.

Lemma ptermStage_other tpa axis e (st st' : pidState F) j :
  ptermStage tpa axis e st = Some st' -> j <> axis ->
  entriesAt j st' = entriesAt j st.
Proof.
  unfold ptermStage. intros Hs Hj. unbind Hs. simplify_eq. other_axis.
Qed.

Lemma itermStage_other env dynKi axis e (st st' : pidState F) j :
  itermStage env dynKi axis e st = Some st' -> j <> axis ->
  entriesAt j st' = entriesAt j st.
Proof.
  unfold itermStage. intros Hs Hj. unbind Hs. simplify_eq. other_axis.
Qed.

Lemma dtermStage_other pidProfile env tpa axis sp g (st st' : pidState F) j :
  dtermStage pidProfile env tpa axis sp g st = Some st' -> j <> axis ->
  entriesAt j st' = entriesAt j st.
Proof.
  unfold dtermStage. intros Hs Hj. unbind Hs. simplify_eq. other_axis.
Qed.

Lemma stabilisationGate_other axis (st st' : pidState F) j :
  stabilisationGate axis st = Some st' -> j <> axis ->
  entriesAt j st' = entriesAt j st.
Proof.
  unfold stabilisationGate. intros Hs Hj.
  case_match; [unbind Hs|]; simplify_eq; other_axis.
Qed.

Lemma pidAxis_other pidProfile angleTrim env tpa dynKi axis (st st' : pidState F) j :
  pidAxis pidProfile angleTrim env tpa dynKi axis st = Some st' -> j <> axis ->
  entriesAt j st' = entriesAt j st.
Proof.
  unfold pidAxis. intros Hs Hj. unbind Hs.
  repeat match goal with
  | E : setpointStage _ _ _ _ _ = Some _ |- _ =>
      apply (setpointStage_other _ _ _ _ _ _ _ j) in E; [|done]
  | E : ptermStage _ _ _ _ = Some _ |- _ => apply (ptermStage_other _ _ _ _ _ j) in E; [|done]
  | E : itermStage _ _ _ _ _ = Some _ |- _ => apply (itermStage_other _ _ _ _ _ _ j) in E; [|done]
  | E : stabilisationGate _ _ = Some _ |- _ => apply (stabilisationGate_other _ _ _ j) in E; [|done]
  end.
  match goal with E : (if _ then _ else _) = Some _ |- _ =>
    destruct (_ || _) in E;
      [apply (dtermStage_other _ _ _ _ _ _ _ _ j) in E; [|done]
      |injection E as <-] end;
  congruence.
Qed.


Lemma pidController_axes pidProfile angleTrim env (st st' : pidState F) :
  pidController pidProfile angleTrim env st = Some st' ->
  exists a b,
    let body := pidAxis pidProfile angleTrim env (getThrottlePIDAttenuation env)
                  (dynKiOf (getMotorMixRange env) (ITermWindupPointInv (gains st))) in
    body FD_ROLL st = Some a /\ body FD_PITCH a = Some b /\ body FD_YAW b = Some st'.
Proof.
  unfold pidController, axes. simpl. intros Hs.
  match type of Hs with (?m ≫= _) = _ => destruct m as [a|] eqn:Ha end;
    [simpl in Hs|done].
  match type of Hs with (?m ≫= _) = _ => destruct m as [b|] eqn:Hb end;
    [simpl in Hs|done].
  match type of Hs with (?m ≫= _) = _ => destruct m as [c|] eqn:Hc end;
    [simpl in Hs|done].
  injection Hs as <-. exists a, b. auto.
Qed.

Lemma stabilisationGate_off axis (st st' : pidState F) :
  stabilisationGate axis st = Some st' -> pidStabilisationEnabled st = false ->
  (axisPID_P st' !! axis, axisPID_I st' !! axis, axisPID_D st' !! axis)
    = (Some f0, Some f0, Some f0).
Proof.
  unfold stabilisationGate. intros Hs Hoff. rewrite Hoff in Hs.
  simpl in Hs. unbind Hs. simplify_eq.
  repeat match goal with E : aset _ _ _ = Some _ |- _ =>
    apply aset_Some in E as [? ->] end.
  unfold entriesAt; setters. rewrite !list_lookup_insert_eq by done. done.
Qed.

Lemma stabilisationGate_on axis (st st' : pidState F) :
  stabilisationGate axis st = Some st' -> pidStabilisationEnabled st = true ->
  st' = st.
Proof.
  unfold stabilisationGate. intros Hs Hon. rewrite Hon in Hs.
  simpl in Hs. congruence.
Qed.

Lemma pidAxis_off pidProfile angleTrim env tpa dynKi axis (st st' : pidState F) :
  pidAxis pidProfile angleTrim env tpa dynKi axis st = Some st' ->
  pidStabilisationEnabled st = false ->
  (axisPID_P st' !! axis, axisPID_I st' !! axis, axisPID_D st' !! axis)
    = (Some f0, Some f0, Some f0).
Proof.
  unfold pidAxis. intros Hs Hoff. unbind Hs.
  eapply stabilisationGate_off; [done|].
  repeat match goal with
  | E : setpointStage _ _ _ _ _ = Some _ |- _ => apply setpointStage_frame in E
  | E : ptermStage _ _ _ _ = Some _ |- _ => apply ptermStage_frame in E
  | E : itermStage _ _ _ _ _ = Some _ |- _ => apply itermStage_frame in E
  end.
  match goal with E : (if _ then _ else _) = Some _ |- _ =>
    destruct (_ || _) in E; [apply dtermStage_frame in E|injection E as <-] end;
  unfold frame in *; destruct_and!; congruence.
Qed.



Lemma pidAxis_yaw_dterm pidProfile angleTrim env tpa dynKi (st st' : pidState F) :
  pidAxis pidProfile angleTrim env tpa dynKi FD_YAW st = Some st' ->
  triMixerInUse env = false ->
  axisPID_D st' !! FD_YAW
  = if pidStabilisationEnabled st then axisPID_D st !! FD_YAW else Some f0.
Proof.
  intros Hs Htri. destruct (pidStabilisationEnabled st) eqn:Hen.
  - unfold pidAxis in Hs. rewrite Htri in Hs. simpl in Hs.
    destruct (setpointStage _ _ _ _ st) as [[sp u]|] eqn:E1; [simpl in Hs|done].
    destruct (expectedGyroError u !! FD_YAW) as [x|]; [simpl in Hs|done].
    destruct (ptermStage _ _ _ u) as [v|] eqn:E2; [simpl in Hs|done].
    destruct (itermStage _ _ _ _ v) as [w|] eqn:E3; [simpl in Hs|done].
    destruct (setpointStage_carried _ _ _ _ _ _ _ _ _ _ eq_refl E1 E1) as (_ & _ & Hu & _).
    destruct (ptermStage_carried _ _ _ _ _ _ _ eq_refl E2 E2) as (_ & _ & Hv & _).
    destruct (itermStage_carried _ _ _ _ _ _ _ _ eq_refl E3 E3) as (_ & _ & Hw & _).
    unfold outputs in Hu. injection Hu as _ _ Du Eu. injection Hv as _ Dv Ev.
    injection Hw as _ Dw Ew.
    apply stabilisationGate_on in Hs; [|congruence]. congruence.
  - apply pidAxis_off in Hs; [|done]. congruence.
Qed.

Lemma pidController_yaw_dterm pidProfile angleTrim env (st st' : pidState F) :
  pidController pidProfile angleTrim env st = Some st' ->
  triMixerInUse env = false ->
  axisPID_D st' !! FD_YAW
  = if pidStabilisationEnabled st then axisPID_D st !! FD_YAW else Some f0.
Proof.
  intros Hs Htri.
  apply pidController_axes in Hs as (a & b & Ha & Hb & Hc).
  rewrite (pidAxis_yaw_dterm _ _ _ _ _ _ _ Hc Htri).
  pose proof (pidAxis_frame _ _ _ _ _ _ _ _ Ha) as Fa.
  pose proof (pidAxis_frame _ _ _ _ _ _ _ _ Hb) as Fb.
  apply (pidAxis_other _ _ _ _ _ _ _ _ FD_YAW) in Ha; [|done].
  apply (pidAxis_other _ _ _ _ _ _ _ _ FD_YAW) in Hb; [|done].
  unfold entriesAt in Ha, Hb. injection Ha as _ _ Da _ _. injection Hb as _ _ Db _ _.
  unfold frame in Fa, Fb. destruct_and!.
  replace (pidStabilisationEnabled b) with (pidStabilisationEnabled st) by congruence.
  destruct (pidStabilisationEnabled st); congruence.
Qed.




(** *** The shaped setpoint of an axis depends on its own entries *)

Lemma shapedSetpoint_local pidProfile angleTrim env axis (a st : pidState F) :
  gains a = gains st ->
  previousSetpoint a !! axis = previousSetpoint st !! axis ->
  length (previousSetpoint a) = length (previousSetpoint st) ->
  shapedSetpoint pidProfile angleTrim env axis a
  = shapedSetpoint pidProfile angleTrim env axis st.
Proof.
  intros Hg Hp Hl.
  unfold shapedSetpoint, setpointStage, limitStage, accelerationLimit.
  rewrite Hg, Hp.
  destruct (maxVelocity (gains st) !! axis) as [maxV|]; [simpl|done].
  destruct (fnonzero maxV); simpl.
  - destruct (previousSetpoint st !! axis) as [prev|]; [simpl|done].
    unfold aset. rewrite Hl. case_decide; [simpl|done].
    unfold pidLevel, calcHorizonLevelStrength. setters. rewrite Hg.
    by destruct (_ && _).
  - unfold pidLevel, calcHorizonLevelStrength. rewrite Hg. by destruct (_ && _).
Qed.

Lemma pidAxis_iterm pidProfile angleTrim env tpa dynKi axis (st st' : pidState F)
    sp expected ITerm ki :
  pidAxis pidProfile angleTrim env tpa dynKi axis st = Some st' ->
  shapedSetpoint pidProfile angleTrim env axis st = Some sp ->
  expectedGyroError st !! axis = Some expected ->
  axisPID_I st !! axis = Some ITerm ->
  Ki (gains st) !! axis = Some ki ->
  let errorRate := fadd (fsub sp (gyroADCf env axis)) expected in
  axisPID_I st' !! axis
  = Some (if pidStabilisationEnabled st then
            ITermCommitted (mixerIsOutputSaturated env axis errorRate) ITerm
              (ITermCandidate ki errorRate (dT st) dynKi (itermAccelerator st) ITerm)
          else f0).
Proof.
  intros Hs Hsp Hexp HI Hki errorRate.
  destruct (pidStabilisationEnabled st) eqn:Hen;
    [|apply pidAxis_off in Hs; [congruence|done]].
  unfold pidAxis in Hs. unfold shapedSetpoint in Hsp.
  destruct (setpointStage _ _ _ _ st) as [[sp' u]|] eqn:E1; [simpl in Hs, Hsp|done].
  injection Hsp as ->.
  pose proof (setpointStage_frame _ _ _ _ _ _ _ E1) as Fu.
  destruct (setpointStage_carried _ _ _ _ _ _ _ _ _ _ eq_refl E1 E1) as (_ & _ & Hu & _).
  unfold outputs in Hu. injection Hu as Pu Iu Du Eu.
  assert (expectedGyroError u = expectedGyroError st) as Hexpu
    by (unfold frame in Fu; tauto).
  rewrite Hexpu, Hexp in Hs. simpl in Hs. fold errorRate in Hs.
  destruct (ptermStage _ _ _ u) as [v|] eqn:E2; [simpl in Hs|done].
  pose proof (ptermStage_frame _ _ _ _ _ E2) as Fv.
  destruct (ptermStage_carried _ _ _ _ _ _ _ eq_refl E2 E2) as (_ & _ & Hv & _).
  injection Hv as Iv Dv Ev.
  destruct (itermStage _ _ _ _ v) as [w|] eqn:E3; [simpl in Hs|done].
  assert (axisPID_I w !! axis
          = Some (ITermCommitted (mixerIsOutputSaturated env axis errorRate) ITerm
                    (ITermCandidate ki errorRate (dT st) dynKi (itermAccelerator st) ITerm)))
    as Hw.
  { unfold itermStage in E3. rewrite Iv, Iu, HI in E3. simpl in E3.
    unfold frame in Fu, Fv. destruct_and!.
    replace (gains v) with (gains st) in E3 by congruence.
    replace (dT v) with (dT st) in E3 by congruence.
    replace (itermAccelerator v) with (itermAccelerator st) in E3 by congruence.
    rewrite Hki in E3. simpl in E3. unbind E3. injection E3 as <-.
    match goal with E : aset _ _ _ = Some _ |- _ => apply aset_Some in E as [? ->] end.
    setters. by rewrite list_lookup_insert_eq by done. }
  pose proof (itermStage_frame _ _ _ _ _ _ E3) as Fw.
  assert (pidStabilisationEnabled w = true) as Henw
    by (unfold frame in Fu, Fv, Fw; destruct_and!; congruence).
  destruct (negb (axis =? FD_YAW) || triMixerInUse env).
  - destruct (dtermStage _ _ _ _ _ _ w) as [z|] eqn:E4; [simpl in Hs|done].
    pose proof (dtermStage_frame _ _ _ _ _ _ _ _ E4) as Fz.
    destruct (dtermStage_carried _ _ _ _ _ _ _ _ _ _ eq_refl E4 E4) as (_ & _ & Hz & _).
    injection Hz as Pz Iz Ez.
    apply stabilisationGate_on in Hs; [|congruence]. congruence.
  - simpl in Hs. apply stabilisationGate_on in Hs; [|congruence]. congruence.
Qed.

(** *** The integral term *)


(** *** Sequences of ticks *)

Lemma pidStabilisationState_layout on (st : pidState F) :
  layout (pidStabilisationState on st) = layout st.
Proof. reflexivity. Qed.

Lemma pidStabilisationState_carried on (st : pidState F) :
  carried (pidStabilisationState on st) = carried st.
Proof. reflexivity. Qed.

Lemma tick_defined pidProfile angleTrim t (st : pidState F) :
  layout st = true -> triMixerInUse t.2 = false ->
  exists st', tick pidProfile angleTrim t st = Some st' /\ layout st' = true.
Proof.
  intros Hl Htri. unfold tick.
  destruct (pidController_defined pidProfile angleTrim t.2
              (pidStabilisationState t.1 st)) as (st' & Hs & _ & Hl'); eauto.
Qed.

Lemma run_defined pidProfile angleTrim ticks (st : pidState F) :
  layout st = true -> Forall (fun t => triMixerInUse t.2 = false) ticks ->
  exists st', run pidProfile angleTrim ticks st = Some st' /\ layout st' = true.
Proof.
  intros Hl Htri. revert st Hl.
  induction Htri as [|t ticks Ht _ IH]; intros st Hl; simpl; [eauto|].
  destruct (tick_defined pidProfile angleTrim t st Hl Ht) as (st1 & -> & Hl1).
  simpl. apply IH. done.
Qed.

Lemma tick_yaw_dterm pidProfile angleTrim t (st st' : pidState F) :
  tick pidProfile angleTrim t st = Some st' -> triMixerInUse t.2 = false ->
  axisPID_D st' !! FD_YAW = if t.1 then axisPID_D st !! FD_YAW else Some f0.
Proof.
  unfold tick. intros Hs Htri.
  apply pidController_yaw_dterm in Hs; [|done]. exact Hs.
Qed.

Lemma run_yaw_dterm_zero pidProfile angleTrim ticks (st st' : pidState F) :
  run pidProfile angleTrim ticks st = Some st' ->
  Forall (fun t => triMixerInUse t.2 = false) ticks ->
  axisPID_D st !! FD_YAW = Some f0 ->
  axisPID_D st' !! FD_YAW = Some f0.
Proof.
  intros Hs Htri. revert st Hs.
  induction Htri as [|t ticks Ht _ IH]; intros st Hs Hz; simpl in Hs.
  - congruence.
  - destruct (tick pidProfile angleTrim t st) as [st1|] eqn:H1; [simpl in Hs|done].
    apply (IH st1); [done|].
    rewrite (tick_yaw_dterm _ _ _ _ _ H1 Ht). by destruct t.1.
Qed.





(** *** The stabilisation gate *)


(** *** The bounds of the derivative path *)

Lemma dtermStage_in_bounds pidProfile env tpa axis sp g (st st' : pidState F) :
  dtermStage pidProfile env tpa axis sp g st = Some st' ->
  axis < length (previousRateError st)
  /\ axis < length (dtermFilterNotch (bank st))
  /\ axis < length (dtermFilterLpf (bank st)).
Proof.
  unfold dtermStage. intros Hs. unbind Hs.
  repeat match goal with E : _ !! _ = Some _ |- _ => apply lookup_lt_Some in E end.
  done.
Qed.

(** C2, as the code has it. With the arrays as pid.c declares them,
    the derivative path of Roll and Pitch stays within bounds, and that
    of Yaw does not: [previousRateError], [dtermFilterNotch] and
    [dtermFilterLpf] have two elements and Yaw indexes them at 2.  The
    path is taken for Yaw when the tri-mixer is in use, so a tick is
    defined exactly when it is not. *)
Theorem yaw_derivative_path_out_of_bounds pidProfile angleTrim env (st : pidState F) :
  layout st = true ->
  (forall axis tpa sp g, axis < FD_YAW ->
     exists st', dtermStage pidProfile env tpa axis sp g st = Some st'
       /\ axis < length (previousRateError st)
       /\ axis < length (dtermFilterNotch (bank st))
       /\ axis < length (dtermFilterLpf (bank st)))
  /\ previousRateError st !! FD_YAW = None
  /\ dtermFilterNotch (bank st) !! FD_YAW = None
  /\ dtermFilterLpf (bank st) !! FD_YAW = None
  /\ (forall tpa sp g, dtermStage pidProfile env tpa FD_YAW sp g st = None)
  /\ (pidController pidProfile angleTrim env st = None <-> triMixerInUse env = true).
Proof.
  intros Hl. pose proof Hl as Hl'. layout_facts Hl'.
  assert (length (dtermFilterNotch (bank st)) = 2
          /\ length (dtermFilterLpf (bank st)) = 2) as (HlN & HlL).
  { unfold bankLayout in HlB. rewrite !andb_true_iff, !Nat.eqb_eq in HlB. tauto. }
  split; [|split; [|split; [|split; [|split]]]].
  - intros axis tpa sp g Hax. unfold FD_YAW in Hax.
    destruct (dtermStage_defined pidProfile env tpa axis sp g st Hl Hax) as [st' Hs].
    exists st'. split; [done|]. eapply dtermStage_in_bounds; eauto.
  - apply lookup_ge_None_2. unfold FD_YAW. lia.
  - apply lookup_ge_None_2. unfold FD_YAW. lia.
  - apply lookup_ge_None_2. unfold FD_YAW. lia.
  - intros. by apply dtermStage_yaw_undefined.
  - split.
    + intros Hn. destruct (triMixerInUse env) eqn:Htri; [done|].
      destruct (pidController_defined pidProfile angleTrim env st Hl Htri)
        as (st' & Hs & _). congruence.
    + intros Htri. by apply pidController_undefined.
Qed.

(** *** The derivative term of Yaw *)

Lemma dtermStage_term pidProfile env tpa axis sp g (st st' : pidState F) :
  dtermStage pidProfile env tpa axis sp g st = Some st' ->
  exists previous kd notch lpf d1 m1 d2 m2,
    previousRateError st !! axis = Some previous
    /\ Kd (gains st) !! axis = Some kd
    /\ dtermFilterNotch (bank st) !! axis = Some notch
    /\ dtermFilterLpf (bank st) !! axis = Some lpf
    /\ let rD := dtermError pidProfile env axis sp g st in
       let delta := fdiv (fsub rD previous) (dT st) in
       filterApply (dtermNotchFilterApplyFn (bank st)) notch
                   (fmul (fmul kd delta) tpa) (store st) = Some (d1, m1)
       /\ filterApply (dtermLpfApplyFn (bank st)) lpf d1 m1 = Some (d2, m2)
       /\ axisPID_D st' !! axis = Some d2
       /\ previousRateError st' !! axis = Some rD.
Proof.
  unfold dtermStage. intros Hs. unbind Hs. injection Hs as <-.
  repeat match goal with E : aset _ _ _ = Some _ |- _ =>
    apply aset_Some in E as [? ->] end.
  do 8 eexists. do 4 (split; [eassumption|]). cbv zeta.
  split; [eassumption|]. split; [eassumption|].
  setters. rewrite !list_lookup_insert_eq by done. done.
Qed.

(** C7, as the code has it. With the tri-mixer flag false a tick
    leaves the D term of Yaw as it was, or zeroes it when the gate is
    closed, so that it is exactly 0 on every tick after start-up
    whatever the inputs are.  With the flag true the Yaw iteration
    enters the derivative block of Roll and Pitch, whose result on any
    axis is the filtered [Kd * delta * tpaFactor]; on Yaw the block
    indexes [previousRateError] and the filter handles outside their
    two elements, and the iteration is undefined. *)
Theorem yaw_dterm_zero_or_undefined pidProfile angleTrim ticks env (st : pidState F) :
  layout st = true ->
  (Forall (fun t => triMixerInUse t.2 = false) ticks ->
   axisPID_D st !! FD_YAW = Some f0 ->
   exists st', run pidProfile angleTrim ticks st = Some st'
     /\ axisPID_D st' !! FD_YAW = Some f0)
  /\ (triMixerInUse env = false ->
      exists st', pidController pidProfile angleTrim env st = Some st'
        /\ axisPID_D st' !! FD_YAW
           = if pidStabilisationEnabled st then axisPID_D st !! FD_YAW else Some f0)
  /\ (triMixerInUse env = true ->
      forall tpa dynKi,
        pidAxis pidProfile angleTrim env tpa dynKi FD_YAW st = None
        /\ forall sp g, dtermStage pidProfile env tpa FD_YAW sp g st = None).
Proof.
  intros Hl. pose proof Hl as Hl'. layout_facts Hl'.
  split; [|split].
  - intros Htri Hz.
    destruct (run_defined pidProfile angleTrim ticks st Hl Htri) as (st' & Hs & _).
    exists st'. split; [done|]. eapply run_yaw_dterm_zero; eauto.
  - intros Htri.
    destruct (pidController_defined pidProfile angleTrim env st Hl Htri)
      as (st' & Hs & _).
    exists st'. split; [done|]. by eapply pidController_yaw_dterm.
  - intros Htri tpa dynKi. split.
    + by apply pidAxis_yaw_undefined.
    + intros. by apply dtermStage_yaw_undefined.
Qed.

(** *** Configuration *)

Lemma sizes_spec (st : pidState F) :
  sizes st = true <->
  (length (axisPID_P st) = 3 /\ length (axisPID_I st) = 3
   /\ length (axisPID_D st) = 3 /\ length (expectedGyroError st) = 3
   /\ length (previousSetpoint st) = 3 /\ length (previousRateError st) = 2)
  /\ gainsLayout (gains st) = true
  /\ (length (dtermFilterNotch (bank st)) = 2 /\ length (dtermFilterLpf (bank st)) = 2)
  /\ storeLayout (store st) = true.
Proof.
  unfold sizes. rewrite !andb_true_iff, !Nat.eqb_eq. tauto.
Qed.

(** A state whose filters are selected has the declared sizes. *)
Lemma layout_sizes (st : pidState F) : layout st = true -> sizes st = true.
Proof.
  rewrite layout_spec, sizes_spec. unfold bankLayout.
  rewrite !andb_true_iff, !Nat.eqb_eq. tauto.
Qed.

(** At start-up the arrays have their sizes, and no filter is
    selected: the function pointers are null. *)
Lemma sizes_power_on :
  sizes (power_on (F:=F)) = true /\ layout (power_on (F:=F)) = false.
Proof. split; reflexivity. Qed.

Lemma pidSetTargetLooptime_layout looptime (st : pidState F) :
  layout (pidSetTargetLooptime looptime st) = layout st
  /\ sizes (pidSetTargetLooptime looptime st) = sizes st.
Proof. split; reflexivity. Qed.

Lemma pidInitConfig_layout pidProfile triMixer (st : pidState F) :
  (layout st = true -> layout (pidInitConfig pidProfile triMixer st) = true)
  /\ (sizes st = true -> sizes (pidInitConfig pidProfile triMixer st) = true).
Proof.
  rewrite !layout_spec, !sizes_spec. unfold pidInitConfig; simpl. tauto.
Qed.

Lemma initAxisFilters_two {S : Type} (ptr : nat -> filterPtr) (init : S -> S)
    (handles : list filterPtr) (structs : list S) :
  length handles = 2 -> length structs = 2 ->
  exists s0 s1,
    structs = [s0; s1]
    /\ initAxisFilters ptr init handles structs
       = Some ([ptr 0; ptr 1], [init s0; init s1]).
Proof.
  intros Hh Hs.
  destruct (two_elements _ Hh) as (h0 & h1 & ->).
  destruct (two_elements _ Hs) as (s0 & s1 & ->).
  exists s0, s1. split; reflexivity.
Qed.

Lemma filterDisabled_spec hz nyquist :
  filterDisabled hz nyquist = true <-> (hz = 0 \/ nyquist < hz)%Z.
Proof.
  unfold filterDisabled. rewrite orb_true_iff, Z.eqb_eq, Z.ltb_lt. tauto.
Qed.

Lemma pidInitFilters_defined pidProfile (st : pidState F) nyquist :
  sizes st = true -> pidFrequencyNyquist st = Some nyquist ->
  exists st',
    pidInitFilters pidProfile st = Some st'
    /\ layout st' = true
    /\ dtermNotchFilterApplyFn (bank st')
       = (if filterDisabled (dterm_notch_hz pidProfile) nyquist
          then nullFilterApply else biquadFilterApply)
    /\ dtermLpfApplyFn (bank st')
       = (if filterDisabled (dterm_lpf_hz pidProfile) nyquist then nullFilterApply
          else match dterm_filter_type pidProfile with
               | FILTER_PT1 => pt1FilterApply
               | FILTER_BIQUAD => biquadFilterApply
               | FILTER_FIR => firFilterDenoiseUpdate
               | FILTER_OTHER => nullFilterApply
               end)
    /\ ptermYawFilterApplyFn (bank st')
       = (if filterDisabled (yaw_lpf_hz pidProfile) nyquist
          then nullFilterApply else pt1FilterApply).
Proof.
  intros Hl Hn. apply sizes_spec in Hl as (Hlen & HlG & (HbN & HbL) & HlM).
  apply storeLayout_spec in HlM as (HmN & HmP & HmB & HmD).
  unfold pidInitFilters. rewrite Hn. simpl.
  unfold initNotch, initLpf, initYawLpf.
  destruct (initAxisFilters_two BiquadNotchPtr
              (fun s => biquadFilterInit s (dterm_notch_hz pidProfile)
                          (targetPidLooptime st)
                          (filterGetNotchQ (dterm_notch_hz pidProfile)
                                           (dterm_notch_cutoff pidProfile))
                          FILTER_NOTCH)
              _ _ HbN HmN) as (n0 & n1 & HeN & ->).
  destruct (initAxisFilters_two Pt1Ptr
              (fun s => pt1FilterInit s (dterm_lpf_hz pidProfile) (dT st))
              _ _ HbL HmP) as (p0 & p1 & HeP & ->).
  destruct (initAxisFilters_two BiquadPtr
              (fun s => biquadFilterInitLPF s (dterm_lpf_hz pidProfile)
                          (targetPidLooptime st))
              _ _ HbL HmB) as (b0 & b1 & HeB & ->).
  destruct (initAxisFilters_two DenoisePtr
              (fun s => firFilterDenoiseInit s (dterm_lpf_hz pidProfile)
                          (targetPidLooptime st))
              _ _ HbL HmD) as (d0 & d1 & HeD & ->).
  destruct (filterDisabled (dterm_notch_hz pidProfile) nyquist);
    destruct (filterDisabled (dterm_lpf_hz pidProfile) nyquist);
    destruct (filterDisabled (yaw_lpf_hz pidProfile) nyquist);
    destruct (dterm_filter_type pidProfile); simpl;
    (eexists; split; [reflexivity|]; split; [|done]);
    (apply layout_spec; simpl; split; [done|]; split; [done|]; split;
     [ unfold bankLayout, notchSelected, lpfSelected, yawSelected in *; simpl;
       rewrite ?andb_true_iff, ?orb_true_iff, ?bool_decide_eq_true, ?Nat.eqb_eq;
       simpl; repeat split; eauto 10
     | apply storeLayout_spec; simpl; rewrite ?HeN, ?HeP, ?HeB, ?HeD; done ]).
Qed.

(** C4, as the code has it. [pidInitFilters] compares each cutoff
    with [pidFrequencyNyquist], the value of [(1 / dT) / 2] converted
    to an integer, by [hz > pidFrequencyNyquist]: a path gets the no-op
    filter exactly when its cutoff is zero or strictly above that
    frequency (for the D-term low-pass also when the filter type is
    none of the three known ones).  A cutoff equal to the Nyquist
    frequency, like every non-zero cutoff below it, selects the real
    filter of the path.  The policy is the same on the three paths. *)
Theorem filter_paths_nyquist_boundary pidProfile (st : pidState F) nyquist :
  sizes st = true -> pidFrequencyNyquist st = Some nyquist ->
  exists st',
    pidInitFilters pidProfile st = Some st'
    /\ (dtermNotchFilterApplyFn (bank st') = nullFilterApply
        <-> (dterm_notch_hz pidProfile = 0
             \/ nyquist < dterm_notch_hz pidProfile)%Z)
    /\ (dtermLpfApplyFn (bank st') = nullFilterApply
        <-> (dterm_lpf_hz pidProfile = 0 \/ nyquist < dterm_lpf_hz pidProfile)%Z
            \/ dterm_filter_type pidProfile = FILTER_OTHER)
    /\ (ptermYawFilterApplyFn (bank st') = nullFilterApply
        <-> (yaw_lpf_hz pidProfile = 0 \/ nyquist < yaw_lpf_hz pidProfile)%Z)
    /\ (nyquist <> 0%Z ->
        (dterm_notch_hz pidProfile = nyquist ->
         dtermNotchFilterApplyFn (bank st') = biquadFilterApply)
        /\ (dterm_lpf_hz pidProfile = nyquist ->
            dtermLpfApplyFn (bank st')
            = match dterm_filter_type pidProfile with
              | FILTER_PT1 => pt1FilterApply
              | FILTER_BIQUAD => biquadFilterApply
              | FILTER_FIR => firFilterDenoiseUpdate
              | FILTER_OTHER => nullFilterApply
              end)
        /\ (yaw_lpf_hz pidProfile = nyquist ->
            ptermYawFilterApplyFn (bank st') = pt1FilterApply)).
Proof.
  intros Hl Hn.
  destruct (pidInitFilters_defined pidProfile st nyquist Hl Hn)
    as (st' & Hs & _ & HN & HL & HY).
  exists st'. split; [done|].
  rewrite HN, HL, HY. clear HN HL HY Hs.
  assert (forall hz fn, fn <> nullFilterApply ->
            (if filterDisabled hz nyquist then nullFilterApply else fn) = nullFilterApply
            <-> (hz = 0 \/ nyquist < hz)%Z) as Hoff.
  { intros hz fn Hfn. rewrite <- filterDisabled_spec.
    destruct (filterDisabled hz nyquist); split; intros; congruence. }
  assert (nyquist <> 0%Z -> filterDisabled nyquist nyquist = false) as Heq.
  { intros Hnz. apply not_true_is_false. rewrite filterDisabled_spec. lia. }
  split; [by apply Hoff|]. split; [|split; [by apply Hoff|]].
  - destruct (dterm_filter_type pidProfile).
    + rewrite Hoff by done. split; [by left|]. intros [Hd|Hd]; [exact Hd|discriminate Hd].
    + rewrite Hoff by done. split; [by left|]. intros [Hd|Hd]; [exact Hd|discriminate Hd].
    + rewrite Hoff by done. split; [by left|]. intros [Hd|Hd]; [exact Hd|discriminate Hd].
    + split; [by right|]. intros _.
      by destruct (filterDisabled (dterm_lpf_hz pidProfile) nyquist).
  - intros Hnz. specialize (Heq Hnz).
    repeat split; intros ->; by rewrite Heq.
Qed.

(** *** The acceleration limiter *)

Lemma limitStage_result axis raw (st : pidState F) prev maxV :
  previousSetpoint st !! axis = Some prev ->
  maxVelocity (gains st) !! axis = Some maxV ->
  exists st',
    limitStage axis raw st
    = Some (if fnonzero maxV then limitedSetpoint prev maxV raw else raw, st')
    /\ gains st' = gains st
    /\ previousSetpoint st' !! axis
       = Some (if fnonzero maxV then limitedSetpoint prev maxV raw else prev).
Proof.
  intros Hp Hv. unfold limitStage, accelerationLimit. rewrite Hv.
  cbn [mbind option_bind].
  destruct (fnonzero maxV) eqn:Hnz.
  - rewrite Hp. cbn [mbind option_bind].
    assert (axis < length (previousSetpoint st)) as Hlt by (eapply lookup_lt_Some; eauto).
    unfold aset. rewrite decide_True by done. cbn [mbind option_bind].
    eexists. split; [reflexivity|]. split; [reflexivity|].
    unfold set_previousSetpoint. cbn [previousSetpoint].
    by rewrite list_lookup_insert_eq.
  - eexists. split; [reflexivity|]. split; [reflexivity|]. exact Hp.
Qed.

(** The limiter over a sequence of raw setpoints: each shaped
    setpoint is what [accelerationLimit] makes of the raw setpoint and
    of the shaped setpoint of the tick before. *)
Lemma limitRun_steps axis raws (st : pidState F) prev maxV :
  previousSetpoint st !! axis = Some prev ->
  maxVelocity (gains st) !! axis = Some maxV ->
  exists shaped,
    limitRun axis raws st = Some shaped
    /\ length shaped = length raws
    /\ (fnonzero maxV = true ->
        forall i raw p,
          raws !! i = Some raw -> (prev :: shaped) !! i = Some p ->
          shaped !! i = Some (limitedSetpoint p maxV raw))
    /\ (fnonzero maxV = false -> shaped = raws).
Proof.
  intros Hp Hv. revert st prev Hp Hv.
  induction raws as [|raw raws IH]; intros st prev Hp Hv.
  - exists []. simpl. repeat split; done.
  - destruct (limitStage_result axis raw st prev maxV Hp Hv) as (st' & Hs & Hg & Hp').
    rewrite <- Hg in Hv.
    destruct (IH st' _ Hp' Hv) as (rest & Hrun & Hlen & Hnz & Hz).
    cbn [limitRun]. rewrite Hs. cbn [mbind option_bind]. rewrite Hrun.
    cbn [mbind option_bind].
    eexists. split; [reflexivity|].
    split; [cbn [length]; congruence|].
    destruct (fnonzero maxV) eqn:Hnon.
    + split; [|done]. intros _ i r p Hr Hprev.
      destruct i as [|i]; cbn [lookup list_lookup] in Hr, Hprev |- *.
      * by simplify_eq.
      * by apply (Hnz eq_refl i r p).
    + split; [done|]. intros _. f_equal. by apply Hz.
Qed.

(** ** Further properties of the controller *)

(** *** The iteration of one axis within a tick *)

Lemma pidController_frame pidProfile angleTrim env (st st' : pidState F) :
  pidController pidProfile angleTrim env st = Some st' -> frame st st'.
Proof.
  intros Hs. apply pidController_axes in Hs as (a & b & Ha & Hb & Hc).
  apply pidAxis_frame in Ha, Hb, Hc. eauto using frame_trans.
Qed.

(** The state [s] in which the iteration of [axis] starts holds the
    entries of the axis as the tick found them, and the entries the
    iteration leaves are those of the end of the tick. *)
Lemma pidController_at pidProfile angleTrim env (st st' : pidState F) axis :
  pidController pidProfile angleTrim env st = Some st' -> axis < 3 ->
  exists s s',
    pidAxis pidProfile angleTrim env (getThrottlePIDAttenuation env)
      (dynKiOf (getMotorMixRange env) (ITermWindupPointInv (gains st))) axis s = Some s'
    /\ frame st s
    /\ entriesAt axis s = entriesAt axis st
    /\ entriesAt axis st' = entriesAt axis s'.
Proof.
  intros Hs Hax.
  apply pidController_axes in Hs as (a & b & Ha & Hb & Hc). simpl in Ha, Hb, Hc.
  pose proof (pidAxis_frame _ _ _ _ _ _ _ _ Ha) as Fa.
  pose proof (pidAxis_frame _ _ _ _ _ _ _ _ Hb) as Fb.
  pose proof (pidAxis_other _ _ _ _ _ _ _ _ FD_PITCH Ha ltac:(done)) as Pa.
  pose proof (pidAxis_other _ _ _ _ _ _ _ _ FD_YAW Ha ltac:(done)) as Ya.
  pose proof (pidAxis_other _ _ _ _ _ _ _ _ FD_YAW Hb ltac:(done)) as Yb.
  pose proof (pidAxis_other _ _ _ _ _ _ _ _ FD_ROLL Hb ltac:(done)) as Rb.
  pose proof (pidAxis_other _ _ _ _ _ _ _ _ FD_ROLL Hc ltac:(done)) as Rc.
  pose proof (pidAxis_other _ _ _ _ _ _ _ _ FD_PITCH Hc ltac:(done)) as Pc.
  unfold FD_ROLL, FD_PITCH, FD_YAW in *.
  destruct axis as [|[|[|]]]; [| | |lia].
  - exists st, a. split; [exact Ha|]. split; [apply frame_refl|].
    split; [done|]. congruence.
  - exists a, b. split; [exact Hb|]. split; [exact Fa|]. split; [done|]. done.
  - exists b, st'. split; [exact Hc|]. split; [eauto using frame_trans|].
    split; [congruence|done].
Qed.

(** What each stage leaves as it was. *)
Lemma limitStage_outputs axis raw (st st' : pidState F) sp :
  limitStage axis raw st = Some (sp, st') ->
  outputs st' = outputs st /\ store st' = store st
  /\ previousRateError st' = previousRateError st.
Proof.
  unfold limitStage, accelerationLimit. intros Hs. unbind Hs.
  case_match; [unbind Hs|]; simplify_eq; done.
Qed.

Lemma setpointStage_outputs pidProfile angleTrim env axis (st st' : pidState F) sp :
  setpointStage pidProfile angleTrim env axis st = Some (sp, st') ->
  outputs st' = outputs st /\ store st' = store st
  /\ previousRateError st' = previousRateError st.
Proof.
  unfold setpointStage. intros Hs. unbind Hs.
  match goal with E : limitStage _ _ _ = Some _ |- _ =>
    apply limitStage_outputs in E end.
  destruct (_ && _) in Hs; injection Hs as <- <-; done.
Qed.

Lemma ptermStage_outputs tpa axis e (st st' : pidState F) :
  ptermStage tpa axis e st = Some st' ->
  axisPID_I st' = axisPID_I st /\ axisPID_D st' = axisPID_D st
  /\ previousSetpoint st' = previousSetpoint st
  /\ previousRateError st' = previousRateError st.
Proof.
  unfold ptermStage. intros Hs. unbind Hs. simplify_eq. done.
Qed.

Lemma ptermStage_store tpa axis e (st st' : pidState F) :
  ptermStage tpa axis e st = Some st' -> axis <> FD_YAW -> store st' = store st.
Proof.
  unfold ptermStage. intros Hs Hny. apply Nat.eqb_neq in Hny. rewrite Hny in Hs.
  unbind Hs. simplify_eq. done.
Qed.

Lemma itermStage_outputs env dynKi axis e (st st' : pidState F) :
  itermStage env dynKi axis e st = Some st' ->
  axisPID_P st' = axisPID_P st /\ axisPID_D st' = axisPID_D st
  /\ store st' = store st
  /\ previousSetpoint st' = previousSetpoint st
  /\ previousRateError st' = previousRateError st.
Proof.
  unfold itermStage. intros Hs. unbind Hs. simplify_eq. done.
Qed.

Lemma dtermStage_outputs pidProfile env tpa axis sp g (st st' : pidState F) :
  dtermStage pidProfile env tpa axis sp g st = Some st' ->
  axisPID_P st' = axisPID_P st /\ axisPID_I st' = axisPID_I st
  /\ previousSetpoint st' = previousSetpoint st.
Proof.
  unfold dtermStage. intros Hs. unbind Hs. simplify_eq. done.
Qed.

(** The gate writes the three output arrays only. *)
Lemma stabilisationGate_history axis (st st' : pidState F) :
  stabilisationGate axis st = Some st' ->
  previousSetpoint st' = previousSetpoint st
  /\ previousRateError st' = previousRateError st
  /\ store st' = store st.
Proof.
  unfold stabilisationGate. intros Hs.
  case_match; [unbind Hs|]; simplify_eq; done.
Qed.

(** The P term the iteration of an axis leaves: [Kp[axis] * errorRate],
    times the throttle attenuation (on Yaw unless [disableTPAForYaw]),
    on Yaw passed through the yaw filter. *)
Lemma pidAxis_pterm pidProfile angleTrim env tpa dynKi axis (st st' : pidState F)
    sp expected kp :
  pidAxis pidProfile angleTrim env tpa dynKi axis st = Some st' ->
  shapedSetpoint pidProfile angleTrim env axis st = Some sp ->
  expectedGyroError st !! axis = Some expected ->
  Kp (gains st) !! axis = Some kp ->
  let errorRate := fadd (fsub sp (gyroADCf env axis)) expected in
  exists p m m',
    (if axis =? FD_YAW then
       filterApply (ptermYawFilterApplyFn (bank st)) (ptermYawFilter (bank st))
         (if negb (disableTPAForYaw st) then fmul (fmul kp errorRate) tpa
          else fmul kp errorRate) m
     else Some (fmul (fmul kp errorRate) tpa, m)) = Some (p, m')
    /\ axisPID_P st' !! axis = Some (if pidStabilisationEnabled st then p else f0)
    /\ m = store st.
Proof.
  intros Hs Hsp Hexp Hkp errorRate. pose proof Hs as Hs0.
  unfold pidAxis in Hs. unfold shapedSetpoint in Hsp.
  destruct (setpointStage _ _ _ _ st) as [[sp' u]|] eqn:E1; [simpl in Hs, Hsp|done].
  injection Hsp as ->.
  pose proof (setpointStage_frame _ _ _ _ _ _ _ E1) as Fu.
  assert (expectedGyroError u = expectedGyroError st) as Hexpu
    by (unfold frame in Fu; tauto).
  rewrite Hexpu, Hexp in Hs. simpl in Hs. fold errorRate in Hs.
  destruct (ptermStage _ _ _ u) as [v|] eqn:E2; [simpl in Hs|done].
  pose proof (ptermStage_frame _ _ _ _ _ E2) as Fv.
  unfold ptermStage in E2.
  replace (gains u) with (gains st) in E2 by (unfold frame in Fu; symmetry; tauto).
  replace (bank u) with (bank st) in E2 by (unfold frame in Fu; symmetry; tauto).
  replace (disableTPAForYaw u) with (disableTPAForYaw st) in E2
    by (unfold frame in Fu; symmetry; tauto).
  rewrite Hkp in E2. simpl in E2.
  match type of E2 with (?f ≫= _) = _ => destruct f as [[p m']|] eqn:Ef end;
    [simpl in E2|done].
  exists p, (store u), m'. split; [exact Ef|].
  split; [|by apply setpointStage_outputs in E1 as (_ & -> & _)].
  destruct (pidStabilisationEnabled st) eqn:Hen;
    [|apply pidAxis_off in Hs0; [congruence|done]].
  unbind E2. injection E2 as <-.
  match goal with E : aset _ _ _ = Some _ |- _ => apply aset_Some in E as [? ->] end.
  destruct (itermStage _ _ _ _ _) as [w|] eqn:E3; [simpl in Hs|done].
  pose proof (itermStage_frame _ _ _ _ _ _ E3) as Fw.
  apply itermStage_outputs in E3 as (Pw & _).
  assert (pidStabilisationEnabled w = true) as Henw
    by (unfold frame in Fu, Fv, Fw; destruct_and!; congruence).
  assert (axisPID_P w !! axis = Some p) as HPw.
  { rewrite Pw. setters. by rewrite list_lookup_insert_eq by done. }
  destruct (negb (axis =? FD_YAW) || triMixerInUse env).
  - destruct (dtermStage _ _ _ _ _ _ w) as [z|] eqn:E4; [simpl in Hs|done].
    pose proof (dtermStage_frame _ _ _ _ _ _ _ _ E4) as Fz.
    apply dtermStage_outputs in E4 as (Pz & _).
    apply stabilisationGate_on in Hs;
      [|unfold frame in Fz; destruct_and!; congruence].
    congruence.
  - simpl in Hs. apply stabilisationGate_on in Hs; [|done]. congruence.
Qed.

(** The D term the iteration of Roll or Pitch leaves: [Kd[axis] * delta
    * tpaFactor], where [delta] is the change of the weighted error
    since the last tick divided by [dT], passed through the notch and
    then through the low-pass of the axis; the weighted error is
    stored for the next tick. *)
Lemma pidAxis_dterm pidProfile angleTrim env tpa dynKi axis (st st' : pidState F)
    sp previous kd :
  pidAxis pidProfile angleTrim env tpa dynKi axis st = Some st' ->
  axis <> FD_YAW ->
  shapedSetpoint pidProfile angleTrim env axis st = Some sp ->
  previousRateError st !! axis = Some previous ->
  Kd (gains st) !! axis = Some kd ->
  let rD := dtermError pidProfile env axis sp (gyroADCf env axis) st in
  let delta := fdiv (fsub rD previous) (dT st) in
  exists notch lpf m d1 m1 d2 m2,
    dtermFilterNotch (bank st) !! axis = Some notch
    /\ dtermFilterLpf (bank st) !! axis = Some lpf
    /\ filterApply (dtermNotchFilterApplyFn (bank st)) notch
         (fmul (fmul kd delta) tpa) m = Some (d1, m1)
    /\ filterApply (dtermLpfApplyFn (bank st)) lpf d1 m1 = Some (d2, m2)
    /\ axisPID_D st' !! axis = Some (if pidStabilisationEnabled st then d2 else f0)
    /\ previousRateError st' !! axis = Some rD
    /\ m = store st.
Proof.
  intros Hs Hny Hsp Hprev Hkd rD delta. pose proof Hs as Hs0.
  unfold pidAxis in Hs. unfold shapedSetpoint in Hsp.
  destruct (setpointStage _ _ _ _ st) as [[sp' u]|] eqn:E1; [simpl in Hs, Hsp|done].
  injection Hsp as ->.
  pose proof (setpointStage_frame _ _ _ _ _ _ _ E1) as Fu.
  apply setpointStage_outputs in E1 as (_ & Mu & Ru).
  destruct (expectedGyroError u !! axis) as [expected|]; [simpl in Hs|done].
  destruct (ptermStage _ _ _ u) as [v|] eqn:E2; [simpl in Hs|done].
  pose proof (ptermStage_frame _ _ _ _ _ E2) as Fv.
  pose proof (ptermStage_store _ _ _ _ _ E2 Hny) as Mv.
  apply ptermStage_outputs in E2 as (_ & _ & _ & Rv).
  destruct (itermStage _ _ _ _ v) as [w|] eqn:E3; [simpl in Hs|done].
  pose proof (itermStage_frame _ _ _ _ _ _ E3) as Fw.
  apply itermStage_outputs in E3 as (_ & _ & Mw & _ & Rw).
  replace (axis =? FD_YAW) with false in Hs
    by (symmetry; by apply Nat.eqb_neq).
  simpl in Hs.
  destruct (dtermStage _ _ _ _ _ _ w) as [z|] eqn:E4; [simpl in Hs|done].
  pose proof (dtermStage_frame _ _ _ _ _ _ _ _ E4) as Fz.
  apply dtermStage_term in E4
    as (previous' & kd' & notch & lpf & d1 & m1 & d2 & m2
        & Hp' & Hk' & Hn & Hl & Hf1 & Hf2 & HD & HR).
  assert (gains w = gains st /\ bank w = bank st /\ dT w = dT st
          /\ pidStabilisationEnabled z = pidStabilisationEnabled st)
    as (Hg & Hb & Ht & Hez)
    by (unfold frame in Fu, Fv, Fw, Fz; destruct_and!; repeat split; congruence).
  assert (dtermError pidProfile env axis sp (gyroADCf env axis) w = rD) as HrD
    by (unfold rD, dtermError; by rewrite Hg).
  rewrite HrD, Hg, Hb, Ht in *.
  assert (previous' = previous) as -> by congruence.
  assert (kd' = kd) as -> by congruence.
  exists notch, lpf, (store w), d1, m1, d2, m2.
  do 4 (split; [done|]).
  pose proof (stabilisationGate_history _ _ _ Hs) as (_ & Rz & _).
  split; [|split; congruence].
  destruct (pidStabilisationEnabled st) eqn:Hen.
  - apply stabilisationGate_on in Hs; [|congruence]. congruence.
  - apply pidAxis_off in Hs0; [congruence|done].
Qed.

(** *** The axes do not interfere *)

Lemma shapedSetpoint_agree pidProfile angleTrim env1 env2 j (st : pidState F) :
  agreeOn j env1 env2 ->
  shapedSetpoint pidProfile angleTrim env1 j st
  = shapedSetpoint pidProfile angleTrim env2 j st.
Proof.
  intros (Htpa & Hmix & Htri & Hangle & Hhorizon & Hroll & Hpitch & Hsp & Hdefl
          & Habs & Hgyro & Hatt & Hgps & Hsat).
  unfold shapedSetpoint, setpointStage. rewrite Hsp, Hangle, Hhorizon.
  destruct (limitStage j (getSetpointRate env2 j) st) as [[sp u]|]; [simpl|done].
  destruct (_ && _); [|done]. simpl. f_equal.
  unfold pidLevel, calcHorizonLevelStrength.
  rewrite Hangle, Hdefl, Hatt, Hroll, Hpitch.
  destruct (GPS_angle env1) as [a1|], (GPS_angle env2) as [a2|];
    simpl in Hgps; try discriminate Hgps; [|done].
  injection Hgps as ->. done.
Qed.

Lemma notch_handle (b : filterBank) a h :
  bankLayout b = true -> dtermFilterNotch b !! a = Some h ->
  dtermNotchFilterApplyFn b = nullFilterApply \/ h = BiquadNotchPtr a.
Proof.
  unfold bankLayout, notchSelected.
  rewrite !andb_true_iff, !orb_true_iff, !bool_decide_eq_true.
  intros ((((_ & _) & [Hfn | [_ Hh]]) & _) & _) Ha; [by left|right].
  rewrite Hh in Ha. destruct a as [|[|a]]; simpl in Ha; [congruence..|].
  by rewrite lookup_nil in Ha.
Qed.

Lemma lpf_handle (b : filterBank) a h :
  bankLayout b = true -> dtermFilterLpf b !! a = Some h ->
  dtermLpfApplyFn b = nullFilterApply
  \/ h = Pt1Ptr a \/ h = BiquadPtr a \/ h = DenoisePtr a.
Proof.
  unfold bankLayout, lpfSelected.
  rewrite !andb_true_iff, !orb_true_iff, !bool_decide_eq_true.
  intros ((((_ & _) & _) & [[[Hfn | [_ Hh]] | [_ Hh]] | [_ Hh]]) & _) Ha;
    [by left|..];
    right; rewrite Hh in Ha; destruct a as [|[|a]]; simpl in Ha;
    rewrite ?lookup_nil in Ha; try discriminate Ha; injection Ha as <-; tauto.
Qed.

Lemma yaw_handle (b : filterBank) :
  bankLayout b = true ->
  ptermYawFilterApplyFn b = nullFilterApply \/ ptermYawFilter b = Pt1YawPtr.
Proof.
  unfold bankLayout, yawSelected.
  rewrite !andb_true_iff, !orb_true_iff, !bool_decide_eq_true.
  intros (_ & [Hfn | [_ Hh]]); tauto.
Qed.

(** A filter of axis [a] updates the structure of that axis only, and
    its output depends on that structure only. *)
Lemma filterApply_axis fn a h x (m m' : filterStore F) y :
  filterApply fn h x m = Some (y, m') ->
  fn = nullFilterApply
  \/ h = BiquadNotchPtr a \/ h = Pt1Ptr a \/ h = BiquadPtr a \/ h = DenoisePtr a ->
  (forall j, j <> a -> structsAt j m' = structsAt j m)
  /\ pt1FilterYaw m' = pt1FilterYaw m.
Proof.
  intros Hf Hh. unfold structsAt.
  destruct Hh as [->|Hh].
  - simpl in Hf. injection Hf as _ <-. done.
  - destruct fn, h; simpl in Hf; try discriminate Hf;
      try (injection Hf as _ <-; done);
      destruct Hh as [Hh|[Hh|[Hh|Hh]]]; try discriminate Hh;
      injection Hh as ->; unbind Hf; injection Hf as _ <-; simpl;
      (split; [|done]); intros j Hj; by rewrite list_lookup_insert_ne.
Qed.

Lemma filterApply_axis_agree fn a h x (m1 m2 m1' m2' : filterStore F) y1 y2 :
  filterApply fn h x m1 = Some (y1, m1') ->
  filterApply fn h x m2 = Some (y2, m2') ->
  fn = nullFilterApply
  \/ h = BiquadNotchPtr a \/ h = Pt1Ptr a \/ h = BiquadPtr a \/ h = DenoisePtr a ->
  structsAt a m1 = structsAt a m2 ->
  y1 = y2 /\ structsAt a m1' = structsAt a m2'.
Proof.
  intros H1 H2 Hh Hm. unfold structsAt in *.
  injection Hm as HmN HmP HmB HmD.
  destruct Hh as [->|Hh].
  - simpl in H1, H2. injection H1 as <- <-. injection H2 as <- <-.
    split; [done|]. congruence.
  - destruct fn, h; simpl in H1, H2; try discriminate H1;
      try (injection H1 as <- <-; injection H2 as <- <-; split; [done|congruence]);
      destruct Hh as [Hh|[Hh|[Hh|Hh]]]; try discriminate Hh;
      injection Hh as ->; unbind H1; unbind H2;
      injection H1 as <- <-; injection H2 as <- <-; simpl;
      repeat match goal with E : _ !! _ = Some _ |- _ =>
        pose proof (lookup_lt_Some _ _ _ E); revert E end; intros;
      rewrite ?list_lookup_insert_eq by done;
      split; congruence.
Qed.

Lemma filterApply_yaw fn h x (m m' : filterStore F) y :
  filterApply fn h x m = Some (y, m') ->
  fn = nullFilterApply \/ h = Pt1YawPtr ->
  forall j, structsAt j m' = structsAt j m.
Proof.
  intros Hf Hh j. unfold structsAt.
  destruct Hh as [->| ->].
  - simpl in Hf. injection Hf as _ <-. done.
  - destruct fn; simpl in Hf; try discriminate Hf; injection Hf as _ <-; done.
Qed.

Lemma filterApply_yaw_agree fn h x (m1 m2 m1' m2' : filterStore F) y1 y2 :
  filterApply fn h x m1 = Some (y1, m1') ->
  filterApply fn h x m2 = Some (y2, m2') ->
  fn = nullFilterApply \/ h = Pt1YawPtr ->
  pt1FilterYaw m1 = pt1FilterYaw m2 ->
  y1 = y2.
Proof.
  intros H1 H2 Hh Hm.
  destruct Hh as [->| ->].
  - simpl in H1, H2. congruence.
  - destruct fn; simpl in H1, H2; try discriminate H1; congruence.
Qed.

Lemma ptermStage_structs tpa a e (st st' : pidState F) :
  bankLayout (bank st) = true -> ptermStage tpa a e st = Some st' ->
  forall j, structsAt j (store st') = structsAt j (store st).
Proof.
  intros Hb Hs j. unfold ptermStage in Hs. unbind Hs. injection Hs as <-.
  setters.
  destruct (a =? FD_YAW).
  - match goal with E : filterApply _ _ _ _ = Some _ |- _ =>
      apply (filterApply_yaw _ _ _ _ _ _ E) end.
    apply yaw_handle. exact Hb.
  - by simplify_eq.
Qed.

Lemma dtermStage_structs pidProfile env tpa a sp g (st st' : pidState F) :
  bankLayout (bank st) = true ->
  dtermStage pidProfile env tpa a sp g st = Some st' ->
  (forall j, j <> a -> structsAt j (store st') = structsAt j (store st))
  /\ pt1FilterYaw (store st') = pt1FilterYaw (store st).
Proof.
  intros Hb Hs. unfold dtermStage in Hs. unbind Hs. injection Hs as <-.
  setters.
  match goal with
  | En : dtermFilterNotch (bank st) !! a = Some ?n,
    Fn : filterApply _ ?n _ (store st) = Some (_, ?m1),
    El : dtermFilterLpf (bank st) !! a = Some ?l,
    Fl : filterApply _ ?l _ ?m1 = Some (_, _) |- _ =>
      destruct (filterApply_axis _ a _ _ _ _ _ Fn) as (N1 & N2);
        [destruct (notch_handle _ _ _ Hb En); tauto|];
      destruct (filterApply_axis _ a _ _ _ _ _ Fl) as (L1 & L2);
        [destruct (lpf_handle _ _ _ Hb El); tauto|]
  end.
  split; [|congruence]. intros j Hj. rewrite L1, N1 by done. done.
Qed.

(** The iteration of an axis leaves the filter structures of the
    other axes, and an iteration of Roll or Pitch leaves the structure
    of the yaw filter. *)
Lemma pidAxis_structs pidProfile angleTrim env tpa dynKi a (st st' : pidState F) :
  bankLayout (bank st) = true ->
  pidAxis pidProfile angleTrim env tpa dynKi a st = Some st' ->
  (forall j, j <> a -> structsAt j (store st') = structsAt j (store st))
  /\ (a <> FD_YAW -> pt1FilterYaw (store st') = pt1FilterYaw (store st)).
Proof.
  intros Hb Hs. unfold pidAxis in Hs.
  destruct (setpointStage _ _ _ _ st) as [[sp u]|] eqn:E1; [simpl in Hs|done].
  pose proof (setpointStage_frame _ _ _ _ _ _ _ E1) as Fu.
  apply setpointStage_outputs in E1 as (_ & Mu & _).
  destruct (expectedGyroError u !! a) as [expected|]; [simpl in Hs|done].
  destruct (ptermStage _ _ _ u) as [v|] eqn:E2; [simpl in Hs|done].
  pose proof (ptermStage_frame _ _ _ _ _ E2) as Fv.
  assert (bankLayout (bank u) = true) as Hbu
    by (unfold frame in Fu; destruct_and!; congruence).
  pose proof (ptermStage_structs _ _ _ _ _ Hbu E2) as Sv.
  pose proof (ptermStage_store _ _ _ _ _ E2) as Mv.
  destruct (itermStage _ _ _ _ v) as [w|] eqn:E3; [simpl in Hs|done].
  pose proof (itermStage_frame _ _ _ _ _ _ E3) as Fw.
  apply itermStage_outputs in E3 as (_ & _ & Mw & _).
  assert (bankLayout (bank w) = true) as Hbw
    by (unfold frame in Fv, Fw; destruct_and!; congruence).
  assert ((forall j, structsAt j (store w) = structsAt j (store st))
          /\ (a <> FD_YAW -> pt1FilterYaw (store w) = pt1FilterYaw (store st)))
    as (Sw & Yw).
  { split; [intros j; rewrite Mw, Sv, Mu; done|].
    intros Hny. rewrite Mw, (Mv Hny), Mu. done. }
  destruct (negb (a =? FD_YAW) || triMixerInUse env).
  - destruct (dtermStage _ _ _ _ _ _ w) as [z|] eqn:E4; [simpl in Hs|done].
    apply (dtermStage_structs _ _ _ _ _ _ _ _ Hbw) in E4 as (Sz & Yz).
    apply stabilisationGate_history in Hs as (_ & _ & Mz).
    rewrite Mz. split.
    + intros j Hj. rewrite Sz by done. apply Sw.
    + intros Hny. rewrite Yz. by apply Yw.
  - simpl in Hs. apply stabilisationGate_history in Hs as (_ & _ & Mz).
    rewrite Mz. split; [intros j _; apply Sw|exact Yw].
Qed.

(** As [pidController_at], with the filter structures the iteration
    of the axis finds. *)
Lemma pidController_at_store pidProfile angleTrim env (st st' : pidState F) axis :
  layout st = true ->
  pidController pidProfile angleTrim env st = Some st' -> axis < 3 ->
  exists s s',
    pidAxis pidProfile angleTrim env (getThrottlePIDAttenuation env)
      (dynKiOf (getMotorMixRange env) (ITermWindupPointInv (gains st))) axis s = Some s'
    /\ frame st s
    /\ entriesAt axis s = entriesAt axis st
    /\ entriesAt axis st' = entriesAt axis s'
    /\ structsAt axis (store s) = structsAt axis (store st)
    /\ (axis = FD_YAW -> pt1FilterYaw (store s) = pt1FilterYaw (store st)).
Proof.
  intros Hl Hs Hax.
  assert (bankLayout (bank st) = true) as Hb by (apply layout_spec in Hl; tauto).
  apply pidController_axes in Hs as (a & b & Ha & Hb' & Hc). simpl in Ha, Hb', Hc.
  pose proof (pidAxis_frame _ _ _ _ _ _ _ _ Ha) as Fa.
  pose proof (pidAxis_frame _ _ _ _ _ _ _ _ Hb') as Fb.
  assert (bankLayout (bank a) = true) as Hba
    by (unfold frame in Fa; destruct_and!; congruence).
  pose proof (pidAxis_structs _ _ _ _ _ _ _ _ Hb Ha) as (Sa & Ya).
  pose proof (pidAxis_structs _ _ _ _ _ _ _ _ Hba Hb') as (Sb & Yb).
  pose proof (pidAxis_other _ _ _ _ _ _ _ _ FD_PITCH Ha ltac:(done)) as Pa.
  pose proof (pidAxis_other _ _ _ _ _ _ _ _ FD_YAW Ha ltac:(done)) as Ya'.
  pose proof (pidAxis_other _ _ _ _ _ _ _ _ FD_YAW Hb' ltac:(done)) as Yb'.
  pose proof (pidAxis_other _ _ _ _ _ _ _ _ FD_ROLL Hb' ltac:(done)) as Rb.
  pose proof (pidAxis_other _ _ _ _ _ _ _ _ FD_ROLL Hc ltac:(done)) as Rc.
  pose proof (pidAxis_other _ _ _ _ _ _ _ _ FD_PITCH Hc ltac:(done)) as Pc.
  unfold FD_ROLL, FD_PITCH, FD_YAW in *.
  destruct axis as [|[|[|]]]; [| | |lia].
  - exists st, a. split; [exact Ha|]. split; [apply frame_refl|].
    split; [done|]. split; [congruence|]. split; [done|]. intros Hy. discriminate Hy.
  - exists a, b. split; [exact Hb'|]. split; [exact Fa|]. split; [done|].
    split; [done|]. split; [by apply Sa|]. intros Hy. discriminate Hy.
  - exists b, st'. split; [exact Hc|]. split; [eauto using frame_trans|].
    split; [congruence|]. split; [done|].
    split; [rewrite Sb, Sa by done; done|].
    intros _. rewrite Yb, Ya by done. done.
Qed.

Lemma limitStage_previous axis raw (st st' : pidState F) sp prev maxV :
  limitStage axis raw st = Some (sp, st') ->
  previousSetpoint st !! axis = Some prev ->
  maxVelocity (gains st) !! axis = Some maxV ->
  previousSetpoint st' !! axis
  = Some (if fnonzero maxV then limitedSetpoint prev maxV raw else prev).
Proof.
  unfold limitStage, accelerationLimit. intros Hs Hp Hv.
  rewrite Hv in Hs. simpl in Hs. destruct (fnonzero maxV).
  - rewrite Hp in Hs. simpl in Hs. unbind Hs. injection Hs as _ <-.
    match goal with E : aset _ _ _ = Some _ |- _ => apply aset_Some in E as [? ->] end.
    setters. by rewrite list_lookup_insert_eq.
  - injection Hs as _ <-. exact Hp.
Qed.

Lemma pidAxis_previousSetpoint pidProfile angleTrim env tpa dynKi axis
    (st st' : pidState F) prev maxV :
  pidAxis pidProfile angleTrim env tpa dynKi axis st = Some st' ->
  previousSetpoint st !! axis = Some prev ->
  maxVelocity (gains st) !! axis = Some maxV ->
  previousSetpoint st' !! axis
  = Some (if fnonzero maxV
          then limitedSetpoint prev maxV (getSetpointRate env axis) else prev).
Proof.
  intros Hs Hp Hv. unfold pidAxis in Hs.
  destruct (setpointStage _ _ _ _ st) as [[sp u]|] eqn:E1; [simpl in Hs|done].
  assert (previousSetpoint u !! axis
          = Some (if fnonzero maxV
                  then limitedSetpoint prev maxV (getSetpointRate env axis) else prev))
    as Hu.
  { unfold setpointStage in E1.
    destruct (limitStage _ _ st) as [[sp0 u0]|] eqn:E0; [simpl in E1|done].
    pose proof (limitStage_previous _ _ _ _ _ _ _ E0 Hp Hv) as H0.
    destruct (_ && _) in E1; injection E1 as _ <-; exact H0. }
  destruct (expectedGyroError u !! axis) as [expected|]; [simpl in Hs|done].
  destruct (ptermStage _ _ _ u) as [v|] eqn:E2; [simpl in Hs|done].
  apply ptermStage_outputs in E2 as (_ & _ & Sv & _).
  destruct (itermStage _ _ _ _ v) as [w|] eqn:E3; [simpl in Hs|done].
  apply itermStage_outputs in E3 as (_ & _ & _ & Sw & _).
  destruct (negb (axis =? FD_YAW) || triMixerInUse env).
  - destruct (dtermStage _ _ _ _ _ _ w) as [z|] eqn:E4; [simpl in Hs|done].
    apply dtermStage_outputs in E4 as (_ & _ & Sz).
    apply stabilisationGate_history in Hs as (Ss & _). congruence.
  - simpl in Hs. apply stabilisationGate_history in Hs as (Ss & _). congruence.
Qed.

(** *** The filters of an axis, on the structures the tick finds *)

(** A filter of axis [a] gives the same output, and leaves the same
    structures of the axis, on every store that holds the same
    structures of the axis. *)
Lemma filterApply_axis_transfer fn a h x (m1 m2 m1' : filterStore F) y :
  filterApply fn h x m1 = Some (y, m1') ->
  fn = nullFilterApply
  \/ h = BiquadNotchPtr a \/ h = Pt1Ptr a \/ h = BiquadPtr a \/ h = DenoisePtr a ->
  structsAt a m1 = structsAt a m2 ->
  exists m2', filterApply fn h x m2 = Some (y, m2')
    /\ structsAt a m2' = structsAt a m1'.
Proof.
  intros H1 Hh Hm. unfold structsAt in *.
  injection Hm as HmN HmP HmB HmD.
  destruct Hh as [->|Hh].
  - simpl in H1. injection H1 as <- <-. eexists. split; [reflexivity|]. congruence.
  - destruct fn, h; simpl in H1; try discriminate H1;
      try (injection H1 as <- <-; eexists; split; [reflexivity|congruence]);
      destruct Hh as [Hh|[Hh|[Hh|Hh]]]; try discriminate Hh;
      injection Hh as ->; unbind H1; injection H1 as <- <-; simpl;
      match goal with E : _ !! _ = Some _ |- _ =>
        pose proof (lookup_lt_Some _ _ _ E) as Hlt;
        first [rewrite HmN in E|rewrite HmP in E|rewrite HmB in E|rewrite HmD in E];
        pose proof (lookup_lt_Some _ _ _ E) as Hlt';
        rewrite E end; simpl;
      (eexists; split; [reflexivity|]); simpl;
      rewrite ?list_lookup_insert_eq by done; congruence.
Qed.

Lemma filterApply_yaw_transfer fn h x (m1 m2 m1' : filterStore F) y :
  filterApply fn h x m1 = Some (y, m1') ->
  fn = nullFilterApply \/ h = Pt1YawPtr ->
  pt1FilterYaw m1 = pt1FilterYaw m2 ->
  exists m2', filterApply fn h x m2 = Some (y, m2')
    /\ pt1FilterYaw m2' = pt1FilterYaw m1'.
Proof.
  intros H1 Hh Hm.
  destruct Hh as [->| ->].
  - simpl in H1. injection H1 as <- <-. eexists. split; [reflexivity|]. congruence.
  - destruct fn; simpl in H1; try discriminate H1; injection H1 as <- <-;
      simpl; rewrite <- ?Hm; (eexists; split; [reflexivity|]); simpl; congruence.
Qed.

(** The store the derivative stage leaves is the one its low-pass
    filter returns. *)
Lemma dtermStage_store pidProfile env tpa axis sp g (st st' : pidState F)
    previous kd notch lpf d1 m1 d2 m2 :
  dtermStage pidProfile env tpa axis sp g st = Some st' ->
  previousRateError st !! axis = Some previous ->
  Kd (gains st) !! axis = Some kd ->
  dtermFilterNotch (bank st) !! axis = Some notch ->
  dtermFilterLpf (bank st) !! axis = Some lpf ->
  filterApply (dtermNotchFilterApplyFn (bank st)) notch
    (fmul (fmul kd (fdiv (fsub (dtermError pidProfile env axis sp g st) previous)
                         (dT st))) tpa) (store st) = Some (d1, m1) ->
  filterApply (dtermLpfApplyFn (bank st)) lpf d1 m1 = Some (d2, m2) ->
  store st' = m2.
Proof.
  unfold dtermStage. intros Hs Hp Hk Hn Hl Hf1 Hf2.
  rewrite Hp in Hs. cbn [mbind option_bind] in Hs.
  destruct (aset (previousRateError st) axis _) as [errors|];
    [cbn [mbind option_bind] in Hs|done].
  rewrite Hk in Hs. cbn [mbind option_bind] in Hs.
  rewrite Hn in Hs. cbn [mbind option_bind] in Hs.
  rewrite Hf1 in Hs. cbn [mbind option_bind] in Hs.
  rewrite Hl in Hs. cbn [mbind option_bind] in Hs.
  rewrite Hf2 in Hs. cbn [mbind option_bind] in Hs.
  destruct (aset (axisPID_D st) axis d2) as [l|];
    [cbn [mbind option_bind] in Hs|done].
  by injection Hs as <-.
Qed.

(** The store the iteration of Roll or Pitch leaves is the one the
    low-pass filter of its derivative returns. *)
Lemma pidAxis_dterm_store pidProfile angleTrim env tpa dynKi axis (st st' : pidState F)
    sp previous kd notch lpf d1 m1 d2 m2 :
  pidAxis pidProfile angleTrim env tpa dynKi axis st = Some st' ->
  axis <> FD_YAW ->
  shapedSetpoint pidProfile angleTrim env axis st = Some sp ->
  previousRateError st !! axis = Some previous ->
  Kd (gains st) !! axis = Some kd ->
  dtermFilterNotch (bank st) !! axis = Some notch ->
  dtermFilterLpf (bank st) !! axis = Some lpf ->
  filterApply (dtermNotchFilterApplyFn (bank st)) notch
    (fmul (fmul kd (fdiv (fsub (dtermError pidProfile env axis sp (gyroADCf env axis) st)
                               previous) (dT st))) tpa) (store st) = Some (d1, m1) ->
  filterApply (dtermLpfApplyFn (bank st)) lpf d1 m1 = Some (d2, m2) ->
  store st' = m2.
Proof.
  intros Hs Hny Hsp Hprev Hkd Hn Hl Hf1 Hf2.
  unfold pidAxis in Hs. unfold shapedSetpoint in Hsp.
  destruct (setpointStage _ _ _ _ st) as [[sp' u]|] eqn:E1; [simpl in Hs, Hsp|done].
  injection Hsp as ->.
  pose proof (setpointStage_frame _ _ _ _ _ _ _ E1) as Fu.
  apply setpointStage_outputs in E1 as (_ & Mu & Ru).
  destruct (expectedGyroError u !! axis) as [expected|]; [simpl in Hs|done].
  destruct (ptermStage _ _ _ u) as [v|] eqn:E2; [simpl in Hs|done].
  pose proof (ptermStage_frame _ _ _ _ _ E2) as Fv.
  pose proof (ptermStage_store _ _ _ _ _ E2 Hny) as Mv.
  apply ptermStage_outputs in E2 as (_ & _ & _ & Rv).
  destruct (itermStage _ _ _ _ v) as [w|] eqn:E3; [simpl in Hs|done].
  pose proof (itermStage_frame _ _ _ _ _ _ E3) as Fw.
  apply itermStage_outputs in E3 as (_ & _ & Mw & _ & Rw).
  replace (axis =? FD_YAW) with false in Hs
    by (symmetry; by apply Nat.eqb_neq).
  simpl in Hs.
  destruct (dtermStage _ _ _ _ _ _ w) as [z|] eqn:E4; [simpl in Hs|done].
  assert (gains w = gains st /\ bank w = bank st /\ dT w = dT st)
    as (Hg & Hb & Ht)
    by (unfold frame in Fu, Fv, Fw; destruct_and!; repeat split; congruence).
  assert (dtermError pidProfile env axis sp (gyroADCf env axis) w
          = dtermError pidProfile env axis sp (gyroADCf env axis) st) as HrD
    by (unfold dtermError; by rewrite Hg).
  assert (store w = store st) as Hm by congruence.
  apply stabilisationGate_history in Hs as (_ & _ & ->).
  apply (dtermStage_store _ _ _ _ _ _ _ _ previous kd notch lpf d1 m1 d2 m2 E4);
    rewrite ?HrD, ?Hg, ?Hb, ?Ht, ?Hm; try done; congruence.
Qed.

(** With the plain mixer the store the iteration of Yaw leaves is the
    one the yaw filter returns. *)
Lemma pidAxis_yaw_store pidProfile angleTrim env tpa dynKi (st st' : pidState F)
    sp expected kp p m' :
  pidAxis pidProfile angleTrim env tpa dynKi FD_YAW st = Some st' ->
  triMixerInUse env = false ->
  shapedSetpoint pidProfile angleTrim env FD_YAW st = Some sp ->
  expectedGyroError st !! FD_YAW = Some expected ->
  Kp (gains st) !! FD_YAW = Some kp ->
  filterApply (ptermYawFilterApplyFn (bank st)) (ptermYawFilter (bank st))
    (if negb (disableTPAForYaw st)
     then fmul (fmul kp (fadd (fsub sp (gyroADCf env FD_YAW)) expected)) tpa
     else fmul kp (fadd (fsub sp (gyroADCf env FD_YAW)) expected)) (store st)
  = Some (p, m') ->
  store st' = m'.
Proof.
  intros Hs Htri Hsp Hexp Hkp Hf.
  unfold pidAxis in Hs. unfold shapedSetpoint in Hsp.
  destruct (setpointStage _ _ _ _ st) as [[sp' u]|] eqn:E1; [simpl in Hs, Hsp|done].
  injection Hsp as ->.
  pose proof (setpointStage_frame _ _ _ _ _ _ _ E1) as Fu.
  apply setpointStage_outputs in E1 as (_ & Mu & Ru).
  assert (expectedGyroError u = expectedGyroError st /\ gains u = gains st
          /\ bank u = bank st /\ disableTPAForYaw u = disableTPAForYaw st)
    as (He & Hg & Hb & Hd) by (unfold frame in Fu; tauto).
  rewrite He, Hexp in Hs. simpl in Hs.
  destruct (ptermStage _ _ _ u) as [v|] eqn:E2; [simpl in Hs|done].
  unfold ptermStage in E2. rewrite Hg, Hb, Hd, Mu, Hkp in E2. simpl in E2.
  rewrite Hf in E2. simpl in E2. unbind E2. injection E2 as <-.
  destruct (itermStage _ _ _ _ _) as [w|] eqn:E3; [simpl in Hs|done].
  apply itermStage_outputs in E3 as (_ & _ & Mw & _).
  rewrite Htri in Hs. simpl in Hs.
  apply stabilisationGate_history in Hs as (_ & _ & ->).
  rewrite Mw. reflexivity.
Qed.

(** As [pidController_at], with the filter structures the iteration
    of the axis finds and those it leaves. *)
Lemma pidController_at_final pidProfile angleTrim env (st st' : pidState F) axis :
  layout st = true ->
  pidController pidProfile angleTrim env st = Some st' -> axis < 3 ->
  exists s s',
    pidAxis pidProfile angleTrim env (getThrottlePIDAttenuation env)
      (dynKiOf (getMotorMixRange env) (ITermWindupPointInv (gains st))) axis s = Some s'
    /\ frame st s
    /\ entriesAt axis s = entriesAt axis st
    /\ entriesAt axis st' = entriesAt axis s'
    /\ structsAt axis (store s) = structsAt axis (store st)
    /\ (axis = FD_YAW -> pt1FilterYaw (store s) = pt1FilterYaw (store st))
    /\ structsAt axis (store st') = structsAt axis (store s')
    /\ (axis = FD_YAW -> store st' = store s').
Proof.
  intros Hl Hs Hax.
  assert (bankLayout (bank st) = true) as Hb by (apply layout_spec in Hl; tauto).
  apply pidController_axes in Hs as (a & b & Ha & Hb' & Hc). simpl in Ha, Hb', Hc.
  pose proof (pidAxis_frame _ _ _ _ _ _ _ _ Ha) as Fa.
  pose proof (pidAxis_frame _ _ _ _ _ _ _ _ Hb') as Fb.
  assert (bankLayout (bank a) = true) as Hba
    by (unfold frame in Fa; destruct_and!; congruence).
  assert (bankLayout (bank b) = true) as Hbb
    by (unfold frame in Fb; destruct_and!; congruence).
  pose proof (pidAxis_structs _ _ _ _ _ _ _ _ Hb Ha) as (Sa & Ya).
  pose proof (pidAxis_structs _ _ _ _ _ _ _ _ Hba Hb') as (Sb & Yb).
  pose proof (pidAxis_structs _ _ _ _ _ _ _ _ Hbb Hc) as (Sc & _).
  pose proof (pidAxis_other _ _ _ _ _ _ _ _ FD_PITCH Ha ltac:(done)) as Pa.
  pose proof (pidAxis_other _ _ _ _ _ _ _ _ FD_YAW Ha ltac:(done)) as Ya'.
  pose proof (pidAxis_other _ _ _ _ _ _ _ _ FD_YAW Hb' ltac:(done)) as Yb'.
  pose proof (pidAxis_other _ _ _ _ _ _ _ _ FD_ROLL Hb' ltac:(done)) as Rb.
  pose proof (pidAxis_other _ _ _ _ _ _ _ _ FD_ROLL Hc ltac:(done)) as Rc.
  pose proof (pidAxis_other _ _ _ _ _ _ _ _ FD_PITCH Hc ltac:(done)) as Pc.
  unfold FD_ROLL, FD_PITCH, FD_YAW in *.
  destruct axis as [|[|[|]]]; [| | |lia].
  - exists st, a. split; [exact Ha|]. split; [apply frame_refl|].
    split; [done|]. split; [congruence|]. split; [done|].
    split; [intros Hy; discriminate Hy|].
    split; [rewrite Sc, Sb by done; done|]. intros Hy. discriminate Hy.
  - exists a, b. split; [exact Hb'|]. split; [exact Fa|]. split; [done|].
    split; [done|]. split; [by apply Sa|].
    split; [intros Hy; discriminate Hy|].
    split; [by apply Sc|]. intros Hy. discriminate Hy.
  - exists b, st'. split; [exact Hc|]. split; [eauto using frame_trans|].
    split; [congruence|]. split; [done|].
    split; [rewrite Sb, Sa by done; done|].
    split; [intros _; rewrite Yb, Ya by done; done|]. done.
Qed.

(** *** The three terms at the end of a tick *)

Ltac at_axis Hs Hax :=
  let s := fresh "s" in let s' := fresh "s'" in
  destruct (pidController_at _ _ _ _ _ _ Hs Hax)
    as (s & s' & ?Hiter & ?Fs & ?Es & ?Es');
  unfold entriesAt in Es, Es';
  injection Es as ?EsP ?EsI ?EsD ?EsS ?EsR;
  injection Es' as ?EsP' ?EsI' ?EsD' ?EsS' ?EsR';
  pose proof Fs as ?Fs0; unfold frame in Fs; destruct_and!.

Ltac at_axis_store Hl Hs Hax :=
  let s := fresh "s" in let s' := fresh "s'" in
  destruct (pidController_at_store _ _ _ _ _ _ Hl Hs Hax)
    as (s & s' & ?Hiter & ?Fs & ?Es & ?Es' & ?Ss & ?Ys);
  unfold entriesAt in Es, Es';
  injection Es as ?EsP ?EsI ?EsD ?EsS ?EsR;
  injection Es' as ?EsP' ?EsI' ?EsD' ?EsS' ?EsR';
  pose proof Fs as ?Fs0; unfold frame in Fs; destruct_and!.

Ltac at_axis_final Hl Hs Hax :=
  let s := fresh "s" in let s' := fresh "s'" in
  destruct (pidController_at_final _ _ _ _ _ _ Hl Hs Hax)
    as (s & s' & ?Hiter & ?Fs & ?Es & ?Es' & ?Ss & ?Ys & ?Ss' & ?Ys');
  unfold entriesAt in Es, Es';
  injection Es as ?EsP ?EsI ?EsD ?EsS ?EsR;
  injection Es' as ?EsP' ?EsI' ?EsD' ?EsS' ?EsR';
  pose proof Fs as ?Fs0; unfold frame in Fs; destruct_and!.

Lemma pidController_shaped pidProfile angleTrim env (st s : pidState F) axis :
  frame st s -> previousSetpoint s !! axis = previousSetpoint st !! axis ->
  shapedSetpoint pidProfile angleTrim env axis s
  = shapedSetpoint pidProfile angleTrim env axis st.
Proof.
  intros Fs Hp. unfold frame in Fs. destruct_and!.
  apply shapedSetpoint_local; congruence.
Qed.

Lemma pidController_iterm pidProfile angleTrim env (st st' : pidState F) axis
    sp expected ITerm ki :
  pidController pidProfile angleTrim env st = Some st' -> axis < 3 ->
  shapedSetpoint pidProfile angleTrim env axis st = Some sp ->
  expectedGyroError st !! axis = Some expected ->
  axisPID_I st !! axis = Some ITerm ->
  Ki (gains st) !! axis = Some ki ->
  let errorRate := fadd (fsub sp (gyroADCf env axis)) expected in
  let dynKi := dynKiOf (getMotorMixRange env) (ITermWindupPointInv (gains st)) in
  axisPID_I st' !! axis
  = Some (if pidStabilisationEnabled st then
            ITermCommitted (mixerIsOutputSaturated env axis errorRate) ITerm
              (ITermCandidate ki errorRate (dT st) dynKi (itermAccelerator st) ITerm)
          else f0).
Proof.
  intros Hs Hax Hsp Hexp HI Hki errorRate dynKi. at_axis Hs Hax.
  assert (shapedSetpoint pidProfile angleTrim env axis s = Some sp) as Hsp'
    by (rewrite <- Hsp; by apply pidController_shaped).
  rewrite EsI'.
  rewrite (pidAxis_iterm _ _ _ _ _ _ _ _ sp expected ITerm ki Hiter Hsp');
    try congruence.
  replace (pidStabilisationEnabled s) with (pidStabilisationEnabled st) by congruence.
  replace (dT s) with (dT st) by congruence.
  replace (itermAccelerator s) with (itermAccelerator st) by congruence.
  reflexivity.
Qed.

Lemma pidController_pterm pidProfile angleTrim env (st st' : pidState F) axis
    sp expected kp :
  layout st = true ->
  pidController pidProfile angleTrim env st = Some st' -> axis < 3 ->
  shapedSetpoint pidProfile angleTrim env axis st = Some sp ->
  expectedGyroError st !! axis = Some expected ->
  Kp (gains st) !! axis = Some kp ->
  let errorRate := fadd (fsub sp (gyroADCf env axis)) expected in
  let tpaFactor := getThrottlePIDAttenuation env in
  exists p m m',
    (if axis =? FD_YAW then
       filterApply (ptermYawFilterApplyFn (bank st)) (ptermYawFilter (bank st))
         (if negb (disableTPAForYaw st) then fmul (fmul kp errorRate) tpaFactor
          else fmul kp errorRate) m
     else Some (fmul (fmul kp errorRate) tpaFactor, m)) = Some (p, m')
    /\ axisPID_P st' !! axis = Some (if pidStabilisationEnabled st then p else f0)
    /\ (axis = FD_YAW -> pt1FilterYaw m = pt1FilterYaw (store st)).
Proof.
  intros Hl Hs Hax Hsp Hexp Hkp errorRate tpaFactor. at_axis_store Hl Hs Hax.
  assert (shapedSetpoint pidProfile angleTrim env axis s = Some sp) as Hsp'
    by (rewrite <- Hsp; by apply pidController_shaped).
  destruct (pidAxis_pterm _ _ _ _ _ _ _ _ sp expected kp Hiter Hsp')
    as (p & m & m' & Hf & HP & ->); try congruence.
  exists p, (store s), m'.
  replace (bank st) with (bank s) by congruence.
  replace (disableTPAForYaw st) with (disableTPAForYaw s) by congruence.
  replace (pidStabilisationEnabled st) with (pidStabilisationEnabled s) by congruence.
  split; [exact Hf|]. split; [congruence|exact Ys].
Qed.

Lemma pidController_dterm pidProfile angleTrim env (st st' : pidState F) axis
    sp previous kd :
  layout st = true ->
  pidController pidProfile angleTrim env st = Some st' -> axis < FD_YAW ->
  shapedSetpoint pidProfile angleTrim env axis st = Some sp ->
  previousRateError st !! axis = Some previous ->
  Kd (gains st) !! axis = Some kd ->
  let rD := dtermError pidProfile env axis sp (gyroADCf env axis) st in
  let delta := fdiv (fsub rD previous) (dT st) in
  exists notch lpf m d1 m1 d2 m2,
    dtermFilterNotch (bank st) !! axis = Some notch
    /\ dtermFilterLpf (bank st) !! axis = Some lpf
    /\ filterApply (dtermNotchFilterApplyFn (bank st)) notch
         (fmul (fmul kd delta) (getThrottlePIDAttenuation env)) m = Some (d1, m1)
    /\ filterApply (dtermLpfApplyFn (bank st)) lpf d1 m1 = Some (d2, m2)
    /\ axisPID_D st' !! axis = Some (if pidStabilisationEnabled st then d2 else f0)
    /\ previousRateError st' !! axis = Some rD
    /\ structsAt axis m = structsAt axis (store st).
Proof.
  intros Hl Hs Hax Hsp Hprev Hkd. cbv zeta.
  assert (axis < 3) as Hax3 by (unfold FD_YAW in Hax; lia).
  assert (axis <> FD_YAW) as Hny by lia.
  at_axis_store Hl Hs Hax3.
  assert (shapedSetpoint pidProfile angleTrim env axis s = Some sp) as Hsp'
    by (rewrite <- Hsp; by apply pidController_shaped).
  destruct (pidAxis_dterm _ _ _ _ _ _ _ _ sp previous kd Hiter Hny Hsp')
    as (notch & lpf & m & d1 & m1 & d2 & m2 & Hn & Hlp & Hf1 & Hf2 & HD & HR & ->);
    try congruence.
  assert (dtermError pidProfile env axis sp (gyroADCf env axis) s
          = dtermError pidProfile env axis sp (gyroADCf env axis) st) as HrD
    by (unfold dtermError; replace (gains s) with (gains st) by congruence;
        reflexivity).
  rewrite HrD in *.
  exists notch, lpf, (store s), d1, m1, d2, m2.
  replace (bank st) with (bank s) by congruence.
  replace (dT st) with (dT s) by congruence.
  replace (pidStabilisationEnabled st) with (pidStabilisationEnabled s) by congruence.
  repeat split; congruence.
Qed.

Lemma pidController_previousSetpoint pidProfile angleTrim env (st st' : pidState F)
    axis prev maxV :
  pidController pidProfile angleTrim env st = Some st' -> axis < 3 ->
  previousSetpoint st !! axis = Some prev ->
  maxVelocity (gains st) !! axis = Some maxV ->
  previousSetpoint st' !! axis
  = Some (if fnonzero maxV
          then limitedSetpoint prev maxV (getSetpointRate env axis) else prev).
Proof.
  intros Hs Hax Hp Hv. at_axis Hs Hax.
  rewrite EsS'.
  apply (pidAxis_previousSetpoint _ _ _ _ _ _ _ _ _ _ Hiter); congruence.
Qed.

(** The P term of Yaw at the end of a tick is the output of the yaw
    filter on the structure the tick finds, and the structure the
    filter returns is the one the tick leaves. *)
Lemma pidController_pterm_yaw pidProfile angleTrim env (st st' : pidState F)
    sp expected kp :
  layout st = true ->
  pidController pidProfile angleTrim env st = Some st' ->
  triMixerInUse env = false ->
  shapedSetpoint pidProfile angleTrim env FD_YAW st = Some sp ->
  expectedGyroError st !! FD_YAW = Some expected ->
  Kp (gains st) !! FD_YAW = Some kp ->
  let errorRate := fadd (fsub sp (gyroADCf env FD_YAW)) expected in
  let tpaFactor := getThrottlePIDAttenuation env in
  let unfiltered :=
    if disableTPAForYaw st then fmul kp errorRate
    else fmul (fmul kp errorRate) tpaFactor in
  exists p m',
    filterApply (ptermYawFilterApplyFn (bank st)) (ptermYawFilter (bank st))
                unfiltered (store st) = Some (p, m')
    /\ axisPID_P st' !! FD_YAW = Some (if pidStabilisationEnabled st then p else f0)
    /\ pt1FilterYaw (store st') = pt1FilterYaw m'.
Proof.
  intros Hl Hs Htri Hsp Hexp Hkp. cbv zeta.
  assert (FD_YAW < 3) as Hax by (unfold FD_YAW; lia).
  assert (bankLayout (bank st) = true) as Hb by (apply layout_spec in Hl; tauto).
  at_axis_final Hl Hs Hax.
  assert (shapedSetpoint pidProfile angleTrim env FD_YAW s = Some sp) as Hsp'
    by (rewrite <- Hsp; by apply pidController_shaped).
  assert (expectedGyroError s !! FD_YAW = Some expected) as Hexp' by congruence.
  assert (Kp (gains s) !! FD_YAW = Some kp) as Hkp' by congruence.
  destruct (pidAxis_pterm _ _ _ _ _ _ _ _ sp expected kp Hiter Hsp' Hexp' Hkp')
    as (p & m & ma & Hf & HP & ->).
  cbn [Nat.eqb FD_YAW] in Hf. fold FD_YAW in Hf.
  pose proof (pidAxis_yaw_store _ _ _ _ _ _ _ sp expected kp p ma
                Hiter Htri Hsp' Hexp' Hkp' Hf) as Hstore.
  replace (bank s) with (bank st) in Hf by congruence.
  replace (disableTPAForYaw s) with (disableTPAForYaw st) in Hf by congruence.
  destruct (filterApply_yaw_transfer _ _ _ _ (store st) _ _ Hf) as (m' & Hf' & Hm').
  { by apply yaw_handle. }
  { by apply Ys. }
  exists p, m'. split.
  - rewrite <- Hf'. by destruct (disableTPAForYaw st).
  - split; [|rewrite (Ys' eq_refl); congruence].
    rewrite EsP', HP.
    by replace (pidStabilisationEnabled s) with (pidStabilisationEnabled st)
      by congruence.
Qed.

(** The D term of Roll or Pitch at the end of a tick is the output of
    the notch and of the low-pass of the axis on the structures the
    tick finds, and the structures the filters return are those the
    tick leaves. *)
Lemma pidController_dterm_filtered pidProfile angleTrim env (st st' : pidState F) axis
    sp previous kd :
  layout st = true ->
  pidController pidProfile angleTrim env st = Some st' -> axis < FD_YAW ->
  shapedSetpoint pidProfile angleTrim env axis st = Some sp ->
  previousRateError st !! axis = Some previous ->
  Kd (gains st) !! axis = Some kd ->
  let rD := dtermError pidProfile env axis sp (gyroADCf env axis) st in
  let delta := fdiv (fsub rD previous) (dT st) in
  exists notch lpf d1 m1 d2 m2,
    dtermFilterNotch (bank st) !! axis = Some notch
    /\ dtermFilterLpf (bank st) !! axis = Some lpf
    /\ filterApply (dtermNotchFilterApplyFn (bank st)) notch
         (fmul (fmul kd delta) (getThrottlePIDAttenuation env)) (store st)
       = Some (d1, m1)
    /\ filterApply (dtermLpfApplyFn (bank st)) lpf d1 m1 = Some (d2, m2)
    /\ axisPID_D st' !! axis = Some (if pidStabilisationEnabled st then d2 else f0)
    /\ previousRateError st' !! axis = Some rD
    /\ structsAt axis (store st') = structsAt axis m2.
Proof.
  intros Hl Hs Hax Hsp Hprev Hkd. cbv zeta.
  assert (axis < 3) as Hax3 by (unfold FD_YAW in Hax; lia).
  assert (axis <> FD_YAW) as Hny by lia.
  assert (bankLayout (bank st) = true) as Hb by (apply layout_spec in Hl; tauto).
  at_axis_final Hl Hs Hax3.
  assert (shapedSetpoint pidProfile angleTrim env axis s = Some sp) as Hsp'
    by (rewrite <- Hsp; by apply pidController_shaped).
  assert (previousRateError s !! axis = Some previous) as Hprev' by congruence.
  assert (Kd (gains s) !! axis = Some kd) as Hkd' by congruence.
  destruct (pidAxis_dterm _ _ _ _ _ _ _ _ sp previous kd Hiter Hny Hsp' Hprev' Hkd')
    as (notch & lpf & m & d1 & m1a & d2 & m2a & Hn & Hlp & Hf1 & Hf2 & HD & HR & ->).
  pose proof (pidAxis_dterm_store _ _ _ _ _ _ _ _ sp previous kd notch lpf
                d1 m1a d2 m2a Hiter Hny Hsp' Hprev' Hkd' Hn Hlp Hf1 Hf2) as Hstore.
  assert (dtermError pidProfile env axis sp (gyroADCf env axis) s
          = dtermError pidProfile env axis sp (gyroADCf env axis) st) as HrD
    by (unfold dtermError; replace (gains s) with (gains st) by congruence;
        reflexivity).
  rewrite HrD in *.
  replace (bank s) with (bank st) in * by congruence.
  replace (dT s) with (dT st) in * by congruence.
  destruct (filterApply_axis_transfer _ axis _ _ _ (store st) _ _ Hf1)
    as (m1 & Hf1' & Hm1).
  { destruct (notch_handle _ _ _ Hb Hn); tauto. }
  { exact Ss. }
  destruct (filterApply_axis_transfer _ axis _ _ _ m1 _ _ Hf2)
    as (m2 & Hf2' & Hm2).
  { destruct (lpf_handle _ _ _ Hb Hlp); tauto. }
  { by symmetry. }
  exists notch, lpf, d1, m1, d2, m2.
  do 4 (split; [done|]).
  split.
  { rewrite EsD', HD.
    by replace (pidStabilisationEnabled s) with (pidStabilisationEnabled st)
      by congruence. }
  split; [congruence|]. rewrite Ss', Hstore. by symmetry.
Qed.

(** *** The proportional term *)

(** X1. On every tick (with the plain mixer, for which the tick is
    defined) the P term of Roll and of Pitch is [Kp[axis] * errorRate *
    tpaFactor], with [errorRate = currentPidSetpoint - gyroRate +
    expectedGyroError[axis]]; the P term of Yaw is [Kp[axis] *
    errorRate], times [tpaFactor] unless [disableTPAForYaw] is set,
    passed through the yaw filter on the structure [pt1FilterYaw] as
    the tick finds it, and the structure the filter returns is the one
    the tick leaves; with the filter switched off the term is left as
    it is.  With stabilisation switched off the term is 0. *)
Theorem pterm_is_gain_times_error_rate pidProfile angleTrim env (st : pidState F) :
  layout st = true -> triMixerInUse env = false ->
  exists st',
    pidController pidProfile angleTrim env st = Some st'
    /\ forall axis, axis < 3 ->
       exists sp expected kp,
         shapedSetpoint pidProfile angleTrim env axis st = Some sp
         /\ expectedGyroError st !! axis = Some expected
         /\ Kp (gains st) !! axis = Some kp
         /\ let errorRate := fadd (fsub sp (gyroADCf env axis)) expected in
            let tpaFactor := getThrottlePIDAttenuation env in
            let enabled := pidStabilisationEnabled st in
            (axis <> FD_YAW ->
             axisPID_P st' !! axis
             = Some (if enabled then fmul (fmul kp errorRate) tpaFactor else f0))
            /\ (axis = FD_YAW ->
                let unfiltered :=
                  if disableTPAForYaw st then fmul kp errorRate
                  else fmul (fmul kp errorRate) tpaFactor in
                exists p m',
                  filterApply (ptermYawFilterApplyFn (bank st))
                              (ptermYawFilter (bank st)) unfiltered (store st)
                  = Some (p, m')
                  /\ axisPID_P st' !! axis = Some (if enabled then p else f0)
                  /\ pt1FilterYaw (store st') = pt1FilterYaw m'
                  /\ (ptermYawFilterApplyFn (bank st) = nullFilterApply ->
                      p = unfiltered)).
Proof.
  intros Hl Htri.
  destruct (pidController_defined pidProfile angleTrim env st Hl Htri)
    as (st' & Hs & _ & _).
  exists st'. split; [done|]. intros axis Hax.
  pose proof Hl as Hl'. layout_facts Hl'.
  destruct (setpointStage_defined pidProfile angleTrim env axis st Hl Hax)
    as [[sp u] Hsp].
  destruct (lookup_lt_is_Some_2 (expectedGyroError st) axis) as [expected Hexp]; [lia|].
  destruct (lookup_lt_is_Some_2 (Kp (gains st)) axis) as [kp Hkp]; [lia|].
  assert (shapedSetpoint pidProfile angleTrim env axis st = Some sp) as Hshaped
    by (unfold shapedSetpoint; rewrite Hsp; done).
  exists sp, expected, kp. do 3 (split; [done|]). cbv zeta.
  split.
  - intros Hny.
    destruct (pidController_pterm _ _ _ _ _ _ sp expected kp Hl Hs Hax Hshaped Hexp Hkp)
      as (p & m & m' & Hf & HP & _).
    apply Nat.eqb_neq in Hny. rewrite Hny in Hf.
    injection Hf as <- _. exact HP.
  - intros ->.
    destruct (pidController_pterm_yaw _ _ _ _ _ sp expected kp
                Hl Hs Htri Hshaped Hexp Hkp) as (p & m' & Hf & HP & Hm).
    exists p, m'. do 3 (split; [done|]).
    intros Hnull. rewrite Hnull in Hf. simpl in Hf.
    unfold nullFilterApplyFn in Hf. congruence.
Qed.

(** *** The derivative term of Roll and Pitch *)

(** X2. On every tick (with the plain mixer) the D term of Roll and of
    Pitch is [Kd[axis] * delta * tpaFactor] passed through the notch
    and then through the low-pass of the axis, both on the structures
    of the axis as the tick finds them, where [delta] is the weighted
    error [rD = dynC * currentPidSetpoint - gyroRate] minus the
    weighted error of the tick before, divided by [dT]; the weighted
    error is stored for the next tick, also when stabilisation is
    switched off, in which case the term is 0, and the structures the
    filters return are those the tick leaves for the axis.  With both
    filters switched off the term is the unfiltered product. *)
Theorem dterm_is_filtered_rate_of_change pidProfile angleTrim env (st : pidState F) :
  layout st = true -> triMixerInUse env = false ->
  exists st',
    pidController pidProfile angleTrim env st = Some st'
    /\ forall axis, axis < FD_YAW ->
       exists sp previous kd notch lpf d1 m1 d2 m2,
         shapedSetpoint pidProfile angleTrim env axis st = Some sp
         /\ previousRateError st !! axis = Some previous
         /\ Kd (gains st) !! axis = Some kd
         /\ dtermFilterNotch (bank st) !! axis = Some notch
         /\ dtermFilterLpf (bank st) !! axis = Some lpf
         /\ let rD := dtermError pidProfile env axis sp (gyroADCf env axis) st in
            let delta := fdiv (fsub rD previous) (dT st) in
            let unfiltered := fmul (fmul kd delta) (getThrottlePIDAttenuation env) in
            filterApply (dtermNotchFilterApplyFn (bank st)) notch unfiltered (store st)
            = Some (d1, m1)
            /\ filterApply (dtermLpfApplyFn (bank st)) lpf d1 m1 = Some (d2, m2)
            /\ axisPID_D st' !! axis
               = Some (if pidStabilisationEnabled st then d2 else f0)
            /\ previousRateError st' !! axis = Some rD
            /\ structsAt axis (store st') = structsAt axis m2
            /\ (dtermNotchFilterApplyFn (bank st) = nullFilterApply ->
                dtermLpfApplyFn (bank st) = nullFilterApply -> d2 = unfiltered).
Proof.
  intros Hl Htri.
  destruct (pidController_defined pidProfile angleTrim env st Hl Htri)
    as (st' & Hs & _ & _).
  exists st'. split; [done|]. intros axis Hax.
  assert (axis < 3) as Hax3 by (unfold FD_YAW in Hax; lia).
  pose proof Hl as Hl'. layout_facts Hl'.
  destruct (setpointStage_defined pidProfile angleTrim env axis st Hl Hax3)
    as [[sp u] Hsp].
  destruct (lookup_lt_is_Some_2 (previousRateError st) axis) as [previous Hprev];
    [unfold FD_YAW in Hax; lia|].
  destruct (lookup_lt_is_Some_2 (Kd (gains st)) axis) as [kd Hkd]; [lia|].
  assert (shapedSetpoint pidProfile angleTrim env axis st = Some sp) as Hshaped
    by (unfold shapedSetpoint; rewrite Hsp; done).
  destruct (pidController_dterm_filtered _ _ _ _ _ _ sp previous kd
              Hl Hs Hax Hshaped Hprev Hkd)
    as (notch & lpf & d1 & m1 & d2 & m2 & Hn & Hlp & Hf1 & Hf2 & HD & HR & Hm).
  exists sp, previous, kd, notch, lpf, d1, m1, d2, m2.
  do 5 (split; [done|]). cbv zeta. do 5 (split; [done|]).
  intros Hnull1 Hnull2. rewrite Hnull1 in Hf1. rewrite Hnull2 in Hf2.
  simpl in Hf1, Hf2. unfold nullFilterApplyFn in *. congruence.
Qed.

(** *** What a tick leaves alone *)

(** X3. A call of [pidController] that is defined writes the three output
    arrays, the histories of the limiter and of the derivative, and
    the filter structures, and nothing else: the loop time, [dT], the
    gains and the other values derived by [pidInitConfig], the filter
    selection, the integrator accelerator, the expected gyro errors
    and the two flags are as they were, and no array changes its
    number of elements. *)
Theorem controller_keeps_configuration pidProfile angleTrim env (st st' : pidState F) :
  pidController pidProfile angleTrim env st = Some st' ->
  targetPidLooptime st' = targetPidLooptime st
  /\ getdT st' = getdT st
  /\ gains st' = gains st
  /\ bank st' = bank st
  /\ itermAccelerator st' = itermAccelerator st
  /\ expectedGyroError st' = expectedGyroError st
  /\ pidStabilisationEnabled st' = pidStabilisationEnabled st
  /\ disableTPAForYaw st' = disableTPAForYaw st
  /\ length (axisPID_P st') = length (axisPID_P st)
  /\ length (axisPID_I st') = length (axisPID_I st)
  /\ length (axisPID_D st') = length (axisPID_D st)
  /\ length (previousSetpoint st') = length (previousSetpoint st)
  /\ length (previousRateError st') = length (previousRateError st).
Proof.
  intros Hs. apply pidController_frame in Hs. unfold frame in Hs. unfold getdT.
  tauto.
Qed.

(** X4. The iteration of one axis writes the entries of that axis only:
    the P, I and D terms, the previous setpoint and the previous rate
    error of every other axis are as they were. *)
Theorem axis_iteration_writes_own_entries
    pidProfile angleTrim env tpaFactor dynKi axis j (st st' : pidState F) :
  pidAxis pidProfile angleTrim env tpaFactor dynKi axis st = Some st' ->
  j <> axis ->
  axisPID_P st' !! j = axisPID_P st !! j
  /\ axisPID_I st' !! j = axisPID_I st !! j
  /\ axisPID_D st' !! j = axisPID_D st !! j
  /\ previousSetpoint st' !! j = previousSetpoint st !! j
  /\ previousRateError st' !! j = previousRateError st !! j.
Proof.
  intros Hs Hj. apply (pidAxis_other _ _ _ _ _ _ _ _ j) in Hs; [|done].
  unfold entriesAt in Hs. injection Hs as -> -> -> -> ->. done.
Qed.

(** *** From start-up to the ticks *)

Lemma tick_config pidProfile angleTrim t (st st' : pidState F) :
  tick pidProfile angleTrim t st = Some st' ->
  gains st' = gains st /\ bank st' = bank st /\ dT st' = dT st.
Proof.
  unfold tick. intros Hs. apply pidController_frame in Hs.
  unfold frame in Hs. simpl in Hs. tauto.
Qed.

Lemma run_config pidProfile angleTrim ticks (st st' : pidState F) :
  run pidProfile angleTrim ticks st = Some st' ->
  gains st' = gains st /\ bank st' = bank st /\ dT st' = dT st.
Proof.
  revert st. induction ticks as [|t ticks IH]; intros st Hs; simpl in Hs.
  - injection Hs as <-. done.
  - destruct (tick pidProfile angleTrim t st) as [st1|] eqn:H1; [simpl in Hs|done].
    apply tick_config in H1. apply IH in Hs. destruct_and!. repeat split; congruence.
Qed.

(** X5. After start-up, [pidSetTargetLooptime] with a loop time whose
    Nyquist frequency can be converted to [uint32_t], [pidInitConfig]
    and [pidInitFilters], every sequence of ticks with the plain mixer
    is defined: no tick indexes an array outside its bounds or applies
    a filter to a structure of another type, whatever the profiles,
    the inputs and the stabilisation flags are.  The gains, the filter
    selection and [dT] stay as the configuration left them. *)
Theorem configured_controller_runs_in_bounds
    (initProfile pidProfile : pidProfile_t F) angleTrim triMixer looptime ticks :
  is_Some (pidFrequencyNyquist (pidSetTargetLooptime looptime (power_on (F:=F)))) ->
  Forall (fun t : bool * tickEnv F => triMixerInUse t.2 = false) ticks ->
  exists st0 st',
    pidInitFilters initProfile
      (pidInitConfig initProfile triMixer (pidSetTargetLooptime looptime power_on))
    = Some st0
    /\ layout st0 = true
    /\ run pidProfile angleTrim ticks st0 = Some st'
    /\ layout st' = true
    /\ gains st' = gains st0 /\ bank st' = bank st0 /\ getdT st' = getdT st0.
Proof.
  intros [nyquist Hn] Htri.
  destruct (pidInitFilters_defined initProfile
              (pidInitConfig initProfile triMixer
                 (pidSetTargetLooptime looptime power_on)) nyquist)
    as (st0 & H0 & Hl0 & _).
  { apply pidInitConfig_layout. apply sizes_power_on. }
  { exact Hn. }
  destruct (run_defined pidProfile angleTrim ticks st0 Hl0 Htri) as (st' & Hs & Hl').
  exists st0, st'. do 4 (split; [done|]). by apply run_config in Hs.
Qed.

(** X6. [pidInitConfig] and [pidInitFilters] write disjoint parts of the
    state and neither reads what the other writes: after
    [pidSetTargetLooptime] they can be called in either order, with
    the same result (undefined in the same cases). *)
Theorem init_config_and_filters_commute
    (filterProfile configProfile : pidProfile_t F) triMixer (st : pidState F) :
  pidInitFilters filterProfile (pidInitConfig configProfile triMixer st)
  = pidInitConfig configProfile triMixer <$> pidInitFilters filterProfile st.
Proof.
  unfold pidInitFilters.
  change (pidFrequencyNyquist (pidInitConfig configProfile triMixer st))
    with (pidFrequencyNyquist st).
  destruct (pidFrequencyNyquist st) as [nyquist|]; [simpl|done].
  change (initNotch filterProfile nyquist (pidInitConfig configProfile triMixer st))
    with (initNotch filterProfile nyquist st).
  destruct (initNotch filterProfile nyquist st) as [[[notchFn notchHandles] notchStore]|];
    [simpl|done].
  change (initLpf filterProfile nyquist (pidInitConfig configProfile triMixer st) notchStore)
    with (initLpf filterProfile nyquist st notchStore).
  destruct (initLpf filterProfile nyquist st notchStore)
    as [[[lpfFn lpfHandles] lpfStore]|]; [simpl|done].
  change (initYawLpf filterProfile nyquist (pidInitConfig configProfile triMixer st))
    with (initYawLpf filterProfile nyquist st).
  destruct (initYawLpf filterProfile nyquist st) as [[yawFn yawHandle] yawStruct].
  reflexivity.
Qed.

(** *** A tick before the filters are initialised *)

Lemma filterApply_null handle input (m : filterStore F) :
  filterApply NullFn handle input m = None.
Proof. reflexivity. Qed.

Lemma dtermStage_null pidProfile env tpa axis sp gyroRate (st : pidState F) :
  dtermNotchFilterApplyFn (bank st) = NullFn \/ dtermLpfApplyFn (bank st) = NullFn ->
  dtermStage pidProfile env tpa axis sp gyroRate st = None.
Proof.
  intros Hnull. unfold dtermStage.
  destruct (previousRateError st !! axis); [simpl|done].
  destruct (aset _ _ _); [simpl|done].
  destruct (Kd (gains st) !! axis); [simpl|done].
  destruct (dtermFilterNotch (bank st) !! axis); [simpl|done].
  destruct Hnull as [-> | Hl]; [done|].
  destruct (filterApply _ _ _ _) as [[d m]|]; [simpl|done].
  destruct (dtermFilterLpf (bank st) !! axis); [simpl|done].
  by rewrite Hl.
Qed.

Lemma ptermStage_null tpa errorRate (st : pidState F) :
  ptermYawFilterApplyFn (bank st) = NullFn ->
  ptermStage tpa FD_YAW errorRate st = None.
Proof.
  intros Hnull. unfold ptermStage.
  destruct (Kp (gains st) !! FD_YAW); [simpl|done].
  by rewrite Hnull.
Qed.

Lemma pidAxis_null pidProfile angleTrim env tpa dynKi axis (st : pidState F) :
  (axis <> FD_YAW /\
   (dtermNotchFilterApplyFn (bank st) = NullFn \/ dtermLpfApplyFn (bank st) = NullFn))
  \/ (axis = FD_YAW /\ ptermYawFilterApplyFn (bank st) = NullFn) ->
  pidAxis pidProfile angleTrim env tpa dynKi axis st = None.
Proof.
  intros Hnull. unfold pidAxis.
  destruct (setpointStage _ _ _ _ st) as [[sp u]|] eqn:E1; [simpl|done].
  apply setpointStage_frame in E1.
  assert (bank u = bank st) as Hb by (unfold frame in E1; tauto).
  destruct (expectedGyroError u !! axis); [simpl|done].
  destruct Hnull as [[Hny Hnull]|[-> Hnull]].
  - destruct (ptermStage _ _ _ u) as [v|] eqn:E2; [simpl|done].
    apply ptermStage_frame in E2.
    destruct (itermStage _ _ _ _ v) as [w|] eqn:E3; [simpl|done].
    apply itermStage_frame in E3.
    assert (bank w = bank st) as Hw
      by (unfold frame in E2, E3; destruct_and!; congruence).
    replace (axis =? FD_YAW) with false by (symmetry; by apply Nat.eqb_neq).
    simpl. rewrite dtermStage_null; [done|]. by rewrite Hw.
  - rewrite ptermStage_null; [done|]. by rewrite Hb.
Qed.

(** X24. [pidController] must not run before [pidInitFilters]. The
    three function pointers of the filter bank are null at start-up,
    and neither [pidSetTargetLooptime] nor [pidInitConfig] assigns
    them; a tick in a state where one of them is null calls through
    the null pointer (the notch or the low-pass on Roll, the yaw
    filter on Yaw) and is undefined, whatever the profile and the
    inputs are.  [pidInitFilters], when it is defined, assigns the
    three pointers on every path. *)
Theorem controller_needs_initialised_filters pidProfile angleTrim env (st : pidState F) :
  dtermNotchFilterApplyFn (bank st) = NullFn
  \/ dtermLpfApplyFn (bank st) = NullFn
  \/ ptermYawFilterApplyFn (bank st) = NullFn ->
  pidController pidProfile angleTrim env st = None
  /\ (forall configProfile triMixer looptime,
        pidController pidProfile angleTrim env
          (pidInitConfig configProfile triMixer (pidSetTargetLooptime looptime st))
        = None)
  /\ (forall filterProfile st',
        pidInitFilters filterProfile st = Some st' ->
        dtermNotchFilterApplyFn (bank st') <> NullFn
        /\ dtermLpfApplyFn (bank st') <> NullFn
        /\ ptermYawFilterApplyFn (bank st') <> NullFn).
Proof.
  assert (forall s : pidState F,
            dtermNotchFilterApplyFn (bank s) = NullFn
            \/ dtermLpfApplyFn (bank s) = NullFn
            \/ ptermYawFilterApplyFn (bank s) = NullFn ->
            pidController pidProfile angleTrim env s = None) as Hgen.
  { intros s Hnull. unfold pidController, axes. cbn [forAxes].
    destruct (decide (dtermNotchFilterApplyFn (bank s) = NullFn
                      \/ dtermLpfApplyFn (bank s) = NullFn)) as [Hd|Hd].
    - rewrite pidAxis_null; [done|]. left. split; [done|exact Hd].
    - assert (ptermYawFilterApplyFn (bank s) = NullFn) as Hy by tauto.
      destruct (pidAxis _ _ _ _ _ FD_ROLL s) as [a|] eqn:Ea; [simpl|done].
      apply pidAxis_frame in Ea.
      destruct (pidAxis _ _ _ _ _ FD_PITCH a) as [b|] eqn:Eb; [simpl|done].
      apply pidAxis_frame in Eb.
      rewrite pidAxis_null; [done|]. right. split; [done|].
      unfold frame in Ea, Eb. destruct_and!. congruence. }
  intros Hnull. split; [by apply Hgen|]. split.
  - intros configProfile triMixer looptime. apply Hgen. exact Hnull.
  - intros filterProfile st' Hs. unfold pidInitFilters in Hs.
    destruct (pidFrequencyNyquist st) as [nyquist|]; [simpl in Hs|done].
    destruct (initNotch filterProfile nyquist st) as [[[notchFn nh] ns]|] eqn:EN;
      [simpl in Hs|done].
    destruct (initLpf filterProfile nyquist st ns) as [[[lpfFn lh] ls]|] eqn:EL;
      [simpl in Hs|done].
    destruct (initYawLpf filterProfile nyquist st) as [[yawFn yh] ys] eqn:EY.
    injection Hs as <-. simpl.
    unfold initNotch in EN. unfold initLpf in EL. unfold initYawLpf in EY.
    repeat split.
    + destruct (filterDisabled _ _) in EN; unbind EN; by simplify_eq.
    + destruct (filterDisabled _ _) in EL; [by simplify_eq|].
      destruct (dterm_filter_type filterProfile); unbind EL; by simplify_eq.
    + destruct (filterDisabled _ _) in EY; by simplify_eq.
Qed.

(** *** The setters of the integrator and of the expected gyro error *)

(** X7. [pidResetErrorGyroAxis] zeroes the accumulator of its axis and
    nothing else; it is defined for the three axes and indexes
    [axisPID_I] outside its bounds for any other index.  Resetting
    Roll, Pitch and Yaw one after the other is [pidResetErrorGyroState],
    which leaves the three accumulators at zero and everything else,
    the P and D terms included, as it was. *)
Theorem reset_state_is_reset_of_each_axis (st : pidState F) :
  length (axisPID_I st) = 3 ->
  (st1 ← pidResetErrorGyroAxis FD_ROLL st;
   st2 ← pidResetErrorGyroAxis FD_PITCH st1;
   pidResetErrorGyroAxis FD_YAW st2) = Some (pidResetErrorGyroState st)
  /\ axisPID_I (pidResetErrorGyroState st) = [f0; f0; f0]
  /\ axisPID_P (pidResetErrorGyroState st) = axisPID_P st
  /\ axisPID_D (pidResetErrorGyroState st) = axisPID_D st
  /\ pidStabilisationEnabled (pidResetErrorGyroState st) = pidStabilisationEnabled st
  /\ carried (pidResetErrorGyroState st) = carried st
  /\ (forall axis, axis < 3 ->
        exists st', pidResetErrorGyroAxis axis st = Some st'
          /\ axisPID_I st' !! axis = Some f0
          /\ (forall j, j <> axis -> axisPID_I st' !! j = axisPID_I st !! j)
          /\ axisPID_P st' = axisPID_P st /\ axisPID_D st' = axisPID_D st
          /\ pidStabilisationEnabled st' = pidStabilisationEnabled st
          /\ carried st' = carried st)
  /\ (forall axis, 3 <= axis -> pidResetErrorGyroAxis axis st = None).
Proof.
  intros Hlen. destruct (three_elements _ Hlen) as (a & b & c & HI).
  split; [|split; [|split; [|split; [|split; [|split; [|split]]]]]].
  - unfold pidResetErrorGyroAxis, pidResetErrorGyroState, aset, set_axisPID_I.
    rewrite HI. reflexivity.
  - unfold pidResetErrorGyroState. rewrite HI. reflexivity.
  - reflexivity.
  - reflexivity.
  - reflexivity.
  - reflexivity.
  - intros axis Hax. unfold pidResetErrorGyroAxis.
    rewrite aset_lt by lia. simpl. eexists. split; [reflexivity|]. simpl.
    split; [apply list_lookup_insert_eq; lia|].
    split; [intros j Hj; by apply list_lookup_insert_ne|done].
  - intros axis Hax. unfold pidResetErrorGyroAxis, aset.
    rewrite decide_False by lia. done.
Qed.

Lemma pidSetExpectedGyroError_spec axis error (st : pidState F) :
  axis < length (expectedGyroError st) ->
  exists st',
    pidSetExpectedGyroError axis error st = Some st'
    /\ expectedGyroError st' = <[axis:=error]> (expectedGyroError st)
    /\ layout st' = layout st
    /\ gains st' = gains st /\ bank st' = bank st /\ dT st' = dT st
    /\ previousSetpoint st' = previousSetpoint st
    /\ pidStabilisationEnabled st' = pidStabilisationEnabled st
    /\ outputs st' = outputs st.
Proof.
  intros Hax. unfold pidSetExpectedGyroError. rewrite aset_lt by done. simpl.
  eexists. split; [reflexivity|]. simpl. split; [done|].
  split; [|done]. unfold layout. simpl. by rewrite length_insert.
Qed.

(** X8. [pidSetExpectedGyroError] stores the error for its axis, Roll,
    Pitch or Yaw, leaves the errors of the other axes, and indexes
    [expectedGyroError] outside its bounds for an index that is not an
    axis.  The stored error enters the error rate of the axis on the
    next tick, [currentPidSetpoint - gyroRate + error]: the P term of
    Roll or Pitch is [Kp[axis]] times that error rate times
    [tpaFactor], the P term of Yaw is what the yaw filter makes of the
    same product (without [tpaFactor] when [disableTPAForYaw] is set),
    and the integrator of the axis is updated with the same error
    rate. *)
Theorem expected_gyro_error_enters_error_rate
    pidProfile angleTrim env axis error (st : pidState F) :
  layout st = true -> triMixerInUse env = false ->
  (axis < 3 ->
   exists st1 st' sp kp ki ITerm,
     pidSetExpectedGyroError axis error st = Some st1
     /\ expectedGyroError st1 !! axis = Some error
     /\ (forall j, j <> axis ->
           expectedGyroError st1 !! j = expectedGyroError st !! j)
     /\ pidController pidProfile angleTrim env st1 = Some st'
     /\ shapedSetpoint pidProfile angleTrim env axis st = Some sp
     /\ Kp (gains st) !! axis = Some kp
     /\ Ki (gains st) !! axis = Some ki
     /\ axisPID_I st !! axis = Some ITerm
     /\ let errorRate := fadd (fsub sp (gyroADCf env axis)) error in
        let tpaFactor := getThrottlePIDAttenuation env in
        let dynKi := dynKiOf (getMotorMixRange env) (ITermWindupPointInv (gains st)) in
        let enabled := pidStabilisationEnabled st in
        (axis <> FD_YAW ->
         axisPID_P st' !! axis
         = Some (if enabled then fmul (fmul kp errorRate) tpaFactor else f0))
        /\ (axis = FD_YAW ->
            let unfiltered :=
              if disableTPAForYaw st then fmul kp errorRate
              else fmul (fmul kp errorRate) tpaFactor in
            exists p m',
              filterApply (ptermYawFilterApplyFn (bank st))
                          (ptermYawFilter (bank st)) unfiltered (store st)
              = Some (p, m')
              /\ axisPID_P st' !! axis = Some (if enabled then p else f0))
        /\ axisPID_I st' !! axis
           = Some (if enabled then
                     ITermCommitted (mixerIsOutputSaturated env axis errorRate) ITerm
                       (ITermCandidate ki errorRate (dT st) dynKi
                                       (itermAccelerator st) ITerm)
                   else f0))
  /\ (3 <= axis -> pidSetExpectedGyroError axis error st = None).
Proof.
  intros Hl Htri. pose proof Hl as Hl'. layout_facts Hl'. split.
  - intros Hax.
    destruct (pidSetExpectedGyroError_spec axis error st) as
      (st1 & H1 & He & Hl1 & Hg & Hb & Ht & Hp & Hen & Ho); [lia|].
    rewrite Hl in Hl1.
    assert (store st1 = store st /\ disableTPAForYaw st1 = disableTPAForYaw st
            /\ itermAccelerator st1 = itermAccelerator st
            /\ axisPID_I st1 = axisPID_I st) as (Hm & Hd & Ha & HI1).
    { unfold pidSetExpectedGyroError in H1. unbind H1. by injection H1 as <-. }
    destruct (pidController_defined pidProfile angleTrim env st1 Hl1 Htri)
      as (st' & Hs & _ & _).
    destruct (setpointStage_defined pidProfile angleTrim env axis st Hl Hax)
      as [[sp u] Hsp].
    destruct (lookup_lt_is_Some_2 (Kp (gains st)) axis) as [kp Hkp]; [lia|].
    destruct (lookup_lt_is_Some_2 (Ki (gains st)) axis) as [ki Hki]; [lia|].
    destruct (lookup_lt_is_Some_2 (axisPID_I st) axis) as [ITerm HIt]; [lia|].
    assert (shapedSetpoint pidProfile angleTrim env axis st = Some sp) as Hshaped
      by (unfold shapedSetpoint; rewrite Hsp; done).
    assert (shapedSetpoint pidProfile angleTrim env axis st1 = Some sp) as Hshaped1
      by (rewrite <- Hshaped; apply shapedSetpoint_local; congruence).
    assert (expectedGyroError st1 !! axis = Some error) as Hexp
      by (rewrite He; apply list_lookup_insert_eq; lia).
    exists st1, st', sp, kp, ki, ITerm. do 2 (split; [done|]).
    split; [intros j Hj; rewrite He; by apply list_lookup_insert_ne|].
    do 5 (split; [done|]). cbv zeta.
    rewrite <- Hen, <- Hg, <- Hb, <- Hm, <- Hd, <- Ht, <- Ha.
    split; [|split].
    + intros Hny.
      destruct (pidController_pterm _ _ _ _ _ _ sp error kp Hl1 Hs Hax Hshaped1 Hexp)
        as (p & m & m' & Hf & HP & _); [congruence|].
      apply Nat.eqb_neq in Hny. rewrite Hny in Hf.
      injection Hf as <- _. exact HP.
    + intros ->.
      destruct (pidController_pterm_yaw _ _ _ _ _ sp error kp
                  Hl1 Hs Htri Hshaped1 Hexp) as (p & m' & Hf & HP & _); [congruence|].
      by exists p, m'.
    + apply (pidController_iterm _ _ _ _ _ _ sp error ITerm ki Hs Hax Hshaped1 Hexp);
        congruence.
  - intros Hax. unfold pidSetExpectedGyroError, aset.
    rewrite decide_False by lia. done.
Qed.

(** X9. The P, I and D terms an axis has after a tick, and the histories
    the tick keeps for the axis, depend on the inputs of the tick only
    through those the axis reads: the inputs common to the axes and
    its own setpoint, stick deflection, gyro rate, attitude and
    saturation report.  Two ticks from the same state whose inputs
    differ on the other axes only leave the same terms on the axis;
    what happens on one axis does not show on another. *)
Theorem axis_terms_depend_on_own_inputs
    pidProfile angleTrim env1 env2 j (st : pidState F) :
  layout st = true -> triMixerInUse env1 = false -> j < 3 ->
  agreeOn j env1 env2 ->
  exists t1 t2,
    pidController pidProfile angleTrim env1 st = Some t1
    /\ pidController pidProfile angleTrim env2 st = Some t2
    /\ axisPID_P t1 !! j = axisPID_P t2 !! j
    /\ axisPID_I t1 !! j = axisPID_I t2 !! j
    /\ axisPID_D t1 !! j = axisPID_D t2 !! j
    /\ previousSetpoint t1 !! j = previousSetpoint t2 !! j
    /\ previousRateError t1 !! j = previousRateError t2 !! j.
Proof.
  intros Hl Htri1 Hj Hagree.
  pose proof (shapedSetpoint_agree pidProfile angleTrim env1 env2 j st Hagree) as Hshape.
  destruct Hagree as (Atpa & Amix & Atri & Aangle & Ahorizon & Aroll & Apitch
                      & Arate & Adefl & Aabs & Agyro & Aatt & Agps & Asat).
  assert (triMixerInUse env2 = false) as Htri2 by congruence.
  destruct (pidController_defined pidProfile angleTrim env1 st Hl Htri1)
    as (t1 & H1 & _ & Hl1).
  destruct (pidController_defined pidProfile angleTrim env2 st Hl Htri2)
    as (t2 & H2 & _ & Hl2).
  exists t1, t2. split; [done|]. split; [done|].
  pose proof Hl as Hl'. layout_facts Hl'.
  destruct (setpointStage_defined pidProfile angleTrim env1 j st Hl Hj)
    as [[sp u] Hstage].
  assert (shapedSetpoint pidProfile angleTrim env1 j st = Some sp) as Hshaped1
    by (unfold shapedSetpoint; rewrite Hstage; done).
  assert (shapedSetpoint pidProfile angleTrim env2 j st = Some sp) as Hshaped2
    by congruence.
  destruct (lookup_lt_is_Some_2 (expectedGyroError st) j) as [expected Hexp]; [lia|].
  destruct (lookup_lt_is_Some_2 (Kp (gains st)) j) as [kp Hkp]; [lia|].
  destruct (lookup_lt_is_Some_2 (Ki (gains st)) j) as [ki Hki]; [lia|].
  destruct (lookup_lt_is_Some_2 (axisPID_I st) j) as [ITerm HIt]; [lia|].
  destruct (lookup_lt_is_Some_2 (previousSetpoint st) j) as [prev Hprev]; [lia|].
  destruct (lookup_lt_is_Some_2 (maxVelocity (gains st)) j) as [maxV Hmax]; [lia|].
  assert (axisPID_P t1 !! j = axisPID_P t2 !! j) as HP.
  { destruct (pidController_pterm _ _ _ _ _ _ sp expected kp Hl H1 Hj Hshaped1 Hexp Hkp)
      as (p1 & m1 & m1' & Hf1 & HP1 & Hy1).
    destruct (pidController_pterm _ _ _ _ _ _ sp expected kp Hl H2 Hj Hshaped2 Hexp Hkp)
      as (p2 & m2 & m2' & Hf2 & HP2 & Hy2).
    rewrite Agyro, Atpa in Hf1. rewrite HP1, HP2.
    assert (p1 = p2) as ->; [|done].
    destruct (j =? FD_YAW) eqn:Hyaw.
    - apply Nat.eqb_eq in Hyaw.
      eapply filterApply_yaw_agree; [exact Hf1|exact Hf2|by apply yaw_handle|].
      rewrite Hy1, Hy2 by done. done.
    - congruence. }
  assert (axisPID_I t1 !! j = axisPID_I t2 !! j) as HI.
  { rewrite (pidController_iterm _ _ _ _ _ _ sp expected ITerm ki
               H1 Hj Hshaped1 Hexp HIt Hki).
    rewrite (pidController_iterm _ _ _ _ _ _ sp expected ITerm ki
               H2 Hj Hshaped2 Hexp HIt Hki).
    rewrite Agyro, Amix, Asat. reflexivity. }
  assert (previousSetpoint t1 !! j = previousSetpoint t2 !! j) as HS.
  { rewrite (pidController_previousSetpoint _ _ _ _ _ _ prev maxV H1 Hj Hprev Hmax).
    rewrite (pidController_previousSetpoint _ _ _ _ _ _ prev maxV H2 Hj Hprev Hmax).
    by rewrite Arate. }
  do 2 (split; [done|]).
  assert (axisPID_D t1 !! j = axisPID_D t2 !! j
          /\ previousRateError t1 !! j = previousRateError t2 !! j) as (HD & HR);
    [|done].
  destruct (decide (j = FD_YAW)) as [->|Hny].
  - split.
    + rewrite (pidController_yaw_dterm _ _ _ _ _ H1 Htri1).
      rewrite (pidController_yaw_dterm _ _ _ _ _ H2 Htri2). done.
    + apply layout_spec in Hl1 as ((_ & _ & _ & _ & _ & L1) & _).
      apply layout_spec in Hl2 as ((_ & _ & _ & _ & _ & L2) & _).
      rewrite !lookup_ge_None_2 by (unfold FD_YAW; lia). done.
  - assert (j < FD_YAW) as Hj2 by (unfold FD_YAW in *; lia).
    destruct (lookup_lt_is_Some_2 (previousRateError st) j) as [previous Hrate];
      [unfold FD_YAW in Hj2; lia|].
    destruct (lookup_lt_is_Some_2 (Kd (gains st)) j) as [kd Hkd]; [lia|].
    destruct (pidController_dterm _ _ _ _ _ _ sp previous kd
                Hl H1 Hj2 Hshaped1 Hrate Hkd)
      as (n1 & l1 & m1 & d11 & m11 & d12 & m12
          & Hn1 & Hlp1 & Hfa1 & Hfb1 & HD1 & HR1 & Hs1).
    destruct (pidController_dterm _ _ _ _ _ _ sp previous kd
                Hl H2 Hj2 Hshaped2 Hrate Hkd)
      as (n2 & l2 & m2 & d21 & m21 & d22 & m22
          & Hn2 & Hlp2 & Hfa2 & Hfb2 & HD2 & HR2 & Hs2).
    assert (dtermError pidProfile env1 j sp (gyroADCf env1 j) st
            = dtermError pidProfile env2 j sp (gyroADCf env2 j) st) as HrD
      by (unfold dtermError; rewrite Aabs, Agyro; done).
    rewrite HrD, Atpa in Hfa1. rewrite HrD in HR1.
    assert (n1 = n2) as -> by congruence.
    assert (l1 = l2) as -> by congruence.
    destruct (filterApply_axis_agree _ j _ _ _ _ _ _ _ _ Hfa1 Hfa2) as (-> & Hm);
      [destruct (notch_handle _ _ _ HlB Hn2); tauto|congruence|].
    destruct (filterApply_axis_agree _ j _ _ _ _ _ _ _ _ Hfb1 Hfb2) as (-> & _);
      [destruct (lpf_handle _ _ _ HlB Hlp2); tauto|exact Hm|].
    split; congruence.
Qed.

End Facts.

(** ** Exact arithmetic: the acceleration limiter *)

Ltac exact_ops :=
  cbn [fadd fsub fmul fdiv fneg flt fnonzero of_int to_uint32 exact_arith] in *.

Section ExactLimiter.
Context {header : PidHeader Q} {filters : FilterLib Q}.

Lemma ABS_exact (x : Q) : (ABS x == Qabs x)%Q.
Proof.
  unfold ABS, fgt, f0. exact_ops.
  destruct (Exact.lt (inject_Z 0) x) eqn:Hx.
  - apply exact_lt_true in Hx. symmetry. apply Qabs_pos.
    apply Qlt_le_weak. exact Hx.
  - apply exact_lt_false in Hx. symmetry. apply Qabs_neg. exact Hx.
Qed.

Lemma limitedSetpoint_within (prev maxV raw : Q) :
  (Qabs (raw - prev) <= maxV)%Q -> limitedSetpoint prev maxV raw = raw.
Proof.
  intros Hin. unfold limitedSetpoint, fgt. exact_ops.
  destruct (Exact.lt maxV (ABS (raw - prev)%Q)) eqn:Hgt; [|reflexivity].
  apply exact_lt_true in Hgt. rewrite ABS_exact in Hgt.
  exfalso. apply (Qlt_irrefl maxV). eapply Qlt_le_trans; eauto.
Qed.

Lemma limitedSetpoint_bound (prev maxV raw : Q) :
  (0 <= maxV)%Q -> (Qabs (limitedSetpoint prev maxV raw - prev) <= maxV)%Q.
Proof.
  intros Hpos. unfold limitedSetpoint, fgt, f0. exact_ops.
  destruct (Exact.lt maxV (ABS (raw - prev)%Q)) eqn:Hgt.
  - match goal with |- context [if ?c then _ else _] => destruct c end;
      apply Qabs_Qle_condition; split; lra.
  - apply exact_lt_false in Hgt. rewrite ABS_exact in Hgt. exact Hgt.
Qed.

Lemma limitStage_exact axis raw (st : pidState Q) prev maxV :
  previousSetpoint st !! axis = Some prev ->
  maxVelocity (gains st) !! axis = Some maxV ->
  exists st',
    limitStage axis raw st
    = Some (if fnonzero maxV then limitedSetpoint prev maxV raw else raw, st')
    /\ gains st' = gains st
    /\ previousSetpoint st' !! axis
       = Some (if fnonzero maxV then limitedSetpoint prev maxV raw else prev).
Proof. apply limitStage_result. Qed.

Lemma fnonzero_exact (x : Q) : fnonzero x = false <-> (x == 0)%Q.
Proof.
  exact_ops. rewrite negb_false_iff. apply Qeq_bool_iff.
Qed.

(** In exact arithmetic, for a [maxVelocity] that is not negative,
    each shaped setpoint differs from the shaped setpoint of the tick
    before (at first, from the stored previous setpoint) by at most
    [maxVelocity[axis]] in absolute value, and it is the raw setpoint
    whenever the raw setpoint is within that distance. *)
Lemma limitRun_exact_bound
    (axis : nat) (raws : list Q) (st : pidState Q) (prev maxV : Q) :
  previousSetpoint st !! axis = Some prev ->
  maxVelocity (gains st) !! axis = Some maxV ->
  (0 <= maxV)%Q ->
  exists shaped,
    limitRun axis raws st = Some shaped
    /\ length shaped = length raws
    /\ (~ (maxV == 0)%Q ->
        forall i raw s p,
          raws !! i = Some raw -> shaped !! i = Some s ->
          (prev :: shaped) !! i = Some p ->
          (Qabs (s - p) <= maxV)%Q
          /\ ((Qabs (raw - p) <= maxV)%Q -> s = raw))
    /\ ((maxV == 0)%Q -> shaped = raws).
Proof.
  intros Hp Hv Hpos. revert st prev Hp Hv.
  induction raws as [|raw raws IH]; intros st prev Hp Hv.
  - exists []. simpl. repeat split; done.
  - destruct (limitStage_exact axis raw st prev maxV Hp Hv) as (st' & Hs & Hg & Hp').
    rewrite <- Hg in Hv.
    destruct (IH st' _ Hp' Hv) as (rest & Hrun & Hlen & Hnz & Hz).
    cbn [limitRun]. rewrite Hs. cbn [mbind option_bind]. rewrite Hrun.
    cbn [mbind option_bind].
    eexists. split; [reflexivity|].
    split; [cbn [length]; congruence|].
    destruct (fnonzero maxV) eqn:Hnon.
    + split.
      * intros Hne i r s p Hr Hsh Hprev.
        destruct i as [|i]; cbn [lookup list_lookup] in Hr, Hsh, Hprev.
        -- injection Hr as <-. injection Hsh as <-. injection Hprev as <-.
           split; [by apply limitedSetpoint_bound|apply limitedSetpoint_within].
        -- eapply (Hnz Hne i r s p); eauto.
      * intros Heq. apply fnonzero_exact in Heq. congruence.
    + split.
      * intros Hne. apply fnonzero_exact in Hnon. contradiction.
      * intros Heq. f_equal. by apply Hz.
Qed.

Lemma pidInitConfig_maxVelocity_exact pidProfile triMixer looptime (st : pidState Q) :
  Forall2 Qeq
    (maxVelocity (gains (pidInitConfig pidProfile triMixer
                           (pidSetTargetLooptime looptime st))))
    [(inject_Z (rateAccelLimit pidProfile * 1000)
      * (inject_Z looptime / 1000000))%Q;
     (inject_Z (rateAccelLimit pidProfile * 1000)
      * (inject_Z looptime / 1000000))%Q;
     (inject_Z (yawRateAccelLimit pidProfile * 1000)
      * (inject_Z looptime / 1000000))%Q].
Proof.
  unfold pidInitConfig, pidSetTargetLooptime, f_micro.
  cbn [gains maxVelocity dT]. exact_ops.
  assert (forall a b : Q, (a * (b * (inject_Z 1 / inject_Z 1000000))
                           == a * (b / 1000000))%Q) as Heq.
  { intros a b. change (inject_Z 1) with 1%Q.
    change (inject_Z 1000000) with 1000000%Q. field. }
  repeat constructor; apply Heq.
Qed.

Lemma pidInitConfig_maxVelocity_nonneg pidProfile triMixer looptime (st : pidState Q) :
  (0 <= rateAccelLimit pidProfile)%Z -> (0 <= yawRateAccelLimit pidProfile)%Z ->
  (0 <= looptime)%Z ->
  Forall (fun maxV => (0 <= maxV)%Q)
    (maxVelocity (gains (pidInitConfig pidProfile triMixer
                           (pidSetTargetLooptime looptime st)))).
Proof.
  intros Hr Hy Hl.
  unfold pidInitConfig, pidSetTargetLooptime, f_micro.
  cbn [gains maxVelocity dT]. exact_ops.
  assert (forall a b : Z, (0 <= a)%Z -> (0 <= b)%Z ->
            (0 <= inject_Z (a * 1000)
                  * (inject_Z b * (inject_Z 1 / inject_Z 1000000)))%Q) as Hpos.
  { intros a b Ha Hb.
    apply Qmult_le_0_compat.
    - change 0%Q with (inject_Z 0). rewrite <- Zle_Qle. lia.
    - apply Qmult_le_0_compat; [|done].
      change 0%Q with (inject_Z 0). by rewrite <- Zle_Qle. }
  repeat constructor; by apply Hpos.
Qed.

End ExactLimiter.

(** C6, as the code has it. Whatever the arithmetic, for an axis whose
    [maxVelocity] is not zero and every sequence of raw setpoints,
    each shaped setpoint is the raw setpoint when the raw change from
    the shaped setpoint of the tick before (at first, from the stored
    previous setpoint) does not exceed [maxVelocity[axis]] in absolute
    value, as the code compares them, and it is otherwise the shaped
    setpoint of the tick before plus [maxVelocity[axis]], or minus it
    when the change is not positive, as the arithmetic computes that
    sum; when [maxVelocity[axis]] is zero the stage is skipped and the
    shaped setpoints are the raw ones.  In exact arithmetic, and for a
    [maxVelocity] that is not negative, the change of the shaped
    setpoint from one tick to the next never exceeds
    [maxVelocity[axis]] in absolute value.  In single precision the
    sum is rounded, and the change can exceed [maxVelocity[axis]]. *)
Theorem acceleration_limit_steps_by_max_velocity :
  (forall (F : Type) (arith : Arith F) (filters : FilterLib F)
      (axis : nat) (raws : list F) (st : pidState F) (prev maxV : F),
      previousSetpoint st !! axis = Some prev ->
      maxVelocity (gains st) !! axis = Some maxV ->
      exists shaped,
        limitRun axis raws st = Some shaped
        /\ length shaped = length raws
        /\ (fnonzero maxV = true ->
            forall i raw s p,
              raws !! i = Some raw -> shaped !! i = Some s ->
              (prev :: shaped) !! i = Some p ->
              (fgt (ABS (fsub raw p)) maxV = false -> s = raw)
              /\ (fgt (ABS (fsub raw p)) maxV = true ->
                  s = if fgt (fsub raw p) f0 then fadd p maxV else fsub p maxV))
        /\ (fnonzero maxV = false -> shaped = raws))
  /\ (forall (filters : FilterLib Q)
        (axis : nat) (raws : list Q) (st : pidState Q) (prev maxV : Q),
        previousSetpoint st !! axis = Some prev ->
        maxVelocity (gains st) !! axis = Some maxV ->
        (0 <= maxV)%Q ->
        exists shaped,
          limitRun axis raws st = Some shaped
          /\ (~ (maxV == 0)%Q ->
              forall i raw s p,
                raws !! i = Some raw -> shaped !! i = Some s ->
                (prev :: shaped) !! i = Some p ->
                (Qabs (s - p) <= maxV)%Q
                /\ ((Qabs (raw - p) <= maxV)%Q -> s = raw))).
Proof.
  split.
  - intros F arith filters axis raws st prev maxV Hp Hv.
    destruct (limitRun_steps axis raws st prev maxV Hp Hv)
      as (shaped & Hrun & Hlen & Hnz & Hz).
    exists shaped. do 2 (split; [done|]). split; [|done].
    intros Hnon i raw s p Hraw Hs Hprev.
    rewrite (Hnz Hnon i raw p Hraw Hprev) in Hs. injection Hs as <-.
    unfold limitedSetpoint. split; intros ->; reflexivity.
  - intros filters axis raws st prev maxV Hp Hv Hpos.
    destruct (limitRun_exact_bound axis raws st prev maxV Hp Hv Hpos)
      as (shaped & Hrun & _ & Hnz & _).
    exists shaped. split; [exact Hrun|exact Hnz].
Qed.

(** ** Derived gains *)

(** C8. After [pidSetTargetLooptime] and [pidInitConfig], whatever the
    arithmetic, [maxVelocity] of Roll and of Pitch is the roll/pitch
    limit of the profile times 1000 (the limit is stored in degrees per
    second per millisecond; times 1000 it is in degrees per second per
    second) times the sample period [dT], and [maxVelocity] of Yaw is
    the same with the limit the profile has for Yaw alone.  In exact
    arithmetic [dT] is the loop time in seconds, so that each entry is
    the limit in degrees per second per second times the sample period
    in seconds: the change of setpoint, in degrees per second, allowed
    in one tick. *)
Theorem max_velocity_is_limit_times_sample_period :
  (forall (F : Type) (arith : Arith F) (header : PidHeader F) (filters : FilterLib F)
      (pidProfile : pidProfile_t F) (triMixer : bool) (looptime : Z)
      (st : pidState F),
      let st' := pidInitConfig pidProfile triMixer (pidSetTargetLooptime looptime st) in
      getdT st' = fmul (of_int looptime) f_micro
      /\ maxVelocity (gains st')
         = [fmul (of_int (rateAccelLimit pidProfile * 1000)) (getdT st');
            fmul (of_int (rateAccelLimit pidProfile * 1000)) (getdT st');
            fmul (of_int (yawRateAccelLimit pidProfile * 1000)) (getdT st')])
  /\ (forall (header : PidHeader Q) (filters : FilterLib Q)
        (pidProfile : pidProfile_t Q) (triMixer : bool) (looptime : Z)
        (st : pidState Q),
        Forall2 Qeq
          (maxVelocity (gains (pidInitConfig pidProfile triMixer
                                 (pidSetTargetLooptime looptime st))))
          [(inject_Z (rateAccelLimit pidProfile * 1000)
            * (inject_Z looptime / 1000000))%Q;
           (inject_Z (rateAccelLimit pidProfile * 1000)
            * (inject_Z looptime / 1000000))%Q;
           (inject_Z (yawRateAccelLimit pidProfile * 1000)
            * (inject_Z looptime / 1000000))%Q]).
Proof.
  split.
  - intros. split; reflexivity.
  - intros. apply pidInitConfig_maxVelocity_exact.
Qed.

(** ** The level strength of horizon mode *)

Section ExactHorizon.
Context {header : PidHeader Q} {filters : FilterLib Q}.




End ExactHorizon.

(** ** Single precision *)

Section Single.
Import Binary32.
Context {header : PidHeader binary32} {filters : FilterLib binary32}.

(** *** Signs and NaN of the rounded operations *)

Lemma shr_1_nonneg mrs : (0 <= shr_m mrs)%Z -> (0 <= shr_m (shr_1 mrs))%Z.
Proof.
  destruct mrs as [m r s]. simpl.
  destruct m as [|p|p]; [done| |lia]. destruct p; simpl; lia.
Qed.

Lemma iter_shr_1_nonneg p mrs :
  (0 <= shr_m mrs)%Z -> (0 <= shr_m (SpecFloat.iter_pos shr_1 p mrs))%Z.
Proof.
  revert mrs. induction p as [p IH|p IH|]; intros mrs Hm; simpl.
  - apply IH, IH. by apply shr_1_nonneg.
  - by apply IH, IH.
  - by apply shr_1_nonneg.
Qed.

Lemma shr_fexp_nonneg m e l :
  (0 <= m)%Z -> (0 <= shr_m (shr_fexp prec emax m e l).1)%Z.
Proof.
  intros Hm. unfold shr_fexp, shr.
  assert (shr_m (shr_record_of_loc m l) = m) as Hr
    by (destruct l as [|[| |]]; reflexivity).
  destruct (_ - _)%Z; simpl; rewrite ?Hr; try done.
  apply iter_shr_1_nonneg. by rewrite Hr.
Qed.

Lemma round_nearest_even_nonneg m l : (0 <= m)%Z -> (0 <= round_nearest_even m l)%Z.
Proof.
  intros Hm. destruct l as [|[| |]]; simpl; try done; [|lia].
  destruct (Z.even m); lia.
Qed.

(** Rounding keeps the sign and never gives NaN. *)
Lemma binary_round_aux_signed s m e l :
  (0 <= m)%Z -> signedNumber s (binary_round_aux prec emax s m e l).
Proof.
  intros Hm. unfold binary_round_aux.
  pose proof (shr_fexp_nonneg m e l Hm) as H1.
  destruct (shr_fexp prec emax m e l) as [mrs' e']. simpl in H1.
  pose proof (shr_fexp_nonneg _ e' loc_Exact
                (round_nearest_even_nonneg _ (loc_of_shr_record mrs') H1)) as H2.
  destruct (shr_fexp prec emax _ e' loc_Exact) as [mrs'' e'']. simpl in H2.
  unfold signedNumber.
  destruct (shr_m mrs'') as [|p|p]; [by left| |lia].
  destruct (e'' <=? emax - prec)%Z; [right; left; by eexists _, _|by right; right].
Qed.

Lemma binary_round_signed s m e : signedNumber s (binary_round prec emax s m e).
Proof.
  unfold binary_round. destruct (shl_align _ _ _) as [mz ez].
  by apply binary_round_aux_signed.
Qed.

Lemma binary_normalize_not_nan m e szero :
  is_nan (binary_normalize prec emax m e szero) = false.
Proof.
  unfold binary_normalize. destruct m as [|p|p]; [done| |].
  - destruct (binary_round_signed false p e) as [->|[(? & ? & ->)| ->]]; done.
  - destruct (binary_round_signed true p e) as [->|[(? & ? & ->)| ->]]; done.
Qed.



Lemma SFadd_nan (x y : binary32) :
  is_nan (fadd x y) = true
  <-> is_nan x = true \/ is_nan y = true
      \/ (x = S754_infinity false /\ y = S754_infinity true)
      \/ (x = S754_infinity true /\ y = S754_infinity false).
Proof.
  destruct x as [sx|sx| |sx mx ex], y as [sy|sy| |sy my ey];
    try (cbn; try destruct sx; try destruct sy; cbn; intuition discriminate).
  cbn [fadd binary32_arith SFadd]. rewrite binary_normalize_not_nan.
  cbn. intuition discriminate.
Qed.


(** The order of the comparison. *)
Lemma SFcompare_antisym (x y : binary32) :
  SFcompare y x = CompOpp <$> SFcompare x y.
Proof.
  destruct x as [sx|sx| |sx mx ex], y as [sy|sy| |sy my ey];
    try (by repeat match goal with s : bool |- _ => destruct s end).
  cbn [SFcompare fmap option_fmap option_map].
  change (PosDef.Pos.compare_cont Eq my mx) with (Pos.compare_cont Eq my mx).
  change (PosDef.Pos.compare_cont Eq mx my) with (Pos.compare_cont Eq mx my).
  assert (Pos.compare_cont Eq my mx = CompOpp (Pos.compare_cont Eq mx my)) as ->
    by (symmetry; exact (Pos.compare_cont_antisym mx my Eq)).
  rewrite (Z.compare_antisym ex ey).
  destruct sx, sy, (ex ?= ey)%Z, (Pos.compare_cont Eq mx my); reflexivity.
Qed.

Lemma SFcompare_refl (x : binary32) :
  is_nan x = false -> SFcompare x x = Some Eq.
Proof.
  destruct x as [s|s| |s m e]; try (by destruct s); [done|].
  intros _. cbn [SFcompare]. rewrite Z.compare_refl.
  change (PosDef.Pos.compare_cont Eq m m) with (Pos.compare_cont Eq m m).
  rewrite Pos.compare_cont_refl. by destruct s.
Qed.

Lemma SFleb_refl (x : binary32) : is_nan x = false -> SFleb x x = true.
Proof. intros Hx. unfold SFleb. by rewrite SFcompare_refl. Qed.

Lemma SFcompare_number (x y : binary32) :
  is_nan x = false -> is_nan y = false -> is_Some (SFcompare x y).
Proof.
  destruct x as [sx|sx| |sx mx ex], y as [sy|sy| |sy my ey]; intros Hx Hy;
    try discriminate; by eexists.
Qed.

(** Of two numbers, the one that is not below the other is at least
    the other. *)
Lemma SFltb_false_leb (x y : binary32) :
  is_nan x = false -> is_nan y = false -> SFltb x y = false -> SFleb y x = true.
Proof.
  intros Hx Hy. unfold SFltb, SFleb. rewrite (SFcompare_antisym x y).
  destruct (SFcompare_number x y Hx Hy) as [c ->]. by destruct c.
Qed.

Lemma SFltb_leb (x y : binary32) : SFltb x y = true -> SFleb x y = true.
Proof. unfold SFltb, SFleb. by destruct (SFcompare x y) as [[| |]|]. Qed.

Lemma SFltb_number (x y : binary32) :
  SFltb x y = true -> is_nan x = false /\ is_nan y = false.
Proof. by destruct x as [[|]|[|]| |], y as [[|]|[|]| |]. Qed.

(** *** The level strength *)








(** *** Bytes of the profile *)

Lemma bytes_spec (z : Z) : (0 <= z <= 255)%Z -> In z bytes.
Proof.
  intros Hz. unfold bytes. replace z with (Z.of_nat (Z.to_nat z)) by lia.
  apply in_map, in_seq. lia.
Qed.

Lemma windupPointInv_bytes :
  forallb (fun percent =>
             if (percent =? 100)%Z
             then is_pinf (windupPointInvOf percent)
             else is_finite (windupPointInvOf percent))
          bytes = true.
Proof. vm_compute. reflexivity. Qed.

Lemma setpointWeight_bytes :
  forallb (fun weight =>
             SFleb (of_int 0) (setpointWeightOf weight)
             && SFleb (setpointWeightOf weight) (setpointWeightOf 255)
             && Bool.eqb (SFleb (setpointWeightOf weight) (of_int 1))
                         (weight <=? 127)%Z)
          bytes = true.
Proof. vm_compute. reflexivity. Qed.

Lemma dynKi_infinite_reciprocal (motorMixRange : binary32) :
  flt (fsub f1 motorMixRange) f0 = false -> dynKiOf motorMixRange pinf = f1.
Proof.
  unfold dynKiOf, MIN. generalize (fsub f1 motorMixRange). intros d Hd.
  destruct d as [s|s| |s m e]; try destruct s; try discriminate Hd; reflexivity.
Qed.

(** *** The windup point *)

(** C3, as the code has it. [pidInitConfig] divides by
    [1 - ITermWindupPoint] without a guard.  For every profile, a
    windup point of exactly 100 percent makes the divisor zero and the
    reciprocal [ITermWindupPointInv] plus infinity (not NaN); every
    other value of the byte gives a finite reciprocal.  With the
    infinite reciprocal the dynamic Ki factor [MIN((1 - motorMixRange)
    * ITermWindupPointInv, 1)] is 1 whenever [1 - motorMixRange] is not
    negative, that is, integration is never scaled back: 100 percent
    acts as the largest windup point. *)
Theorem windup_point_reciprocal_unguarded pidProfile triMixer (st : pidState binary32) :
  (0 <= itermWindupPointPercent pidProfile <= 255)%Z ->
  let reciprocal := ITermWindupPointInv (gains (pidInitConfig pidProfile triMixer st)) in
  (itermWindupPointPercent pidProfile = 100%Z ->
   reciprocal = pinf
   /\ forall motorMixRange,
        flt (fsub f1 motorMixRange) f0 = false ->
        dynKiOf motorMixRange reciprocal = f1)
  /\ (itermWindupPointPercent pidProfile <> 100%Z -> is_finite reciprocal = true).
Proof.
  intros Hbyte. cbv zeta.
  change (ITermWindupPointInv (gains (pidInitConfig pidProfile triMixer st)))
    with (windupPointInvOf (F:=binary32) (itermWindupPointPercent pidProfile)).
  pose proof (proj1 (forallb_forall _ _) windupPointInv_bytes _
                (bytes_spec _ Hbyte)) as Hcheck.
  cbv beta in Hcheck. split.
  - intros H100. rewrite H100 in *. cbn [Z.eqb Pos.eqb] in Hcheck.
    assert (windupPointInvOf 100 = pinf) as ->
      by (destruct (windupPointInvOf 100) as [| [|] | |]; done).
    split; [reflexivity|]. apply dynKi_infinite_reciprocal.
  - intros Hne. apply Z.eqb_neq in Hne. by rewrite Hne in Hcheck.
Qed.

(** *** The setpoint weight of the derivative *)

(** C10, as the code has it. [dtermSetpointWeight] is the byte of
    the profile divided by 127: it is never negative and at most
    255/127 (a little above 2), and it lies in [0,1] exactly when the
    byte is at most 127. *)
Theorem setpoint_weight_is_byte_over_127 pidProfile triMixer (st : pidState binary32) :
  (0 <= profile_dtermSetpointWeight pidProfile <= 255)%Z ->
  let weight := dtermSetpointWeight (gains (pidInitConfig pidProfile triMixer st)) in
  weight = fdiv (of_int (profile_dtermSetpointWeight pidProfile)) (of_int 127)
  /\ SFleb (of_int 0) weight = true
  /\ SFleb weight (fdiv (of_int 255) (of_int 127)) = true
  /\ (SFleb weight (of_int 1) = true
      <-> (profile_dtermSetpointWeight pidProfile <= 127)%Z).
Proof.
  intros Hbyte. cbv zeta.
  change (dtermSetpointWeight (gains (pidInitConfig pidProfile triMixer st)))
    with (setpointWeightOf (F:=binary32) (profile_dtermSetpointWeight pidProfile)).
  pose proof (proj1 (forallb_forall _ _) setpointWeight_bytes _
                (bytes_spec _ Hbyte)) as Hcheck.
  cbv beta in Hcheck.
  apply andb_true_iff in Hcheck as [Hcheck H1].
  apply andb_true_iff in Hcheck as [H0 Hmax].
  apply eqb_prop in H1.
  split; [reflexivity|]. split; [exact H0|]. split; [exact Hmax|].
  rewrite H1. apply Z.leb_le.
Qed.

End Single.


(** ** Concrete runs

    The statements of the specification that the code does not meet,
    run on the example, and the general theorems applied to it. *)

Section Concrete.
Import Binary32.
#[local] Existing Instance upstreamHeader.
#[local] Existing Instance identityFilters.



(** C2 and C7 on the example: with the tri-mixer in use the tick is
    undefined, the Yaw iteration reading [previousRateError[2]]. *)
Lemma yaw_derivative_path_example :
  layout (exampleState (F:=binary32)) = true
  /\ previousRateError (exampleState (F:=binary32)) !! FD_YAW = None
  /\ pidController (F:=binary32) (exampleProfile 50 60 0) levelTrims
                   exampleTriTick exampleState = None
  /\ is_Some (pidController (F:=binary32) (exampleProfile 50 60 0) levelTrims
                            exampleTick exampleState).
Proof.
  assert (layout (exampleState (F:=binary32)) = true) as Hl by reflexivity.
  split; [exact Hl|].
  destruct (yaw_derivative_path_out_of_bounds (F:=binary32)
              (exampleProfile 50 60 0) levelTrims exampleTriTick exampleState Hl)
    as (_ & Hprev & _ & _ & _ & Htri).
  split; [exact Hprev|]. split; [apply Htri; reflexivity|].
  destruct (yaw_derivative_path_out_of_bounds (F:=binary32)
              (exampleProfile 50 60 0) levelTrims exampleTick exampleState Hl)
    as (_ & _ & _ & _ & _ & Hplain).
  destruct (pidController (exampleProfile 50 60 0) levelTrims exampleTick exampleState);
    [by eexists|].
  destruct Hplain as [Hplain _]. specialize (Hplain eq_refl). discriminate Hplain.
Defined.

Lemma yaw_dterm_example :
  layout (exampleState (F:=binary32)) = true
  /\ (exists st',
        run (F:=binary32) (exampleProfile 50 60 0) levelTrims
            [(true, exampleTick); (false, exampleTick); (true, exampleTick)]
            exampleState = Some st'
        /\ axisPID_D st' !! FD_YAW = Some f0)
  /\ pidAxis (F:=binary32) (exampleProfile 50 60 0) levelTrims exampleTriTick
             f1 f1 FD_YAW exampleState = None.
Proof.
  assert (layout (exampleState (F:=binary32)) = true) as Hl by reflexivity.
  split; [exact Hl|].
  destruct (yaw_dterm_zero_or_undefined (F:=binary32)
              (exampleProfile 50 60 0) levelTrims
              [(true, exampleTick); (false, exampleTick); (true, exampleTick)]
              exampleTriTick exampleState Hl)
    as (Hrun & _ & Htri).
  split.
  - apply Hrun; [repeat constructor|reflexivity].
  - assert (triMixerInUse (exampleTriTick (F:=binary32)) = true) as Hon by reflexivity.
    apply (Htri Hon f1 f1).
Defined.


(** C3 fails as stated: at 100 percent the reciprocal is infinite. *)
Lemma windup_point_100_gives_infinity :
  ITermWindupPointInv
    (gains (pidInitConfig (F:=binary32) (exampleProfile 100 60 0) false
              (pidSetTargetLooptime 1000 power_on)))
  = S754_infinity false
  /\ is_finite
       (ITermWindupPointInv
          (gains (pidInitConfig (F:=binary32) (exampleProfile 100 60 0) false
                    (pidSetTargetLooptime 1000 power_on))))
     = false.
Proof. split; reflexivity. Qed.

Lemma windup_point_example :
  (0 <= itermWindupPointPercent (exampleProfile (F:=binary32) 100 60 0) <= 255)%Z
  /\ dynKiOf (F:=binary32) (of_int 1)
       (ITermWindupPointInv
          (gains (pidInitConfig (exampleProfile 100 60 0) false exampleState)))
     = f1.
Proof.
  assert (0 <= itermWindupPointPercent (exampleProfile (F:=binary32) 100 60 0) <= 255)%Z
    as Hbyte by (simpl; lia).
  split; [exact Hbyte|].
  destruct (windup_point_reciprocal_unguarded
              (exampleProfile 100 60 0) false exampleState Hbyte) as (H100 & _).
  assert (itermWindupPointPercent (exampleProfile (F:=binary32) 100 60 0) = 100%Z)
    as Hfull by reflexivity.
  destruct (H100 Hfull) as (_ & Hdyn). apply Hdyn. reflexivity.
Defined.

(** C4 fails as stated. With a loop time of 2500 microseconds the
    Nyquist frequency is 200 Hz, also as the code computes it, and a
    cutoff of 200 Hz selects the biquad notch, the biquad low-pass and
    the one-pole yaw filter, not the no-op filter. *)
Lemma nyquist_cutoff_selects_real_filters :
  pidFrequencyNyquist (F:=binary32) (pidSetTargetLooptime 2500 power_on) = Some 200%Z
  /\ (bank <$> configured (F:=binary32) 2500 (exampleProfile 50 60 200) false)
     = Some {| dtermNotchFilterApplyFn := biquadFilterApply;
               dtermFilterNotch := [BiquadNotchPtr 0; BiquadNotchPtr 1];
               dtermLpfApplyFn := biquadFilterApply;
               dtermFilterLpf := [BiquadPtr 0; BiquadPtr 1];
               ptermYawFilterApplyFn := pt1FilterApply;
               ptermYawFilter := Pt1YawPtr |}
  /\ dtermNotchFilterApplyFn
       (bank (configuredOr (F:=binary32) 2500 (exampleProfile 50 60 200) false))
     <> nullFilterApply.
Proof. vm_compute. repeat split. discriminate. Qed.

Lemma filter_paths_example :
  sizes (pidSetTargetLooptime (F:=binary32) 2500 power_on) = true
  /\ exists st',
      pidInitFilters (F:=binary32) (exampleProfile 50 60 200)
                     (pidSetTargetLooptime 2500 power_on) = Some st'
      /\ dtermNotchFilterApplyFn (bank st') = biquadFilterApply
      /\ ptermYawFilterApplyFn (bank st') = pt1FilterApply.
Proof.
  assert (sizes (pidSetTargetLooptime (F:=binary32) 2500 power_on) = true)
    as Hl by reflexivity.
  assert (pidFrequencyNyquist (F:=binary32) (pidSetTargetLooptime 2500 power_on)
          = Some 200%Z) as Hn by (vm_compute; reflexivity).
  split; [exact Hl|].
  destruct (filter_paths_nyquist_boundary (F:=binary32)
              (exampleProfile 50 60 200) (pidSetTargetLooptime 2500 power_on) 200
              Hl Hn) as (st' & Hs & _ & _ & _ & Heq).
  exists st'. split; [exact Hs|].
  destruct (Heq ltac:(discriminate)) as (HN & _ & HY).
  split; [apply HN|apply HY]; reflexivity.
Defined.

(** C10 fails as stated: the byte 255 gives the weight 255/127. *)
Lemma setpoint_weight_255_exceeds_one :
  dtermSetpointWeight
    (gains (pidInitConfig (F:=binary32) (exampleProfile 50 255 0) false
              (pidSetTargetLooptime 1000 power_on)))
  = S754_finite false 8421634 (-22)
  /\ SFleb (S754_finite false 8421634 (-22)) (of_int 1) = false.
Proof. split; reflexivity. Qed.

Lemma setpoint_weight_example :
  (0 <= profile_dtermSetpointWeight (exampleProfile (F:=binary32) 50 127 0) <= 255)%Z
  /\ SFleb (dtermSetpointWeight
              (gains (pidInitConfig (exampleProfile 50 127 0) false exampleState)))
           (of_int 1) = true.
Proof.
  assert (0 <= profile_dtermSetpointWeight (exampleProfile (F:=binary32) 50 127 0)
          <= 255)%Z as Hbyte by (simpl; lia).
  split; [exact Hbyte|].
  destruct (setpoint_weight_is_byte_over_127
              (exampleProfile 50 127 0) false exampleState Hbyte)
    as (_ & _ & _ & Hone).
  apply Hone. simpl. lia.
Defined.

(** C6 fails as stated. With a roll limit of 3 and a loop time of
    1000 microseconds [maxVelocity] is 12582913 * 2^-22, a little above
    3; towards a raw setpoint of 100 the shaped setpoints are 12582913
    * 2^-22, 12582913 * 2^-21 and 9437185 * 2^-20, the third sum being
    rounded up, and the third change is 12582914 * 2^-22, above
    [maxVelocity]. *)
Lemma acceleration_limit_exceeds_max_velocity :
  let st := configuredOr (F:=binary32) 1000 (variedProfile 100 50 3) false in
  previousSetpoint st !! FD_ROLL = Some (S754_zero false)
  /\ maxVelocity (gains st) !! FD_ROLL = Some (S754_finite false 12582913 (-22))
  /\ limitRun FD_ROLL [of_int 100; of_int 100; of_int 100] st
     = Some [S754_finite false 12582913 (-22); S754_finite false 12582913 (-21);
             S754_finite false 9437185 (-20)]
  /\ fsub (S754_finite false 9437185 (-20)) (S754_finite false 12582913 (-21))
     = S754_finite false 12582914 (-22)
  /\ flt (S754_finite false 12582913 (-22)) (S754_finite false 12582914 (-22)) = true
  /\ (2 * 9437185 - 12582913 = 6291457
      /\ 2 * 6291457 = 12582914 /\ 12582913 < 12582914)%Z.
Proof. vm_compute. repeat split. Qed.

(** The limiter on the same example: the first shaped setpoint is
    the previous one plus [maxVelocity]. *)
Lemma acceleration_limit_example :
  let st := configuredOr (F:=binary32) 1000 (variedProfile 100 50 3) false in
  let maxV := S754_finite false 12582913 (-22) in
  previousSetpoint st !! FD_ROLL = Some (S754_zero false)
  /\ maxVelocity (gains st) !! FD_ROLL = Some maxV
  /\ exists shaped,
      limitRun FD_ROLL [of_int 100; of_int 100; of_int 2] st = Some shaped
      /\ length shaped = 3
      /\ shaped !! 0 = Some (fadd (S754_zero false) maxV).
Proof.
  cbv zeta.
  set (st := configuredOr (F:=binary32) 1000 (variedProfile 100 50 3) false).
  set (maxV := S754_finite false 12582913 (-22)).
  assert (previousSetpoint st !! FD_ROLL = Some (S754_zero false)) as Hprev
    by reflexivity.
  assert (maxVelocity (gains st) !! FD_ROLL = Some maxV) as Hmax by reflexivity.
  split; [exact Hprev|]. split; [exact Hmax|].
  destruct acceleration_limit_steps_by_max_velocity as (Hsteps & _).
  destruct (Hsteps binary32 _ _ FD_ROLL [of_int 100; of_int 100; of_int 2] st
              (S754_zero false) maxV Hprev Hmax)
    as (shaped & Hrun & Hlen & Hnz & _).
  exists shaped. split; [exact Hrun|]. split; [exact Hlen|].
  destruct shaped as [|s0 rest]; [discriminate Hlen|].
  destruct (Hnz eq_refl 0 (of_int 100) s0 (S754_zero false) eq_refl eq_refl eq_refl)
    as (_ & Hlimited).
  cbn [lookup list_lookup]. f_equal. apply Hlimited. reflexivity.
Defined.


End Concrete.

(** ** Single precision: exceptional values *)

Section SingleEdges.
Import Binary32.
Context {header : PidHeader binary32} {filters : FilterLib binary32}.

(** *** NaN in the integrator *)

Lemma ITermCommitted_nan saturated ki errorRate dt dynKi accelerator :
  ITermCommitted saturated S754_nan
    (ITermCandidate ki errorRate dt dynKi accelerator S754_nan) = S754_nan.
Proof.
  unfold ITermCommitted, ITermCandidate. cbn [fadd binary32_arith SFadd].
  by destruct (_ || _).
Qed.

Lemma ITermCandidate_nan_error ki dt dynKi accelerator ITerm :
  ITermCandidate ki S754_nan dt dynKi accelerator ITerm = S754_nan.
Proof.
  unfold ITermCandidate. cbn [fadd fmul binary32_arith].
  assert (SFmul prec emax ki S754_nan = S754_nan) as -> by (by destruct ki).
  cbn [SFmul]. by destruct ITerm.
Qed.

Lemma tick_nan_integrator pidProfile angleTrim env axis (st : pidState binary32) :
  layout st = true -> triMixerInUse env = false -> axis < 3 ->
  axisPID_I st !! axis = Some S754_nan ->
  exists st', tick pidProfile angleTrim (true, env) st = Some st'
    /\ layout st' = true /\ axisPID_I st' !! axis = Some S754_nan.
Proof.
  intros Hl Htri Hax HI.
  destruct (tick_defined pidProfile angleTrim (true, env) st Hl Htri)
    as (st' & Hs & Hl').
  exists st'. split; [done|]. split; [done|].
  unfold tick in Hs. cbn [fst snd] in Hs.
  set (s := pidStabilisationState true st) in *.
  pose proof Hl as Hl0. apply layout_spec in Hl0 as ((_ & _ & _ & HlE & _) & HlG & _).
  apply gainsLayout_spec in HlG as (_ & HlKi & _).
  destruct (setpointStage_defined pidProfile angleTrim env axis s Hl Hax)
    as [[sp u] Hsp].
  destruct (lookup_lt_is_Some_2 (expectedGyroError s) axis) as [expected Hexp];
    [simpl; lia|].
  destruct (lookup_lt_is_Some_2 (Ki (gains s)) axis) as [ki Hki]; [simpl; lia|].
  assert (shapedSetpoint pidProfile angleTrim env axis s = Some sp) as Hshaped
    by (unfold shapedSetpoint; rewrite Hsp; done).
  rewrite (pidController_iterm _ _ _ _ _ _ sp expected S754_nan ki
             Hs Hax Hshaped Hexp HI Hki).
  cbn [pidStabilisationEnabled s pidStabilisationState].
  by rewrite ITermCommitted_nan.
Qed.

(** X17. In single precision a NaN in an accumulator is permanent while
    stabilisation is on: every tick computes its candidate from the
    accumulator, and both the candidate and the value kept in its
    stead are NaN, whatever the inputs and the gains are.  One tick
    whose gyro sample is NaN is enough to put it there, unless the
    mixer reports saturation on that tick.  (Only the gate of a tick
    with stabilisation off, and the two reset functions, write a
    number back.) *)
Theorem nan_integrator_stays_nan pidProfile angleTrim axis (st : pidState binary32) :
  layout st = true -> axis < 3 ->
  (forall ticks,
     Forall (fun t : bool * tickEnv binary32 =>
               t.1 = true /\ triMixerInUse t.2 = false) ticks ->
     axisPID_I st !! axis = Some S754_nan ->
     exists st', run pidProfile angleTrim ticks st = Some st'
       /\ axisPID_I st' !! axis = Some S754_nan)
  /\ (forall env,
        triMixerInUse env = false ->
        gyroADCf env axis = S754_nan ->
        (forall errorRate, mixerIsOutputSaturated env axis errorRate = false) ->
        exists st', tick pidProfile angleTrim (true, env) st = Some st'
          /\ axisPID_I st' !! axis = Some S754_nan).
Proof.
  intros Hl Hax. split.
  - intros ticks Hticks. revert st Hl.
    induction Hticks as [|[on env] ticks [Hon Htri] _ IH]; intros st Hl HI.
    + exists st. done.
    + cbn [fst snd] in Hon, Htri. subst on. cbn [run].
      destruct (tick_nan_integrator pidProfile angleTrim env axis st Hl Htri Hax HI)
        as (st1 & -> & Hl1 & HI1).
      cbn [mbind option_bind]. by apply IH.
  - intros env Htri Hgyro Hsat.
    destruct (tick_defined pidProfile angleTrim (true, env) st Hl Htri)
      as (st' & Hs & Hl').
    exists st'. split; [done|].
    unfold tick in Hs. cbn [fst snd] in Hs.
    set (s := pidStabilisationState true st) in *.
    pose proof Hl as Hl0.
    apply layout_spec in Hl0 as ((_ & HlI & _ & HlE & _) & HlG & _).
    apply gainsLayout_spec in HlG as (_ & HlKi & _).
    destruct (setpointStage_defined pidProfile angleTrim env axis s Hl Hax)
      as [[sp u] Hsp].
    destruct (lookup_lt_is_Some_2 (expectedGyroError s) axis) as [expected Hexp];
      [simpl; lia|].
    destruct (lookup_lt_is_Some_2 (axisPID_I s) axis) as [ITerm HI]; [simpl; lia|].
    destruct (lookup_lt_is_Some_2 (Ki (gains s)) axis) as [ki Hki]; [simpl; lia|].
    assert (shapedSetpoint pidProfile angleTrim env axis s = Some sp) as Hshaped
      by (unfold shapedSetpoint; rewrite Hsp; done).
    rewrite (pidController_iterm _ _ _ _ _ _ sp expected ITerm ki
               Hs Hax Hshaped Hexp HI Hki).
    cbn [pidStabilisationEnabled s pidStabilisationState].
    rewrite Hsat, Hgyro. unfold ITermCommitted. cbn [negb orb].
    assert (fadd (fsub sp S754_nan) expected = S754_nan) as ->
      by (cbn [fadd fsub binary32_arith]; by destruct sp).
    by rewrite ITermCandidate_nan_error.
Qed.

(** *** The relax ratio zero *)

Lemma zrange_spec (n : nat) (lo z : Z) :
  (lo <= z < lo + Z.of_nat n)%Z -> In z (zrange n lo).
Proof.
  revert lo. induction n as [|n IH]; intros lo Hz; [lia|].
  cbn [zrange]. destruct (decide (z = lo)) as [->|Hne]; [by left|].
  right. apply IH. lia.
Qed.

Lemma words_spec (z : Z) : (0 <= z <= 65535)%Z -> In z words.
Proof. intros Hz. apply zrange_spec. lia. Qed.

Lemma relaxFactor_bytes :
  forallb (fun ratio =>
             if (ratio =? 0)%Z then is_pinf (relaxFactorOf ratio)
             else is_finite (relaxFactorOf ratio)
                  && flt f0 (relaxFactorOf (F:=binary32) ratio))
          bytes = true.
Proof. vm_compute. reflexivity. Qed.

Lemma setpointWeight_times_one :
  forallb (fun weight =>
             bool_decide (fmul (setpointWeightOf weight) f1
                          = setpointWeightOf (F:=binary32) weight))
          bytes = true.
Proof. vm_compute. reflexivity. Qed.

Lemma MIN_infinite (deflection : binary32) :
  flt deflection f0 = false -> MIN (fmul deflection pinf) f1 = f1.
Proof.
  destruct deflection as [s|s| |s m e]; try destruct s; intros Hd;
    try discriminate Hd; reflexivity.
Qed.

(** X18. In single precision a relax ratio of zero makes [relaxFactor],
    [1 / (ratio / 100)], plus infinity; every other byte gives a
    finite positive factor.  With the infinite factor the relax
    multiplier [MIN(deflection * relaxFactor, 1)] is 1 for every
    deflection that is not negative, the centred stick included (0
    times infinity is NaN, which is not below 1): the weighted error
    of the derivative is [dtermSetpointWeight * currentPidSetpoint -
    gyroRate], as with a ratio of 100 or more.  A ratio of zero
    switches the relaxation off. *)
Theorem zero_relax_ratio_switches_relaxation_off
    pidProfile triMixer (st : pidState binary32) :
  (0 <= setpointRelaxRatio pidProfile <= 255)%Z ->
  (0 <= profile_dtermSetpointWeight pidProfile <= 255)%Z ->
  let st' := pidInitConfig pidProfile triMixer st in
  (setpointRelaxRatio pidProfile <> 0%Z ->
   is_finite (relaxFactor (gains st')) = true
   /\ flt f0 (relaxFactor (gains st')) = true)
  /\ (setpointRelaxRatio pidProfile = 0%Z ->
      relaxFactor (gains st') = pinf
      /\ forall env axis currentPidSetpoint gyroRate,
           flt (getRcDeflectionAbs env axis) f0 = false ->
           MIN (fmul (getRcDeflectionAbs env axis) (relaxFactor (gains st'))) f1 = f1
           /\ dtermError pidProfile env axis currentPidSetpoint gyroRate st'
              = fsub (fmul (dtermSetpointWeight (gains st')) currentPidSetpoint)
                     gyroRate).
Proof.
  intros Hratio Hweight. cbv zeta.
  change (relaxFactor (gains (pidInitConfig pidProfile triMixer st)))
    with (relaxFactorOf (F:=binary32) (setpointRelaxRatio pidProfile)).
  pose proof (proj1 (forallb_forall _ _) relaxFactor_bytes _
                (bytes_spec _ Hratio)) as Hcheck.
  pose proof (proj1 (forallb_forall _ _) setpointWeight_times_one _
                (bytes_spec _ Hweight)) as Hone.
  cbv beta in Hcheck, Hone. apply bool_decide_eq_true in Hone.
  split.
  - intros Hne. apply Z.eqb_neq in Hne. rewrite Hne in Hcheck.
    apply andb_true_iff in Hcheck. exact Hcheck.
  - intros Hz. rewrite Hz in *. cbn [Z.eqb] in Hcheck.
    assert (relaxFactorOf 0 = pinf) as Hinf
      by (destruct (relaxFactorOf 0) as [| [|] | |]; done).
    split; [exact Hinf|].
    intros env axis currentPidSetpoint gyroRate Hd.
    rewrite Hinf. split; [by apply MIN_infinite|].
    unfold dtermError.
    change (relaxFactor (gains (pidInitConfig pidProfile triMixer st)))
      with (relaxFactorOf (F:=binary32) (setpointRelaxRatio pidProfile)).
    rewrite Hz. cbn [Z.ltb Z.compare].
    rewrite Hinf, MIN_infinite by done.
    change (dtermSetpointWeight (gains (pidInitConfig pidProfile triMixer st)))
      with (setpointWeightOf (F:=binary32) (profile_dtermSetpointWeight pidProfile)).
    by rewrite Hone.
Qed.

(** *** The level D gain zero *)

Lemma horizonTransition_bytes :
  forallb (fun levelD =>
             if (levelD =? 0)%Z then is_pinf (horizonTransitionOf levelD)
             else is_finite (horizonTransitionOf levelD)
                  && flt f0 (horizonTransitionOf (F:=binary32) levelD))
          bytes = true.
Proof. vm_compute. reflexivity. Qed.

Lemma strength_at_infinite_transition (deflection : binary32) :
  let strength :=
    constrainf (fsub (of_int 1) (fmul deflection pinf)) (of_int 0) (of_int 1) in
  (SFeqb deflection f0 = true -> strength = S754_nan)
  /\ (flt f0 deflection = true -> strength = f0).
Proof.
  cbv zeta.
  destruct deflection as [s|s| |s m e]; try destruct s;
    split; intros Hd; try discriminate Hd; reflexivity.
Qed.

(** X19. In single precision a D gain of zero in the level entry of the
    profile makes [horizonTransition], [100 / D8[PIDLEVEL]], plus
    infinity; every other byte gives a finite positive value.  With
    the infinite value the level strength of horizon mode is 0 as soon
    as a stick is deflected, and NaN when both sticks are centred (0
    times infinity), [constrainf] passing NaN on; the setpoint
    [pidLevel] returns in horizon mode is then NaN too. *)
Theorem zero_level_d_gain_gives_nan_at_centre
    pidProfile triMixer env (st : pidState binary32) :
  (0 <= D8 pidProfile PIDLEVEL <= 255)%Z ->
  let st' := pidInitConfig pidProfile triMixer st in
  let deflection :=
    MAX (getRcDeflectionAbs env FD_ROLL) (getRcDeflectionAbs env FD_PITCH) in
  (D8 pidProfile PIDLEVEL <> 0%Z ->
   is_finite (horizonTransition (gains st')) = true
   /\ flt f0 (horizonTransition (gains st')) = true)
  /\ (D8 pidProfile PIDLEVEL = 0%Z ->
      horizonTransition (gains st') = pinf
      /\ (flt f0 deflection = true -> calcHorizonLevelStrength env st' = f0)
      /\ (SFeqb deflection f0 = true ->
          is_nan (calcHorizonLevelStrength env st') = true
          /\ (ANGLE_MODE env = false ->
              forall axis angleTrim currentPidSetpoint,
                is_nan (pidLevel axis pidProfile angleTrim env st' currentPidSetpoint)
                = true))).
Proof.
  intros Hbyte. cbv zeta.
  change (horizonTransition (gains (pidInitConfig pidProfile triMixer st)))
    with (horizonTransitionOf (F:=binary32) (D8 pidProfile PIDLEVEL)).
  pose proof (proj1 (forallb_forall _ _) horizonTransition_bytes _
                (bytes_spec _ Hbyte)) as Hcheck.
  cbv beta in Hcheck. split.
  - intros Hne. apply Z.eqb_neq in Hne. rewrite Hne in Hcheck.
    apply andb_true_iff in Hcheck. exact Hcheck.
  - intros Hz.
    assert (horizonTransitionOf (F:=binary32) (D8 pidProfile PIDLEVEL) = pinf) as Hinf.
    { rewrite Hz in *. cbn [Z.eqb] in Hcheck.
      destruct (horizonTransitionOf 0) as [| [|] | |]; done. }
    split; [exact Hinf|].
    assert (forall env' : tickEnv binary32,
              calcHorizonLevelStrength env' (pidInitConfig pidProfile triMixer st)
              = constrainf
                  (fsub (of_int 1)
                     (fmul (MAX (getRcDeflectionAbs env' FD_ROLL)
                                (getRcDeflectionAbs env' FD_PITCH)) pinf))
                  (of_int 0) (of_int 1)) as Hstrength.
    { intros env'. unfold calcHorizonLevelStrength.
      change (horizonTransition (gains (pidInitConfig pidProfile triMixer st)))
        with (horizonTransitionOf (F:=binary32) (D8 pidProfile PIDLEVEL)).
      rewrite Hinf. reflexivity. }
    destruct (strength_at_infinite_transition
                (MAX (getRcDeflectionAbs env FD_ROLL) (getRcDeflectionAbs env FD_PITCH)))
      as (Hnan & Hzero).
    split; [intros Hd; rewrite Hstrength; by apply Hzero|].
    intros Hd. rewrite Hstrength, (Hnan Hd). split; [reflexivity|].
    intros Hmode axis angleTrim currentPidSetpoint.
    unfold pidLevel. rewrite Hmode, Hstrength, (Hnan Hd).
    cbn [fadd fmul binary32_arith].
    match goal with |- is_nan (SFadd _ _ _ (SFmul _ _ ?x _)) = true =>
      assert (SFmul prec emax x S754_nan = S754_nan) as -> by (by destruct x) end.
    by destruct currentPidSetpoint.
Qed.

(** *** The loop time and the initialisers *)

(** X20. In single precision [pidInitFilters] must come after
    [pidSetTargetLooptime] with a loop time that is not zero: while
    [dT] is zero, as it is at start-up, the Nyquist frequency [(1.0f /
    dT) / 2] is infinite, and its conversion to [uint32_t] is
    undefined. *)
Theorem filters_need_the_loop_time pidProfile (st : pidState binary32) :
  SFeqb (getdT st) f0 = true ->
  pidFrequencyNyquist st = None /\ pidInitFilters pidProfile st = None.
Proof.
  unfold getdT. intros Hz.
  assert (pidFrequencyNyquist st = None) as Hn.
  { unfold pidFrequencyNyquist.
    destruct (dT st) as [s|s| |s m e]; try discriminate Hz; by destruct s. }
  split; [exact Hn|]. unfold pidInitFilters. by rewrite Hn.
Qed.

Lemma nyquist_looptimes :
  forallb (fun looptime =>
             bool_decide (nyquistOf (F:=binary32) looptime
                          = Some (nyquistExpected looptime)))
          (zrange (128 * 128) 1) = true.
Proof. vm_compute. reflexivity. Qed.

(** X21. In single precision, for every loop time from 1 to 16384
    microseconds the Nyquist frequency [pidInitFilters] computes is
    defined, and it is the exact one, 500000 divided by the loop time
    and rounded down, except at the loop times 125, 250, 500, 1000,
    2000 and 4000, where the division is exact and the computed
    frequency is one less (3999, 1999, 999, 499, 249 and 124 Hz): [1 /
    dT] is below the loop rate there.  At these loop times a
    cutoff equal to the exact Nyquist frequency is above the computed
    one, and its filter is switched off. *)
Theorem nyquist_frequency_falls_short_at_standard_rates
    looptime (st : pidState binary32) :
  (1 <= looptime <= 16384)%Z ->
  let nyquist := pidFrequencyNyquist (pidSetTargetLooptime looptime st) in
  (looptime ∈ shortLooptimes ->
   (looptime * (500000 / looptime) = 500000)%Z
   /\ flt (fdiv f1 (getdT (pidSetTargetLooptime looptime st)))
          (of_int (1000000 / looptime)) = true
   /\ nyquist = Some (500000 / looptime - 1)%Z
   /\ filterDisabled (500000 / looptime) (500000 / looptime - 1) = true)
  /\ (looptime ∉ shortLooptimes -> nyquist = Some (500000 / looptime)%Z).
Proof.
  intros Hrange. cbv zeta.
  change (pidFrequencyNyquist (pidSetTargetLooptime looptime st))
    with (nyquistOf (F:=binary32) looptime).
  change (getdT (pidSetTargetLooptime looptime st))
    with (fmul (of_int looptime) f_micro : binary32).
  pose proof (proj1 (forallb_forall _ _) nyquist_looptimes looptime) as Hcheck.
  cbv beta in Hcheck. rewrite bool_decide_eq_true in Hcheck.
  rewrite Hcheck by (apply zrange_spec; lia).
  unfold nyquistExpected. split.
  - intros Hin. rewrite bool_decide_eq_true_2 by done.
    split; [|split; [|split; [reflexivity|]]]; unfold shortLooptimes in Hin;
      repeat (apply elem_of_cons in Hin as [->|Hin]; [reflexivity|]);
      by apply elem_of_nil in Hin.
  - intros Hnot. by rewrite bool_decide_eq_false_2.
Qed.

(** *** The integrator under saturation *)


Lemma SFltb_asym (x y : binary32) : SFltb x y = true -> SFltb y x = false.
Proof.
  unfold SFltb, SFcompare.
  destruct x as [sx|sx| |sx mx ex], y as [sy|sy| |sy my ey];
    try destruct sx; try destruct sy; try (intros H; discriminate H);
    try reflexivity;
    assert (PosDef.Pos.compare_cont Eq my mx
            = CompOpp (PosDef.Pos.compare_cont Eq mx my)) as ->
      by (symmetry; exact (Pos.compare_cont_antisym mx my Eq));
    rewrite (Z.compare_antisym ex ey);
    destruct (ex ?= ey)%Z; cbn [CompOpp];
    try (intros H; discriminate H); try reflexivity;
    destruct (PosDef.Pos.compare_cont Eq mx my); cbn [CompOpp];
    try (intros H; discriminate H); reflexivity.
Qed.




(** *** The integrator accelerator at zero *)

Lemma SFmul_zero_right (x : binary32) :
  (is_finite x = true -> exists s, fmul x (of_int 0) = S754_zero s)
  /\ (is_finite x = false -> fmul x (of_int 0) = S754_nan).
Proof.
  destruct x as [s|s| |s m e]; split; intros Hx; try discriminate Hx;
    try reflexivity; by eexists.
Qed.

Lemma SFadd_zero_right (x : binary32) s :
  fadd x (S754_zero s) = x
  \/ (x = S754_zero true /\ fadd x (S754_zero s) = S754_zero false).
Proof. destruct x as [[|]|sx| |sx m e], s; cbn; tauto. Qed.

Lemma ABS_nan : ABS (S754_nan : binary32) = S754_nan.
Proof. reflexivity. Qed.

Lemma ITermCommitted_frozen saturated (ITerm increment : binary32) :
  let ITerm' :=
    ITermCommitted saturated ITerm (fadd ITerm (fmul increment (of_int 0))) in
  (is_finite increment = true ->
   ITerm' = ITerm \/ (ITerm = S754_zero true /\ ITerm' = S754_zero false))
  /\ (is_finite increment = false -> saturated = false -> ITerm' = S754_nan)
  /\ (is_finite increment = false -> saturated = true -> ITerm' = ITerm).
Proof.
  cbv zeta. unfold ITermCommitted.
  destruct (SFmul_zero_right increment) as (Hfin & Hinf).
  split; [|split].
  - intros Hi. destruct (Hfin Hi) as [s ->].
    destruct (SFadd_zero_right ITerm s) as [-> |[-> ->]].
    + left. by destruct (_ || _).
    + destruct (_ || _); [right|left]; done.
  - intros Hi ->. rewrite (Hinf Hi). cbn [negb orb].
    by destruct ITerm.
  - intros Hi ->. rewrite (Hinf Hi). cbn [negb orb].
    assert (fadd ITerm S754_nan = S754_nan) as -> by (by destruct ITerm).
    rewrite ABS_nan. reflexivity.
Qed.

(** X11. In single precision, after [pidSetItermAccelerator] with 0 a
    tick with stabilisation on freezes the accumulator of every axis
    whose increment [Ki[axis] * errorRate * dT * dynKi] is finite: the
    accumulator is as it was (a negative zero can become a positive
    zero).  The increment is multiplied by the accelerator, and zero
    times an infinite or NaN increment is NaN: the accumulator then
    becomes NaN, unless the mixer reports saturation, in which case it
    is kept. *)
Theorem iterm_accelerator_zero_freezes_integrator
    pidProfile angleTrim env (st : pidState binary32) :
  layout st = true -> triMixerInUse env = false ->
  pidStabilisationEnabled st = true ->
  exists st',
    pidController pidProfile angleTrim env (pidSetItermAccelerator (of_int 0) st)
    = Some st'
    /\ forall axis, axis < 3 ->
       exists sp expected ITerm ki ITerm',
         shapedSetpoint pidProfile angleTrim env axis st = Some sp
         /\ expectedGyroError st !! axis = Some expected
         /\ axisPID_I st !! axis = Some ITerm
         /\ Ki (gains st) !! axis = Some ki
         /\ axisPID_I st' !! axis = Some ITerm'
         /\ let errorRate := fadd (fsub sp (gyroADCf env axis)) expected in
            let dynKi :=
              dynKiOf (getMotorMixRange env) (ITermWindupPointInv (gains st)) in
            let increment := fmul (fmul (fmul ki errorRate) (getdT st)) dynKi in
            let saturated := mixerIsOutputSaturated env axis errorRate in
            (is_finite increment = true ->
             ITerm' = ITerm \/ (ITerm = S754_zero true /\ ITerm' = S754_zero false))
            /\ (is_finite increment = false -> saturated = false ->
                ITerm' = S754_nan)
            /\ (is_finite increment = false -> saturated = true -> ITerm' = ITerm).
Proof.
  intros Hl Htri Hen.
  set (s := pidSetItermAccelerator (of_int 0) st).
  assert (layout s = true) as Hls by exact Hl.
  destruct (pidController_defined pidProfile angleTrim env s Hls Htri)
    as (st' & Hs & _ & _).
  exists st'. split; [done|]. intros axis Hax.
  pose proof Hl as Hl'. apply layout_spec in Hl' as ((_ & HlI & _ & HlE & _) & HlG & _).
  apply gainsLayout_spec in HlG as (_ & HlKi & _).
  destruct (setpointStage_defined pidProfile angleTrim env axis st Hl Hax)
    as [[sp u] Hsp].
  destruct (lookup_lt_is_Some_2 (expectedGyroError st) axis) as [expected Hexp]; [lia|].
  destruct (lookup_lt_is_Some_2 (axisPID_I st) axis) as [ITerm HI]; [lia|].
  destruct (lookup_lt_is_Some_2 (Ki (gains st)) axis) as [ki Hki]; [lia|].
  assert (shapedSetpoint pidProfile angleTrim env axis st = Some sp) as Hshaped
    by (unfold shapedSetpoint; rewrite Hsp; done).
  assert (shapedSetpoint pidProfile angleTrim env axis s = Some sp) as Hshaped'
    by (rewrite <- Hshaped; by apply shapedSetpoint_local).
  pose proof (pidController_iterm _ _ _ _ _ _ sp expected ITerm ki
                Hs Hax Hshaped' Hexp HI Hki) as HI'.
  cbv zeta in HI'.
  change (pidStabilisationEnabled s) with (pidStabilisationEnabled st) in HI'.
  rewrite Hen in HI'. unfold ITermCandidate in HI'.
  change (dT s) with (dT st) in HI'.
  change (itermAccelerator s) with (of_int 0 : binary32) in HI'.
  change (gains s) with (gains st) in HI'.
  eexists sp, expected, ITerm, ki, _. do 4 (split; [done|]).
  split; [exact HI'|]. cbv zeta. unfold getdT.
  apply ITermCommitted_frozen.
Qed.

(** *** The dynamic Ki factor *)

Lemma dynKiOf_capped (motorMixRange windupPointInv : binary32) :
  is_nan (dynKiOf motorMixRange windupPointInv) = false
  /\ flt f1 (dynKiOf motorMixRange windupPointInv) = false.
Proof.
  unfold dynKiOf, MIN.
  destruct (flt (fmul (fsub f1 motorMixRange) windupPointInv) f1) eqn:Hlt.
  - split; [by apply SFltb_number in Hlt as [-> _]|by apply SFltb_asym].
  - split; reflexivity.
Qed.

Lemma dynKi_percents :
  forallb (fun percent =>
             bool_decide (dynKiOf f0 (windupPointInvOf percent) = f1 :> binary32)
             && bool_decide (dynKiOf f1 (windupPointInvOf percent) = f0 :> binary32)
             && flt (dynKiOf (of_int 2) (windupPointInvOf percent)) (f0 : binary32))
          (zrange 100 0) = true.
Proof. vm_compute. reflexivity. Qed.

(** X12. In single precision the dynamic Ki factor [MIN((1 -
    motorMixRange) * ITermWindupPointInv, 1)] is never NaN and never
    above 1, whatever its operands are (a product that is NaN gives
    1).  For a windup point below 100 percent it is exactly 1 at a
    motor mix range of 0 and exactly 0 at a motor mix range of 1, and
    it is not capped from below: at a motor mix range of 2 it is
    negative. *)
Theorem dynamic_ki_is_capped_at_one_only pidProfile triMixer (st : pidState binary32) :
  (0 <= itermWindupPointPercent pidProfile < 100)%Z ->
  let windupPointInv :=
    ITermWindupPointInv (gains (pidInitConfig pidProfile triMixer st)) in
  (forall motorMixRange reciprocal,
     is_nan (dynKiOf motorMixRange reciprocal) = false
     /\ flt f1 (dynKiOf motorMixRange reciprocal) = false)
  /\ dynKiOf f0 windupPointInv = f1
  /\ dynKiOf f1 windupPointInv = f0
  /\ flt (dynKiOf (of_int 2) windupPointInv) f0 = true.
Proof.
  intros Hp. cbv zeta. split; [apply dynKiOf_capped|].
  change (ITermWindupPointInv (gains (pidInitConfig pidProfile triMixer st)))
    with (windupPointInvOf (F:=binary32) (itermWindupPointPercent pidProfile)).
  pose proof (proj1 (forallb_forall _ _) dynKi_percents
                (itermWindupPointPercent pidProfile)) as Hcheck.
  cbv beta in Hcheck.
  rewrite !andb_true_iff, !bool_decide_eq_true in Hcheck.
  destruct Hcheck as ((H0 & H1) & H2); [apply zrange_spec; lia|].
  done.
Qed.

(** *** The level modes *)

Lemma constrainf_bounds (x low high : binary32) :
  is_nan low = false -> is_nan high = false -> SFleb low high = true ->
  is_nan (constrainf x low high) = is_nan x
  /\ (is_nan x = false ->
      SFleb low (constrainf x low high) = true
      /\ SFleb (constrainf x low high) high = true).
Proof.
  intros Hlo Hhi Hle. unfold constrainf, fgt.
  destruct (flt x low) eqn:H0.
  - apply SFltb_number in H0 as [Hx _]. rewrite Hx, Hlo.
    split; [done|]. intros _. split; [by apply SFleb_refl|done].
  - destruct (flt high x) eqn:H1.
    + apply SFltb_number in H1 as [_ Hx]. rewrite Hx, Hhi.
      split; [done|]. intros _. split; [done|by apply SFleb_refl].
    + split; [done|]. intros Hx. split; by apply SFltb_false_leb.
Qed.

Lemma angleLimit_bytes :
  forallb (fun limit =>
             negb (is_nan (of_int (- limit))) && negb (is_nan (of_int limit))
             && SFleb (of_int (- limit)) (of_int limit))
          bytes = true.
Proof. vm_compute. reflexivity. Qed.

Lemma levelTarget_bounds (pidProfile : pidProfile_t binary32) (commanded : binary32) :
  (0 <= levelAngleLimit pidProfile <= 255)%Z ->
  let target :=
    constrainf commanded (of_int (- levelAngleLimit pidProfile))
               (of_int (levelAngleLimit pidProfile)) in
  is_nan target = is_nan commanded
  /\ (is_nan commanded = false ->
      SFleb (of_int (- levelAngleLimit pidProfile)) target = true
      /\ SFleb target (of_int (levelAngleLimit pidProfile)) = true).
Proof.
  intros Hbyte. cbv zeta.
  pose proof (proj1 (forallb_forall _ _) angleLimit_bytes _
                (bytes_spec _ Hbyte)) as Hcheck.
  cbv beta in Hcheck. rewrite !andb_true_iff, !negb_true_iff in Hcheck.
  destruct Hcheck as ((Hlo & Hhi) & Hle).
  by apply constrainf_bounds.
Qed.

(** X14. In single precision, in angle mode the setpoint of Roll and of
    Pitch is the angle error times [levelGain]: the commanded angle,
    [levelSensitivity] times the stick deflection (plus the navigation
    angle in a build with GPS), clamped to plus or minus
    [levelAngleLimit], minus the attitude of the axis less its trim,
    in degrees.  The clamped angle lies within the limits whenever the
    commanded angle is a number, and is NaN when that is NaN.  The
    rate setpoint of the receiver plays no part in it.  The setpoint
    of Yaw is never levelled: it is the limited rate setpoint whatever
    the flight mode. *)
Theorem angle_mode_setpoint_is_bounded_angle_error
    pidProfile angleTrim env axis (st : pidState binary32) :
  layout st = true -> (0 <= levelAngleLimit pidProfile <= 255)%Z ->
  axis < FD_YAW -> ANGLE_MODE env = true ->
  let commanded :=
    match GPS_angle env with
    | Some angle =>
        fadd (fmul (levelSensitivity pidProfile) (getRcDeflection env axis))
             (of_int (angle axis))
    | None => fmul (levelSensitivity pidProfile) (getRcDeflection env axis)
    end in
  let target :=
    constrainf commanded (of_int (- levelAngleLimit pidProfile))
               (of_int (levelAngleLimit pidProfile)) in
  let attitude := fdiv (of_int (attitude_raw env axis - angleTrim axis)) (of_int 10) in
  shapedSetpoint pidProfile angleTrim env axis st
  = Some (fmul (fsub target attitude) (levelGain (gains st)))
  /\ is_nan target = is_nan commanded
  /\ (is_nan commanded = false ->
      SFleb (of_int (- levelAngleLimit pidProfile)) target = true
      /\ SFleb target (of_int (levelAngleLimit pidProfile)) = true)
  /\ shapedSetpoint pidProfile angleTrim env YAW st
     = fst <$> limitStage YAW (getSetpointRate env YAW) st.
Proof.
  intros Hl Hlimit Hax Hangle. cbv zeta.
  assert (axis < 3) as Hax3 by (unfold FD_YAW in Hax; lia).
  destruct (limitStage_defined axis (getSetpointRate env axis) st Hl Hax3)
    as [[sp u] Hs].
  pose proof (limitStage_frame _ _ _ _ _ Hs) as Fu.
  assert (gains u = gains st) as Hg by (unfold frame in Fu; tauto).
  split; [|split; [|split]].
  - unfold shapedSetpoint, setpointStage. rewrite Hs. cbn [mbind option_bind].
    rewrite Hangle. cbn [orb andb].
    replace (axis =? YAW) with false
      by (symmetry; apply Nat.eqb_neq; unfold YAW, FD_YAW in *; lia).
    cbn [negb fmap option_fmap option_map fst].
    unfold pidLevel. rewrite Hangle, Hg. by destruct (GPS_angle env).
  - by apply levelTarget_bounds.
  - by apply levelTarget_bounds.
  - unfold shapedSetpoint, setpointStage.
    destruct (limitStage YAW (getSetpointRate env YAW) st) as [[sp' u']|]; [|done].
    cbn [mbind option_bind]. rewrite Nat.eqb_refl, andb_false_r. reflexivity.
Qed.


(** *** The relaxation of the setpoint weight *)

Lemma relaxMultiplier_capped (deflection factor : binary32) :
  is_nan (MIN (fmul deflection factor) f1) = false
  /\ flt f1 (MIN (fmul deflection factor) f1) = false.
Proof.
  unfold MIN. destruct (flt (fmul deflection factor) f1) eqn:Hlt.
  - split; [by apply SFltb_number in Hlt as [-> _]|by apply SFltb_asym].
  - split; reflexivity.
Qed.

Lemma relaxMultiplier_ratios :
  forallb (fun ratio =>
             bool_decide (MIN (fmul f0 (relaxFactorOf ratio)) f1 = f0 :> binary32)
             && bool_decide (MIN (fmul f1 (relaxFactorOf ratio)) f1 = f1 :> binary32))
          (zrange 99 1) = true.
Proof. vm_compute. reflexivity. Qed.

Lemma setpointWeight_finite :
  forallb (fun weight => is_finite (setpointWeightOf weight)) bytes = true.
Proof. vm_compute. reflexivity. Qed.

Lemma SFmul_zero_left s (x : binary32) :
  is_finite x = true -> exists s', fmul (S754_zero s) x = S754_zero s'.
Proof. destruct x as [sx|sx| |sx m e]; intros Hx; try discriminate Hx; by eexists. Qed.

(** X16. In single precision the relax multiplier [MIN(deflection *
    relaxFactor, 1)] of the setpoint weight is never NaN and never
    above 1.  For a relax ratio from 1 to 99, with the stick of the
    axis centred it is 0 and the weighted error of the derivative is a
    zero minus the gyro rate, for every finite setpoint: the setpoint
    does not enter the D term; with the stick fully deflected it is 1
    and the weighted error is [dtermSetpointWeight * currentPidSetpoint
    - gyroRate]. *)
Theorem setpoint_relaxation_follows_the_stick
    pidProfile triMixer (st : pidState binary32) :
  (1 <= setpointRelaxRatio pidProfile <= 99)%Z ->
  (0 <= profile_dtermSetpointWeight pidProfile <= 255)%Z ->
  let st' := pidInitConfig pidProfile triMixer st in
  (forall deflection factor : binary32,
     is_nan (MIN (fmul deflection factor) f1) = false
     /\ flt f1 (MIN (fmul deflection factor) f1) = false)
  /\ forall env axis currentPidSetpoint gyroRate,
       (getRcDeflectionAbs env axis = f0 ->
        is_finite currentPidSetpoint = true ->
        exists s,
          dtermError pidProfile env axis currentPidSetpoint gyroRate st'
          = fsub (S754_zero s) gyroRate)
       /\ (getRcDeflectionAbs env axis = f1 ->
           dtermError pidProfile env axis currentPidSetpoint gyroRate st'
           = fsub (fmul (dtermSetpointWeight (gains st')) currentPidSetpoint)
                  gyroRate).
Proof.
  intros Hratio Hweight. cbv zeta. split; [apply relaxMultiplier_capped|].
  intros env axis currentPidSetpoint gyroRate.
  pose proof (proj1 (forallb_forall _ _) relaxMultiplier_ratios
                (setpointRelaxRatio pidProfile)) as Hcheck.
  cbv beta in Hcheck. rewrite andb_true_iff, !bool_decide_eq_true in Hcheck.
  destruct Hcheck as (Hcentre & Hfull); [apply zrange_spec; lia|].
  pose proof (proj1 (forallb_forall _ _) setpointWeight_finite _
                (bytes_spec _ Hweight)) as Hfinite.
  pose proof (proj1 (forallb_forall _ _) setpointWeight_times_one _
                (bytes_spec _ Hweight)) as Hone.
  cbv beta in Hfinite, Hone. apply bool_decide_eq_true in Hone.
  unfold dtermError.
  change (relaxFactor (gains (pidInitConfig pidProfile triMixer st)))
    with (relaxFactorOf (F:=binary32) (setpointRelaxRatio pidProfile)).
  change (dtermSetpointWeight (gains (pidInitConfig pidProfile triMixer st)))
    with (setpointWeightOf (F:=binary32) (profile_dtermSetpointWeight pidProfile)).
  replace (setpointRelaxRatio pidProfile <? 100)%Z with true
    by (symmetry; apply Z.ltb_lt; lia).
  split.
  - intros -> Hsp. rewrite Hcentre.
    destruct (proj1 (SFmul_zero_right _) Hfinite) as [s0 Hzero].
    change (f0 : binary32) with (of_int 0 : binary32). rewrite Hzero.
    destruct (SFmul_zero_left s0 currentPidSetpoint Hsp) as [s ->].
    by exists s.
  - intros ->. rewrite Hfull, Hone. reflexivity.
Qed.

End SingleEdges.

(** ** The limiter and the loop time *)

Lemma maxVelocity_words :
  forallb (fun limit =>
             negb (fnonzero (maxVelocityOf (F:=Binary32.binary32) limit
                               (S754_zero false))))
          words = true.
Proof. vm_compute. reflexivity. Qed.

(** X23. [pidInitConfig] derives [maxVelocity] from [dT]: called while [dT]
    is zero, as it is at start-up before [pidSetTargetLooptime], it
    leaves every [maxVelocity] at zero, whatever limits the profile
    holds, and on the following ticks [pidController] skips the
    acceleration limiter on every axis: the setpoint passes unchanged
    and the state is not touched.  This holds in exact arithmetic and
    in single precision.  With a positive loop time and a positive
    limit the derived [maxVelocity] is positive (in exact
    arithmetic). *)
Theorem limiter_is_off_while_dT_is_zero :
  (forall (header : PidHeader Q) (filters : FilterLib Q)
      (pidProfile : pidProfile_t Q) (triMixer : bool) (st : pidState Q)
      (axis : nat) (raw : Q),
      (getdT st == 0)%Q -> axis < 3 ->
      let st' := pidInitConfig pidProfile triMixer st in
      limitStage axis raw st' = Some (raw, st'))
  /\ (forall (header : PidHeader Binary32.binary32)
        (filters : FilterLib Binary32.binary32)
        (pidProfile : pidProfile_t Binary32.binary32) (triMixer : bool)
        (st : pidState Binary32.binary32) (axis : nat) (raw : Binary32.binary32),
        getdT st = f0 ->
        (0 <= rateAccelLimit pidProfile <= 65535)%Z ->
        (0 <= yawRateAccelLimit pidProfile <= 65535)%Z -> axis < 3 ->
        let st' := pidInitConfig pidProfile triMixer st in
        limitStage axis raw st' = Some (raw, st'))
  /\ (forall (header : PidHeader Q) (filters : FilterLib Q)
        (pidProfile : pidProfile_t Q) (triMixer : bool) (st : pidState Q)
        (looptime : Z),
        (0 < looptime)%Z -> (0 < rateAccelLimit pidProfile)%Z ->
        (0 < yawRateAccelLimit pidProfile)%Z ->
        Forall (fun maxV => (0 < maxV)%Q /\ fnonzero maxV = true)
          (maxVelocity (gains (pidInitConfig pidProfile triMixer
                                 (pidSetTargetLooptime looptime st))))).
Proof.
  split; [|split].
  - intros header filters pidProfile triMixer st axis raw Hz Hax. cbv zeta.
    unfold getdT in Hz. unfold limitStage, pidInitConfig.
    cbn [gains maxVelocity].
    assert (forall limit : Z,
              fnonzero (fmul (of_int (limit * 1000)) (dT st)) = false) as Hoff.
    { intros limit. apply fnonzero_exact. exact_ops. rewrite Hz. ring. }
    destruct axis as [|[|[|]]]; [| | |lia]; cbn [lookup list_lookup mbind option_bind];
      by rewrite Hoff.
  - intros header filters pidProfile triMixer st axis raw Hz Hroll Hyaw Hax. cbv zeta.
    unfold getdT in Hz. unfold limitStage, pidInitConfig.
    cbn [gains maxVelocity]. rewrite Hz.
    assert (forall limit : Z, (0 <= limit <= 65535)%Z ->
              fnonzero (fmul (of_int (limit * 1000)) (f0 : Binary32.binary32)) = false)
      as Hoff.
    { intros limit Hlimit.
      pose proof (proj1 (forallb_forall _ _) maxVelocity_words _
                    (words_spec _ Hlimit)) as Hcheck.
      cbv beta in Hcheck. apply negb_true_iff in Hcheck. exact Hcheck. }
    destruct axis as [|[|[|]]]; [| | |lia]; cbn [lookup list_lookup mbind option_bind];
      by rewrite Hoff.
  - intros header filters pidProfile triMixer st looptime Hl Hroll Hyaw.
    unfold pidInitConfig, pidSetTargetLooptime, f_micro.
    cbn [gains maxVelocity dT]. exact_ops.
    assert (forall a : Z, (0 < a)%Z ->
              (0 < inject_Z (a * 1000)
                   * (inject_Z looptime * (inject_Z 1 / inject_Z 1000000)))%Q) as Hpos.
    { intros a Ha.
      apply Qmult_lt_0_compat.
      - change 0%Q with (inject_Z 0). rewrite <- Zlt_Qlt. lia.
      - apply Qmult_lt_0_compat; [|done].
        change 0%Q with (inject_Z 0). by rewrite <- Zlt_Qlt. }
    assert (forall x : Q, (0 < x)%Q -> negb (Qeq_bool x 0) = true) as Hnz.
    { intros x Hx. apply negb_true_iff. apply not_true_iff_false.
      rewrite Qeq_bool_iff. lra. }
    repeat constructor; try (by apply Hpos); apply Hnz; by apply Hpos.
Qed.

(** ** The further properties on the example *)

Section Applied.
Import Binary32.
#[local] Existing Instance upstreamHeader.
#[local] Existing Instance identityFilters.

Lemma pterm_example :
  layout (pidStabilisationState true (exampleState (F:=binary32))) = true
  /\ triMixerInUse (exampleTick (F:=binary32)) = false
  /\ exists st' kp,
      pidController (F:=binary32) (exampleProfile 50 60 0) levelTrims
                    exampleTick (pidStabilisationState true exampleState) = Some st'
      /\ Kp (gains (exampleState (F:=binary32))) !! FD_ROLL = Some kp
      /\ axisPID_P st' !! FD_ROLL
         = Some (fmul (fmul kp (fadd (fsub (of_int 100) (of_int 0)) (of_int 0)))
                      (of_int 1)).
Proof.
  assert (layout (pidStabilisationState true (exampleState (F:=binary32))) = true)
    as Hl by reflexivity.
  assert (triMixerInUse (exampleTick (F:=binary32)) = false) as Htri by reflexivity.
  split; [exact Hl|]. split; [exact Htri|].
  destruct (pterm_is_gain_times_error_rate (F:=binary32)
              (exampleProfile 50 60 0) levelTrims exampleTick
              (pidStabilisationState true exampleState)
              Hl Htri) as (st' & Hs & Haxes).
  destruct (Haxes FD_ROLL ltac:(unfold FD_ROLL; lia))
    as (sp & expected & kp & Hsp & Hexp & Hkp & HP & _).
  exists st', kp. split; [exact Hs|]. split; [exact Hkp|].
  rewrite (HP ltac:(discriminate)).
  assert (Some sp = Some (of_int 100)) as Esp by (rewrite <- Hsp; reflexivity).
  assert (Some expected = Some (of_int 0)) as Eexp by (rewrite <- Hexp; reflexivity).
  injection Esp as ->. injection Eexp as ->. reflexivity.
Defined.

Lemma dterm_example :
  layout (exampleState (F:=binary32)) = true
  /\ triMixerInUse (exampleTick (F:=binary32)) = false
  /\ exists st' rD,
      pidController (F:=binary32) (exampleProfile 50 60 0) levelTrims
                    exampleTick exampleState = Some st'
      /\ previousRateError st' !! FD_PITCH = Some rD
      /\ is_Some (axisPID_D st' !! FD_PITCH).
Proof.
  assert (layout (exampleState (F:=binary32)) = true) as Hl by reflexivity.
  assert (triMixerInUse (exampleTick (F:=binary32)) = false) as Htri by reflexivity.
  split; [exact Hl|]. split; [exact Htri|].
  destruct (dterm_is_filtered_rate_of_change (F:=binary32)
              (exampleProfile 50 60 0) levelTrims exampleTick exampleState
              Hl Htri) as (st' & Hs & Haxes).
  destruct (Haxes FD_PITCH ltac:(unfold FD_PITCH, FD_YAW; lia))
    as (sp & previous & kd & notch & lpf & d1 & m1 & d2 & m2
        & _ & _ & _ & _ & _ & _ & _ & HD & HR & _).
  exists st'. eexists. split; [exact Hs|]. split; [exact HR|].
  rewrite HD. by eexists.
Defined.

Lemma controller_configuration_example :
  exists st',
    pidController (F:=binary32) (exampleProfile 50 60 0) levelTrims
                  exampleTick exampleState = Some st'
    /\ gains st' = gains exampleState /\ bank st' = bank exampleState.
Proof.
  assert (pidController (F:=binary32) (exampleProfile 50 60 0) levelTrims
                        exampleTick exampleState
          = Some (default exampleState
                    (pidController (F:=binary32) (exampleProfile 50 60 0) levelTrims
                                   exampleTick exampleState))) as Hs
    by (vm_compute; reflexivity).
  eexists. split; [exact Hs|].
  destruct (controller_keeps_configuration (F:=binary32) _ _ _ _ _ Hs)
    as (_ & _ & Hg & Hb & _).
  split; [exact Hg|exact Hb].
Defined.

Lemma axis_iteration_example :
  exists st',
    pidAxis (F:=binary32) (exampleProfile 50 60 0) levelTrims exampleTick
            (of_int 1) (of_int 1) FD_ROLL exampleState = Some st'
    /\ axisPID_P st' !! FD_PITCH = axisPID_P exampleState !! FD_PITCH
    /\ previousRateError st' !! FD_PITCH = previousRateError exampleState !! FD_PITCH.
Proof.
  assert (pidAxis (F:=binary32) (exampleProfile 50 60 0) levelTrims exampleTick
                  (of_int 1) (of_int 1) FD_ROLL exampleState
          = Some (default exampleState
                    (pidAxis (F:=binary32) (exampleProfile 50 60 0) levelTrims
                             exampleTick (of_int 1) (of_int 1) FD_ROLL exampleState)))
    as Hs by (vm_compute; reflexivity).
  assert (FD_PITCH <> FD_ROLL) as Hj by discriminate.
  eexists. split; [exact Hs|].
  destruct (axis_iteration_writes_own_entries (F:=binary32) _ _ _ _ _ _ _ _ _ Hs Hj)
    as (HP & _ & _ & _ & HR).
  split; [exact HP|exact HR].
Defined.

Lemma configured_controller_example :
  is_Some (pidFrequencyNyquist (F:=binary32) (pidSetTargetLooptime 1000 power_on))
  /\ exists st0 st',
      configured (F:=binary32) 1000 (exampleProfile 50 60 200) false = Some st0
      /\ run (exampleProfile 50 60 200) levelTrims
             [(true, exampleTick); (false, exampleTick); (true, exampleTick)] st0
         = Some st'
      /\ layout st' = true.
Proof.
  assert (is_Some (pidFrequencyNyquist (F:=binary32)
                     (pidSetTargetLooptime 1000 power_on))) as Hn
    by (exists 499%Z; vm_compute; reflexivity).
  split; [exact Hn|].
  destruct (configured_controller_runs_in_bounds (F:=binary32)
              (exampleProfile 50 60 200) (exampleProfile 50 60 200) levelTrims false 1000
              [(true, exampleTick); (false, exampleTick); (true, exampleTick)] Hn)
    as (st0 & st' & H0 & _ & Hs & Hl & _).
  - repeat constructor.
  - exists st0, st'. split; [exact H0|]. split; [exact Hs|exact Hl].
Defined.

Lemma reset_example :
  length (axisPID_I (exampleState (F:=binary32))) = 3
  /\ axisPID_I (pidResetErrorGyroState (exampleState (F:=binary32))) = [f0; f0; f0]
  /\ pidResetErrorGyroAxis 3 (exampleState (F:=binary32)) = None.
Proof.
  assert (length (axisPID_I (exampleState (F:=binary32))) = 3) as Hlen by reflexivity.
  split; [exact Hlen|].
  destruct (reset_state_is_reset_of_each_axis (exampleState (F:=binary32)) Hlen)
    as (_ & Hzero & _ & _ & _ & _ & _ & Hout).
  split; [exact Hzero|]. apply Hout. lia.
Defined.

Lemma expected_gyro_error_example :
  layout (exampleState (F:=binary32)) = true
  /\ triMixerInUse (exampleTick (F:=binary32)) = false
  /\ exists st1 st',
      pidSetExpectedGyroError FD_YAW (of_int 5) (exampleState (F:=binary32)) = Some st1
      /\ expectedGyroError st1 !! FD_YAW = Some (of_int 5)
      /\ pidController (exampleProfile 50 60 0) levelTrims exampleTick st1 = Some st'
      /\ is_Some (axisPID_I st' !! FD_YAW).
Proof.
  assert (layout (exampleState (F:=binary32)) = true) as Hl by reflexivity.
  assert (triMixerInUse (exampleTick (F:=binary32)) = false) as Htri by reflexivity.
  split; [exact Hl|]. split; [exact Htri|].
  destruct (expected_gyro_error_enters_error_rate (F:=binary32)
              (exampleProfile 50 60 0) levelTrims exampleTick FD_YAW (of_int 5)
              exampleState Hl Htri) as (Hin & _).
  destruct (Hin ltac:(unfold FD_YAW; lia))
    as (st1 & st' & sp & kp & ki & ITerm & H1 & He & _ & Hs & _ & _ & _ & _
        & _ & _ & HI).
  exists st1, st'. split; [exact H1|]. split; [exact He|]. split; [exact Hs|].
  rewrite HI. by eexists.
Defined.

Lemma uninitialised_filters_example :
  (dtermNotchFilterApplyFn (bank (power_on (F:=binary32))) = NullFn
   \/ dtermLpfApplyFn (bank (power_on (F:=binary32))) = NullFn
   \/ ptermYawFilterApplyFn (bank (power_on (F:=binary32))) = NullFn)
  /\ pidController (F:=binary32) (exampleProfile 50 60 0) levelTrims exampleTick
       (pidInitConfig (exampleProfile 50 60 0) false (pidSetTargetLooptime 1000 power_on))
     = None
  /\ is_Some (pidController (F:=binary32) (exampleProfile 50 60 0) levelTrims
                exampleTick exampleState).
Proof.
  assert (dtermNotchFilterApplyFn (bank (power_on (F:=binary32))) = NullFn
          \/ dtermLpfApplyFn (bank (power_on (F:=binary32))) = NullFn
          \/ ptermYawFilterApplyFn (bank (power_on (F:=binary32))) = NullFn) as Hnull
    by (left; reflexivity).
  split; [exact Hnull|].
  destruct (controller_needs_initialised_filters (F:=binary32)
              (exampleProfile 50 60 0) levelTrims exampleTick power_on Hnull)
    as (_ & Hconfig & _).
  split; [apply Hconfig|].
  vm_compute. by eexists.
Defined.

Lemma axis_terms_example :
  layout (exampleState (F:=binary32)) = true
  /\ agreeOn FD_ROLL (exampleTick (F:=binary32)) yawDisturbedTick
  /\ getSetpointRate (exampleTick (F:=binary32)) FD_YAW
     <> getSetpointRate yawDisturbedTick FD_YAW
  /\ exists t1 t2,
      pidController (F:=binary32) (exampleProfile 50 60 0) levelTrims
                    exampleTick exampleState = Some t1
      /\ pidController (F:=binary32) (exampleProfile 50 60 0) levelTrims
                       yawDisturbedTick exampleState = Some t2
      /\ axisPID_P t1 !! FD_ROLL = axisPID_P t2 !! FD_ROLL
      /\ axisPID_I t1 !! FD_ROLL = axisPID_I t2 !! FD_ROLL
      /\ axisPID_D t1 !! FD_ROLL = axisPID_D t2 !! FD_ROLL.
Proof.
  assert (layout (exampleState (F:=binary32)) = true) as Hl by reflexivity.
  assert (triMixerInUse (exampleTick (F:=binary32)) = false) as Htri by reflexivity.
  assert (agreeOn FD_ROLL (exampleTick (F:=binary32)) yawDisturbedTick) as Hagree
    by (repeat split; reflexivity).
  split; [exact Hl|]. split; [exact Hagree|].
  split; [vm_compute; discriminate|].
  destruct (axis_terms_depend_on_own_inputs (F:=binary32)
              (exampleProfile 50 60 0) levelTrims exampleTick yawDisturbedTick
              FD_ROLL exampleState Hl Htri ltac:(unfold FD_ROLL; lia) Hagree)
    as (t1 & t2 & H1 & H2 & HP & HI & HD & _).
  exists t1, t2. do 4 (split; [assumption|]). exact HD.
Defined.

Lemma iterm_accelerator_example :
  layout (pidStabilisationState true (exampleState (F:=binary32))) = true
  /\ triMixerInUse (exampleTick (F:=binary32)) = false
  /\ pidStabilisationEnabled (pidStabilisationState true (exampleState (F:=binary32)))
     = true
  /\ exists st',
      pidController (F:=binary32) (exampleProfile 50 60 0) levelTrims exampleTick
        (pidSetItermAccelerator (of_int 0) (pidStabilisationState true exampleState))
      = Some st'
      /\ axisPID_I st' !! FD_ROLL = Some (S754_zero false).
Proof.
  assert (layout (pidStabilisationState true (exampleState (F:=binary32))) = true)
    as Hl by reflexivity.
  assert (triMixerInUse (exampleTick (F:=binary32)) = false) as Htri by reflexivity.
  assert (pidStabilisationEnabled
            (pidStabilisationState true (exampleState (F:=binary32))) = true)
    as Hen by reflexivity.
  split; [exact Hl|]. split; [exact Htri|]. split; [exact Hen|].
  destruct (iterm_accelerator_zero_freezes_integrator
              (exampleProfile 50 60 0) levelTrims exampleTick
              (pidStabilisationState true exampleState) Hl Htri Hen)
    as (st' & Hs & HI).
  exists st'. split; [exact Hs|].
  destruct (HI FD_ROLL ltac:(unfold FD_ROLL; lia))
    as (sp & expected & ITerm & ki & ITerm' & Hsp & Hexp & HI0 & Hki & HI'
        & Hfrozen & _).
  assert (Some sp = Some (of_int 100)) as Esp by (rewrite <- Hsp; reflexivity).
  assert (Some expected = Some (of_int 0)) as Eexp by (rewrite <- Hexp; reflexivity).
  assert (Some ITerm = Some (S754_zero false)) as EI by (rewrite <- HI0; reflexivity).
  assert (Some ki = Some (fmul ITERM_SCALE (of_int 40))) as Eki
    by (rewrite <- Hki; reflexivity).
  injection Esp as ->. injection Eexp as ->. injection EI as ->. injection Eki as ->.
  rewrite HI'. f_equal.
  destruct (Hfrozen ltac:(vm_compute; reflexivity)) as [-> |[Hneg _]];
    [reflexivity|discriminate Hneg].
Defined.

Lemma dynamic_ki_example :
  (0 <= itermWindupPointPercent (exampleProfile (F:=binary32) 50 60 0) < 100)%Z
  /\ dynKiOf (F:=binary32) f1
       (ITermWindupPointInv
          (gains (pidInitConfig (exampleProfile 50 60 0) false exampleState)))
     = f0.
Proof.
  assert (0 <= itermWindupPointPercent (exampleProfile (F:=binary32) 50 60 0) < 100)%Z
    as Hp by (simpl; lia).
  split; [exact Hp|].
  destruct (dynamic_ki_is_capped_at_one_only
              (exampleProfile 50 60 0) false exampleState Hp)
    as (_ & _ & Hfull & _).
  exact Hfull.
Defined.

Lemma angle_mode_example :
  layout (exampleState (F:=binary32)) = true
  /\ (0 <= levelAngleLimit (exampleProfile (F:=binary32) 50 60 0) <= 255)%Z
  /\ FD_ROLL < FD_YAW
  /\ ANGLE_MODE (levelTick (F:=binary32) true false) = true
  /\ shapedSetpoint (F:=binary32) (exampleProfile 50 60 0) levelTrims
                    (levelTick true false) FD_ROLL exampleState
     = Some (fmul (fsub (fmul (of_int 55) (fdiv (of_int 1) (of_int 2)))
                        (fdiv (of_int 100) (of_int 10)))
                  (fdiv (of_int 50) (of_int 10))).
Proof.
  assert (layout (exampleState (F:=binary32)) = true) as Hl by reflexivity.
  assert (0 <= levelAngleLimit (exampleProfile (F:=binary32) 50 60 0) <= 255)%Z
    as Hlimit by (simpl; lia).
  assert (FD_ROLL < FD_YAW) as Hax by (unfold FD_ROLL, FD_YAW; lia).
  assert (ANGLE_MODE (levelTick (F:=binary32) true false) = true) as Hangle
    by reflexivity.
  split; [exact Hl|]. split; [exact Hlimit|]. split; [exact Hax|].
  split; [exact Hangle|].
  destruct (angle_mode_setpoint_is_bounded_angle_error
              (exampleProfile 50 60 0) levelTrims (levelTick true false) FD_ROLL
              exampleState Hl Hlimit Hax Hangle) as (Hshaped & _).
  rewrite Hshaped. vm_compute. reflexivity.
Defined.


Lemma nan_integrator_example :
  layout (set_axisPID_I [S754_nan; f0; f0] (exampleState (F:=binary32))) = true
  /\ FD_ROLL < 3
  /\ exists st',
      run (F:=binary32) (exampleProfile 50 60 0) levelTrims
          [(true, exampleTick); (true, exampleTick)]
          (set_axisPID_I [S754_nan; f0; f0] exampleState) = Some st'
      /\ axisPID_I st' !! FD_ROLL = Some S754_nan.
Proof.
  assert (layout (set_axisPID_I [S754_nan; f0; f0] (exampleState (F:=binary32)))
          = true) as Hl by reflexivity.
  assert (FD_ROLL < 3) as Hax by (unfold FD_ROLL; lia).
  split; [exact Hl|]. split; [exact Hax|].
  destruct (nan_integrator_stays_nan (exampleProfile 50 60 0) levelTrims FD_ROLL
              (set_axisPID_I [S754_nan; f0; f0] exampleState) Hl Hax) as (Hrun & _).
  apply Hrun; [|reflexivity].
  repeat constructor.
Defined.

Lemma relax_ratio_example :
  (0 <= setpointRelaxRatio (variedProfile (F:=binary32) 0 50 0) <= 255)%Z
  /\ (0 <= profile_dtermSetpointWeight (variedProfile (F:=binary32) 0 50 0) <= 255)%Z
  /\ setpointRelaxRatio (variedProfile (F:=binary32) 0 50 0) = 0%Z
  /\ relaxFactor (gains (pidInitConfig (variedProfile (F:=binary32) 0 50 0) false
                           exampleState)) = pinf
  /\ dtermError (variedProfile 0 50 0) exampleTick FD_ROLL (of_int 100) (of_int 3)
       (pidInitConfig (variedProfile (F:=binary32) 0 50 0) false exampleState)
     = fsub (fmul (fdiv (of_int 60) (of_int 127)) (of_int 100)) (of_int 3).
Proof.
  assert (0 <= setpointRelaxRatio (variedProfile (F:=binary32) 0 50 0) <= 255)%Z
    as Hratio by (simpl; lia).
  assert (0 <= profile_dtermSetpointWeight (variedProfile (F:=binary32) 0 50 0)
          <= 255)%Z as Hweight by (simpl; lia).
  assert (setpointRelaxRatio (variedProfile (F:=binary32) 0 50 0) = 0%Z) as Hzero
    by reflexivity.
  split; [exact Hratio|]. split; [exact Hweight|]. split; [exact Hzero|].
  destruct (zero_relax_ratio_switches_relaxation_off
              (variedProfile 0 50 0) false exampleState Hratio Hweight)
    as (_ & Hoff).
  destruct (Hoff Hzero) as (Hinf & Herror).
  split; [exact Hinf|].
  assert (flt (getRcDeflectionAbs (exampleTick (F:=binary32)) FD_ROLL) f0 = false)
    as Hcentre by reflexivity.
  destruct (Herror exampleTick FD_ROLL (of_int 100) (of_int 3) Hcentre)
    as (_ & ->).
  reflexivity.
Defined.

Lemma level_d_gain_example :
  (0 <= D8 (variedProfile (F:=binary32) 100 0 0) (PIDLEVEL (F:=binary32)) <= 255)%Z
  /\ D8 (variedProfile (F:=binary32) 100 0 0) (PIDLEVEL (F:=binary32)) = 0%Z
  /\ horizonTransition
       (gains (pidInitConfig (variedProfile (F:=binary32) 100 0 0) false exampleState))
     = pinf
  /\ is_nan (calcHorizonLevelStrength exampleTick
               (pidInitConfig (variedProfile (F:=binary32) 100 0 0) false exampleState))
     = true.
Proof.
  assert (0 <= D8 (variedProfile (F:=binary32) 100 0 0) (PIDLEVEL (F:=binary32))
          <= 255)%Z as Hbyte by (simpl; lia).
  assert (D8 (variedProfile (F:=binary32) 100 0 0) (PIDLEVEL (F:=binary32)) = 0%Z)
    as Hzero by reflexivity.
  split; [exact Hbyte|]. split; [exact Hzero|].
  destruct (zero_level_d_gain_gives_nan_at_centre
              (variedProfile 100 0 0) false exampleTick exampleState Hbyte)
    as (_ & Hnan).
  destruct (Hnan Hzero) as (Hinf & _ & Hcentre).
  split; [exact Hinf|].
  assert (SFeqb (MAX (getRcDeflectionAbs (exampleTick (F:=binary32)) FD_ROLL)
                     (getRcDeflectionAbs (exampleTick (F:=binary32)) FD_PITCH))
                f0 = true) as Hsticks by reflexivity.
  destruct (Hcentre Hsticks) as (Hstrength & _). exact Hstrength.
Defined.

Lemma setpoint_relaxation_example :
  (1 <= setpointRelaxRatio (variedProfile (F:=binary32) 50 50 0) <= 99)%Z
  /\ (0 <= profile_dtermSetpointWeight (variedProfile (F:=binary32) 50 50 0) <= 255)%Z
  /\ exists s,
      dtermError (variedProfile 50 50 0) exampleTick FD_ROLL (of_int 100) (of_int 3)
        (pidInitConfig (variedProfile (F:=binary32) 50 50 0) false exampleState)
      = fsub (S754_zero s) (of_int 3).
Proof.
  assert (1 <= setpointRelaxRatio (variedProfile (F:=binary32) 50 50 0) <= 99)%Z
    as Hratio by (simpl; lia).
  assert (0 <= profile_dtermSetpointWeight (variedProfile (F:=binary32) 50 50 0)
          <= 255)%Z as Hweight by (simpl; lia).
  split; [exact Hratio|]. split; [exact Hweight|].
  destruct (setpoint_relaxation_follows_the_stick
              (variedProfile 50 50 0) false exampleState Hratio Hweight)
    as (_ & Herror).
  destruct (Herror exampleTick FD_ROLL (of_int 100) (of_int 3)) as (Hcentre & _).
  apply Hcentre; reflexivity.
Defined.

Lemma filters_before_loop_time_example :
  SFeqb (getdT (power_on (F:=binary32))) f0 = true
  /\ pidInitFilters (F:=binary32) (exampleProfile 50 60 200) power_on = None.
Proof.
  assert (SFeqb (getdT (power_on (F:=binary32))) f0 = true) as Hz by reflexivity.
  split; [exact Hz|].
  destruct (filters_need_the_loop_time (exampleProfile 50 60 200) power_on Hz)
    as (_ & Hnone).
  exact Hnone.
Defined.

Lemma nyquist_example :
  (1 <= 1000 <= 16384)%Z
  /\ pidFrequencyNyquist (F:=binary32) (pidSetTargetLooptime 1000 power_on)
     = Some 499%Z.
Proof.
  assert (1 <= 1000 <= 16384)%Z as Hrange by lia.
  split; [exact Hrange|].
  destruct (nyquist_frequency_falls_short_at_standard_rates 1000 power_on Hrange)
    as (Hshort & _).
  destruct Hshort as (_ & _ & Hn & _); [|exact Hn].
  unfold shortLooptimes. rewrite !elem_of_cons. tauto.
Defined.


End Applied.
